(** * mpn-compare-tool: replacement search and parameter ranking

    A shallow embedding of [EOL/replacement_search.py],
    [EOL/rank_params.py] and the comparison view of [app.py], and the
    properties of the relaxation search
    (self-exclusion, family filter, termination, monotonic relaxation, filter
    cascade, match reasons, early exits) and of the ranking operation
    (completeness, fallback order).

    Conventions.
    - Python text is a [string], read as the UTF-8 bytes of the text.  Case
      mapping, whitespace and the character classes of the regular expressions
      are given on the ASCII range, where they are Python's; a byte above 127
      is never whitespace, never alphanumeric and is left alone by [upper] and
      [lower], whereas Python also maps the letters and strips the blanks
      beyond that range.  A property that depends on what happens beyond the
      range carries the hypothesis [ascii_text].
    - A Python value of type [Any] is a [pyval]; a [Dict[str, Any]] is an
      association list in insertion order, as Python dicts are.
    - The collaborators (attribute extractor, token helper, catalog request,
      Unicode normalization, ranking model) are fields of a class; the
      attribute extractor may raise. *)

From Stdlib Require Import List String Ascii ZArith Lia Bool Arith PeanoNat.
From Stdlib Require Import QArith DecimalString Permutation Sorted.
Import ListNotations.

Local Close Scope Q_scope.
Local Open Scope nat_scope.
Local Open Scope string_scope.
Local Open Scope list_scope.

Set Warnings "-register-all".

(* ================================================================== *)
(** ** Python values and text *)
(* ================================================================== *)

Module Py.

(** [Any]: the JSON-shaped values that flow through the two modules. *)
Inductive pyval : Type :=
| PNone
| PBool (b : bool)
| PInt (z : Z)
| PFloat (q : Q)
| PStr (s : string)
| PList (l : list pyval)
| PDict (d : list (string * pyval)).

Definition dict : Type := list (string * pyval).

(** Truth value testing: [None], [False], [0], [""], [[]] and [{}] are falsy. *)
Definition truthy (v : pyval) : bool :=
  match v with
  | PNone => false
  | PBool b => b
  | PInt z => negb (Z.eqb z 0)
  | PFloat q => negb (Qeq_bool q 0)
  | PStr s => negb (String.eqb s "")
  | PList l => match l with [] => false | _ => true end
  | PDict d => match d with [] => false | _ => true end
  end.

(** [a or b]. *)
Definition por (a b : pyval) : pyval := if truthy a then a else b.

Infix "|||" := por (at level 50, left associativity).

(** Lookup in a string-keyed dict of any value type. *)
Fixpoint lookup {A : Type} (k : string) (d : list (string * A)) : option A :=
  match d with
  | [] => None
  | (k', v) :: d' => if String.eqb k k' then Some v else lookup k d'
  end.

(** [d[k] = v]: overwrite in place, or append a new key at the end. *)
Fixpoint store {A : Type} (k : string) (v : A) (d : list (string * A))
  : list (string * A) :=
  match d with
  | [] => [(k, v)]
  | (k', v') :: d' =>
      if String.eqb k k' then (k', v) :: d' else (k', v') :: store k v d'
  end.

(** [d.get(k)]: the value of the key, [None] when the key is absent. *)
Definition get (k : string) (d : dict) : pyval :=
  match lookup k d with
  | Some v => v
  | None => PNone
  end.

(** [k in d]. *)
Fixpoint has_key (k : string) (d : dict) : bool :=
  match d with
  | [] => false
  | (k', _) :: d' => String.eqb k k' || has_key k d'
  end.

Definition set (k : string) (v : pyval) (d : dict) : dict := store k v d.

(** [d.setdefault(k, v)]: only a missing key is written. *)
Definition setdefault (k : string) (v : pyval) (d : dict) : dict :=
  if has_key k d then d else set k v d.

(** [p.get(k)] on a value annotated [Dict[str, Any]].  The source raises on a
    value of another shape; such values are outside the annotation, and read
    here as a dict without keys. *)
Definition pget (p : pyval) (k : string) : pyval :=
  match p with
  | PDict d => get k d
  | _ => PNone
  end.

(** The elements of a value annotated [List[...]]; a value of another shape
    is outside the annotation, and read here as the empty list. *)
Definition elems (v : pyval) : list pyval :=
  match v with
  | PList l => l
  | _ => []
  end.

(** *** Characters *)

Definition code (c : ascii) : nat := nat_of_ascii c.

Definition between (lo hi : nat) (c : ascii) : bool :=
  Nat.leb lo (code c) && Nat.leb (code c) hi.

(** [str.isspace] on the ASCII range: TAB, LF, VT, FF, CR, FS, GS, RS, US and
    the space.  Python's whitespace also has U+0085, U+00A0, U+1680,
    U+2000..U+200A, U+2028, U+2029, U+202F, U+205F and U+3000, which are not
    stripped here. *)
Definition is_space (c : ascii) : bool :=
  between 9 13 c || between 28 32 c.

Definition is_digit (c : ascii) : bool := between 48 57 c.
Definition is_upper (c : ascii) : bool := between 65 90 c.
Definition is_lower (c : ascii) : bool := between 97 122 c.

(** The class [[A-Za-z0-9]]. *)
Definition is_alnum (c : ascii) : bool :=
  is_upper c || is_lower c || is_digit c.

Definition upper_char (c : ascii) : ascii :=
  if is_lower c then ascii_of_nat (code c - 32) else c.

Definition lower_char (c : ascii) : ascii :=
  if is_upper c then ascii_of_nat (code c + 32) else c.

(** *** Strings *)

Fixpoint smap (f : ascii -> ascii) (s : string) : string :=
  match s with
  | EmptyString => EmptyString
  | String c s' => String (f c) (smap f s')
  end.

Fixpoint sfilter (f : ascii -> bool) (s : string) : string :=
  match s with
  | EmptyString => EmptyString
  | String c s' => if f c then String c (sfilter f s') else sfilter f s'
  end.

(** [s.upper()] and [s.lower()] on the ASCII range; Python also maps the
    letters beyond it, some to more than one character (U+00DF to [SS],
    U+0130 to [i] and U+0307). *)
Definition upper : string -> string := smap upper_char.
Definition lower : string -> string := smap lower_char.

Fixpoint lstrip (s : string) : string :=
  match s with
  | EmptyString => EmptyString
  | String c s' => if is_space c then lstrip s' else s
  end.

Fixpoint rstrip (s : string) : string :=
  match s with
  | EmptyString => EmptyString
  | String c s' =>
      match rstrip s' with
      | EmptyString => if is_space c then EmptyString else String c EmptyString
      | r => String c r
      end
  end.

(** [s.strip()]. *)
Definition strip (s : string) : string := rstrip (lstrip s).

(** [needle in hay]. *)
Fixpoint contains (needle hay : string) : bool :=
  String.prefix needle hay ||
  match hay with
  | EmptyString => false
  | String _ hay' => contains needle hay'
  end.

(** [sep.join(l)]. *)
Fixpoint join (sep : string) (l : list string) : string :=
  match l with
  | [] => ""
  | [x] => x
  | x :: l' => x ++ sep ++ join sep l'
  end.

Definition mem (s : string) (l : list string) : bool :=
  existsb (String.eqb s) l.

(** The text does not start with whitespace. *)
Definition no_lead (t : string) : Prop :=
  match t with
  | EmptyString => True
  | String c _ => is_space c = false
  end.

(** Every character of [s] satisfies [f]. *)
Fixpoint all_chars (f : ascii -> bool) (s : string) : bool :=
  match s with
  | EmptyString => true
  | String c s' => f c && all_chars f s'
  end.

(** A text of the ASCII range.  On such a text [upper], [lower], [strip],
    the character classes and NFC normalization are exactly Python's. *)
Definition is_ascii (c : ascii) : bool := Nat.ltb (code c) 128.

Definition ascii_text (s : string) : bool := all_chars is_ascii s.

(** [str(z)] for an integer. *)
Definition str_of_Z (z : Z) : string := NilZero.string_of_int (Z.to_int z).

Section Str.

(** [str(v)] of a float, of a list or of a dict is Python's [repr] of the
    value; it is not expanded here. *)
Variable repr_container : pyval -> string.

(** [str(v)]. *)
Definition str (v : pyval) : string :=
  match v with
  | PNone => "None"
  | PBool true => "True"
  | PBool false => "False"
  | PInt z => str_of_Z z
  | PStr s => s
  | PFloat _ | PList _ | PDict _ => repr_container v
  end.

End Str.

End Py.

(* ================================================================== *)
(** ** EOL/rank_params.py *)
(* ================================================================== *)

Module RankParams.
Import Py.

(** Exceptions that leave [rank_parameter_ids]. *)
Inductive exn : Type :=
| RuntimeError (msg : string)
| AttributeError
| TypeError.

Inductive outcome (A : Type) : Type :=
| Returns (a : A)
| Raises (e : exn).

Arguments Returns {A} a.
Arguments Raises {A} e.

(** An entry of [compact]: [{"id": sid, "name": name}], with ["value"] added
    when the value is truthy. *)
Record compact_item : Type := mkCompact {
  c_id : string;
  c_name : pyval;
  c_value : option pyval
}.

(** [{"mpn": mpn, "category": category, "parameters": compact}]. *)
Record user_blob : Type := mkBlob {
  blob_mpn : option string;
  blob_category : option string;
  blob_parameters : list compact_item
}.

(** An entry of [by_id] and of the returned list:
    [{"id": sid, "name": name, "value": value}]. *)
Record row : Type := mkRow {
  r_id : string;
  r_name : pyval;
  r_value : pyval
}.

(** What [_try_responses_api] reads of the SDK's response object:
    [output_text], and the [(type, text)] parts of each item of [output]. *)
Record responses_reply : Type := mkReply {
  output_text : option string;
  output : list (list (option string * string))
}.

(** The collaborators of the ranking operation: the process environment, the
    model SDK and the JSON parser.  A call of the SDK that raises is [None]. *)
Class RankingOracle : Type := {
  (** [os.getenv("OPENAI_API_KEY")] *)
  api_key : option string;
  (** [client.responses.create(...)], client built from the key *)
  responses_create : string -> user_blob -> option responses_reply;
  (** [client.chat.completions.create(...)]: the [message.content] of each
      choice *)
  chat_create : string -> user_blob -> option (list (option string));
  (** [json.loads]; [None] when it raises *)
  json_loads : string -> option pyval;
  (** [repr] of floats, lists and dicts, for [str] *)
  repr_container : pyval -> string
}.

Section Ranking.

Context {O : RankingOracle}.

Definition pystr (v : pyval) : string := str repr_container v.

(** Truthiness of an [Optional[str]]. *)
Definition nonempty (c : option string) : bool :=
  match c with
  | Some s => negb (String.eqb s "")
  | None => false
  end.

(** [_client]: the key of the client, or [RuntimeError] without one. *)
Definition _client : outcome string :=
  match api_key with
  | Some key =>
      if String.eqb key "" then Raises (RuntimeError "OPENAI_API_KEY not set.")
      else Returns key
  | None => Raises (RuntimeError "OPENAI_API_KEY not set.")
  end.

(** The texts of the parts whose type is ["output_text"], over all items. *)
Definition output_parts (r : responses_reply) : list string :=
  flat_map
    (fun item =>
       flat_map
         (fun c : option string * string =>
            match fst c with
            | Some ty => if String.eqb ty "output_text" then [snd c] else []
            | None => []
            end)
         item)
    (output r).

Definition _try_responses_api (client : string) (blob : user_blob)
  : option string :=
  match responses_create client blob with
  | None => None
  | Some resp =>
      if nonempty (output_text resp) then output_text resp
      else
        match output_parts resp with
        | [] => None
        | parts => Some (join "" parts)
        end
  end.

Definition _try_chat_api (client : string) (blob : user_blob)
  : option string :=
  match chat_create client blob with
  | Some (content :: _) => content
  | _ => None
  end.

(** First loop: [by_id] and [compact], skipping parameters without an id. *)
Fixpoint collect (params : list dict) (by_id : list (string * row))
    (compact : list compact_item)
  : list (string * row) * list compact_item :=
  match params with
  | [] => (by_id, compact)
  | p :: rest =>
      match get "id" p with
      | PNone => collect rest by_id compact
      | pid =>
          let sid := pystr pid in
          let name := get "name" p in
          let val := get "value" p in
          let item :=
            mkCompact sid name (if truthy val then Some val else None) in
          collect rest (store sid (mkRow sid name val) by_id)
                  (compact ++ [item])
      end
  end.

(** [{"id": p["id"], "name": p["name"]}] for an entry of [compact]. *)
Definition min_row (c : compact_item) : dict :=
  [("id", PStr (c_id c)); ("name", c_name c)].

(** [data.get("ranked") or []] under the [try]: a value that is not an
    object makes [data.get] raise, which the [except] turns into [[]]. *)
Definition parse_ranked (content : string) : pyval :=
  match json_loads content with
  | Some (PDict data) => get "ranked" data ||| PList []
  | _ => PList []
  end.

(** The rows of [ranked_min] as the loops read them: every element must
    answer [.get].  A string or an object iterates over strings and a number
    does not iterate; both raise outside any [try]. *)
Fixpoint all_dicts (l : list pyval) : outcome (list dict) :=
  match l with
  | [] => Returns []
  | PDict d :: l' =>
      match all_dicts l' with
      | Returns ds => Returns (d :: ds)
      | Raises e => Raises e
      end
  | _ :: _ => Raises AttributeError
  end.

Definition rows_of (v : pyval) : outcome (list dict) :=
  match v with
  | PList l => all_dicts l
  | PStr _ | PDict _ => Raises AttributeError
  | PNone | PBool _ | PInt _ | PFloat _ => Raises TypeError
  end.

(** The [else] branch: the model's rows, then every entry of [compact] whose
    id is not among [seen_ids]. *)
Definition complete_ranked (ranked : list dict) (compact : list compact_item)
  : list dict :=
  let seen_ids := map (fun p => pystr (get "id" p)) ranked in
  ranked ++
  map min_row
      (filter (fun c => negb (mem (pystr (PStr (c_id c))) seen_ids)) compact).

Definition ranked_min_of (content : option string)
    (compact : list compact_item) : outcome (list dict) :=
  match content with
  | Some text =>
      if String.eqb text "" then Returns (map min_row compact)
      else
        match rows_of (parse_ranked text) with
        | Returns ranked => Returns (complete_ranked ranked compact)
        | Raises e => Raises e
        end
  | None => Returns (map min_row compact)
  end.

(** Remapping of one row onto the original value. *)
Definition remap (by_id : list (string * row)) (r : dict) : row :=
  let sid := pystr (get "id" r) in
  let base :=
    match lookup sid by_id with
    | Some b => b
    | None => mkRow sid (get "name" r) PNone
    end in
  mkRow sid
        (if truthy (get "name" r) then get "name" r else r_name base)
        (r_value base).

(** [(v or "").strip()] succeeds on strings and on falsy values. *)
Definition strippable (v : pyval) : bool :=
  match v ||| PStr "" with
  | PStr _ => true
  | _ => false
  end.

(** The console preview prints one line per row; it raises on a name or a
    value that is truthy and not a string. *)
Definition preview (rows : list row) : outcome unit :=
  if forallb (fun r => strippable (r_name r) && strippable (r_value r)) rows
  then Returns tt
  else Raises AttributeError.

(** The two attempts at the model: the Responses API, then Chat Completions
    when it gave nothing. *)
Definition ask_model (client : string) (blob : user_blob) : option string :=
  let content := _try_responses_api client blob in
  if nonempty content then content else _try_chat_api client blob.

Definition rank_parameter_ids (params : list dict)
    (mpn category : option string) (console_preview : bool)
  : outcome (list row) :=
  match params with
  | [] => Returns []
  | _ =>
      let '(by_id, compact) := collect params [] [] in
      let blob := mkBlob mpn category compact in
      match _client with
      | Raises e => Raises e
      | Returns client =>
          let content := ask_model client blob in
          match ranked_min_of content compact with
          | Raises e => Raises e
          | Returns ranked_min =>
              let ranked_with_values := map (remap by_id) ranked_min in
              if console_preview then
                match preview ranked_with_values with
                | Raises e => Raises e
                | Returns _ => Returns ranked_with_values
                end
              else Returns ranked_with_values
          end
      end
  end.

(** *** Notions used to state the properties *)

(** The parameters that carry an id, and the text of the id of a parameter. *)
Definition with_id (params : list dict) : list dict :=
  filter (fun p => match get "id" p with PNone => false | _ => true end) params.

Definition sid (p : dict) : string := pystr (get "id" p).

(** The id of a row of the model, as the function reads it. *)
Definition rid (r : dict) : string := pystr (get "id" r).

Definition row_of (p : dict) : row :=
  mkRow (sid p) (get "name" p) (get "value" p).

Definition item_of (p : dict) : compact_item :=
  mkCompact (sid p) (get "name" p)
            (if truthy (get "value" p) then Some (get "value" p) else None).

(** The input order: one row per parameter that carries an id. *)
Definition identity_order (params : list dict) : list row :=
  map row_of (with_id params).

(** The last parameter of [params] whose id reads [k]. *)
Definition latest (k : string) (params : list dict) : option dict :=
  find (fun p => String.eqb (sid p) k) (rev params).

(** Names and values that the console preview can print. *)
Definition printable (params : list dict) : bool :=
  forallb (fun p => strippable (get "name" p) && strippable (get "value" p))
          params.

(** The model gave no ranking: no content at all, or a content that does not
    parse, is not an object, or has no non-empty ["ranked"] member. *)
Definition degraded (content : option string) : Prop :=
  nonempty content = false \/
  exists text, content = Some text /\ parse_ranked text = PList [].

(** The model cannot be reached: both SDK calls raise. *)
Definition unreachable : Prop :=
  forall client blob,
    responses_create client blob = None /\ chat_create client blob = None.

(** A ranking of [params] as the model is asked to give it: rows whose ids
    are ids of [params], none twice, each under the name of the parameter or
    under no name. *)
Definition valid_ranking (params : list dict) (rows : list dict) : Prop :=
  NoDup (map rid rows) /\
  forall r, In r rows ->
    exists p, In p (with_id params) /\ sid p = rid r /\
              (truthy (get "name" r) = true -> get "name" r = get "name" p).

(** Whatever the model answers to the request for [params] and can be read
    as rows is a valid ranking of [params]. *)
Definition model_complies (params : list dict) (mpn category : option string)
  : Prop :=
  forall client text rows,
    _client = Returns client ->
    ask_model client (mkBlob mpn category (map item_of (with_id params)))
    = Some text ->
    rows_of (parse_ranked text) = Returns rows ->
    valid_ranking params rows.

(** The first parameter of [params] whose id reads [k]. *)
Definition earliest (k : string) (params : list dict) : option dict :=
  find (fun p => String.eqb (sid p) k) (with_id params).

(** The bijection as the specification states it, part by part: every input
    parameter, with or without an id, has its entry in the output under its
    name; *)
Definition every_parameter_kept (params : list dict)
    (mpn category : option string) (console_preview : bool) : Prop :=
  forall out,
    rank_parameter_ids params mpn category console_preview = Returns out ->
    forall p, In p params ->
      exists r, In r out /\ r_name r = get "name" p /\
                (get "id" p <> PNone -> r_id r = sid p).

(** every output entry is the (id, name) pair of an input parameter; *)
Definition nothing_invented (params : list dict)
    (mpn category : option string) (console_preview : bool) : Prop :=
  forall out,
    rank_parameter_ids params mpn category console_preview = Returns out ->
    forall r, In r out ->
      exists p, In p params /\ r_id r = sid p /\ r_name r = get "name" p.

(** no id comes twice; *)
Definition no_duplicates (params : list dict)
    (mpn category : option string) (console_preview : bool) : Prop :=
  forall out,
    rank_parameter_ids params mpn category console_preview = Returns out ->
    NoDup (map r_id out).

(** and the value of an entry is the value of the first input parameter
    with its id. *)
Definition first_value_wins (params : list dict)
    (mpn category : option string) (console_preview : bool) : Prop :=
  forall out,
    rank_parameter_ids params mpn category console_preview = Returns out ->
    forall r p, In r out -> earliest (r_id r) params = Some p ->
      r_value r = get "value" p.

Definition bijection_claim (params : list dict) (mpn category : option string)
    (console_preview : bool) : Prop :=
  every_parameter_kept params mpn category console_preview /\
  nothing_invented params mpn category console_preview /\
  no_duplicates params mpn category console_preview /\
  first_value_wins params mpn category console_preview.

(** The fallback as the specification states it: when the model cannot be
    reached the operation returns, never raises, and keeps the input order. *)
Definition fallback_claim (params : list dict) (mpn category : option string)
    (console_preview : bool) : Prop :=
  unreachable ->
  exists out,
    rank_parameter_ids params mpn category console_preview = Returns out /\
    map r_id out = map sid (with_id params).

End Ranking.

End RankParams.

(* ================================================================== *)
(** ** EOL/replacement_search.py *)
(* ================================================================== *)

Module ReplacementSearch.
Import Py.

(** *** Helpers *)

Definition _PLACEHOLDER : list string :=
  [""; "-"; "—"; "n/a"; "na"; "none"; "null"].

Definition _is_placeholder (val : option string) : bool :=
  match val with
  | None => true
  | Some v => mem (lower (strip v)) _PLACEHOLDER
  end.

(** [s or ""] for a value annotated [Optional[str]]; a truthy value that is
    not text is outside the annotation, and read here as no text. *)
Definition text_or_empty (s : pyval) : string :=
  match s with
  | PStr t => t
  | _ => ""
  end.

(** [re.sub(r"[^A-Za-z0-9]", "", (s or "").upper())]. *)
Definition _norm_mpn (s : pyval) : string :=
  sfilter is_alnum (upper (text_or_empty s)).

(** The maximal runs of digits of [s], in order; [cur] is the run being read. *)
Fixpoint digit_runs (s : string) (cur : string) : list string :=
  match s with
  | EmptyString => [cur]
  | String c s' =>
      if is_digit c then digit_runs s' (cur ++ String c EmptyString)
      else cur :: digit_runs s' ""
  end.

(** [re.findall(r"\d{3,}", s)]. *)
Definition findall_digits3 (s : string) : list string :=
  filter (fun t => Nat.leb 3 (String.length t)) (digit_runs s "").

(** The digits at the head of [s]. *)
Fixpoint leading_digits (s : string) : string :=
  match s with
  | EmptyString => EmptyString
  | String c s' => if is_digit c then String c (leading_digits s') else ""
  end.

(** [re.match(r"\d{3,}", s)]: the leading run when it has three digits. *)
Definition match_digits3 (s : string) : option string :=
  let m := leading_digits s in
  if Nat.leb 3 (String.length m) then Some m else None.

(** A set of strings, as the list of its elements without repetition. *)
Fixpoint set_of (l : list string) : list string :=
  match l with
  | [] => []
  | x :: l' => if mem x l' then set_of l' else x :: set_of l'
  end.

(** Order of the key [(-len(t), t)]. *)
Definition token_le (a b : string) : bool :=
  Nat.ltb (String.length b) (String.length a) ||
  (Nat.eqb (String.length a) (String.length b) && String.leb a b).

Fixpoint insert_token (t : string) (l : list string) : list string :=
  match l with
  | [] => [t]
  | x :: l' => if token_le t x then t :: l else x :: insert_token t l'
  end.

(** [sorted(tokset, key=lambda t: (-len(t), t))]. *)
Definition sorted_tokens (tokset : list string) : list string :=
  fold_right insert_token [] tokset.

Definition _base_tokens (original_mpn : string) : list string :=
  let s := _norm_mpn (PStr original_mpn) in
  let found := findall_digits3 s in
  let tokset :=
    match match_digits3 s with
    | Some m => set_of (found ++ [m])
    | None => set_of found
    end in
  sorted_tokens tokset.

(** An entry of [triples]:
    [{"name": name, "value": val_text, "id": ..., "value_id": ...}]. *)
Record triple : Type := mkTriple {
  t_name : string;
  t_value : string;
  t_id : option string;
  t_value_id : option string
}.

(** [t.get(k)] is truthy for an optional text. *)
Definition present (o : option string) : bool :=
  match o with
  | Some s => negb (String.eqb s "")
  | None => false
  end.

(** *** Catalog payloads *)

Inductive param_filter : Type :=
| IdValueId (ParameterId ValueId : option string)
| IdValueText (ParameterId : option string) (ValueText : string)
| IdValue (ParameterId : option string) (Value : string)
| TextValueText (ParameterText ValueText : string).

Inductive body_filters : Type :=
| NoFilters
| Filters_ParameterFilters (l : list param_filter)
| ParameterValueFilters (l : list param_filter).

(** The JSON body of a keyword-search request. *)
Record body : Type := mkBody {
  Keywords : string;
  RecordCount : Z;
  filters : body_filters
}.

(** The four variants, strictest first; a variant without filters is left
    out. *)
Definition p_id_valId (triples : list triple) : list param_filter :=
  map (fun t => IdValueId (t_id t) (t_value_id t))
      (filter (fun t => present (t_id t) && present (t_value_id t)) triples).

Definition p_id_valTxt (triples : list triple) : list param_filter :=
  map (fun t => IdValueText (t_id t) (t_value t))
      (filter (fun t => present (t_id t) && present (Some (t_value t))) triples).

Definition p_id_val (triples : list triple) : list param_filter :=
  map (fun t => IdValue (t_id t) (t_value t))
      (filter (fun t => present (t_id t) && present (Some (t_value t))) triples).

Definition p_txt_val (triples : list triple) : list param_filter :=
  map (fun t => TextValueText (t_name t) (t_value t))
      (filter (fun t => present (Some (t_name t)) && present (Some (t_value t)))
              triples).

Definition when_nonempty {A} (l : list A) (b : body) : list body :=
  match l with
  | [] => []
  | _ => [b]
  end.

Definition candidates (base_keywords : string) (triples : list triple)
    (record_count : Z) : list body :=
  when_nonempty (p_id_valId triples)
    (mkBody base_keywords record_count
            (Filters_ParameterFilters (p_id_valId triples))) ++
  when_nonempty (p_id_valTxt triples)
    (mkBody base_keywords record_count
            (Filters_ParameterFilters (p_id_valTxt triples))) ++
  when_nonempty (p_id_val triples)
    (mkBody base_keywords record_count
            (ParameterValueFilters (p_id_val triples))) ++
  when_nonempty (p_txt_val triples)
    (mkBody base_keywords record_count
            (Filters_ParameterFilters (p_txt_val triples))).

(** [j.get("Products") or j.get("products") or []], kept when it is a list. *)
Definition _extract_products (j : dict) : list pyval :=
  match get "Products" j ||| get "products" j ||| PList [] with
  | PList prods => prods
  | _ => []
  end.

(** [re.sub(r"\s+", " ", t)]: [in_run] holds inside a run of whitespace. *)
Fixpoint collapse_ws (in_run : bool) (t : string) : string :=
  match t with
  | EmptyString => EmptyString
  | String c t' =>
      if is_space c then
        if in_run then collapse_ws true t' else String " " (collapse_ws true t')
      else String c (collapse_ws false t')
  end.

(** The loop of [_keywords_from_values]: it stops once [max_tokens] tokens
    are collected. *)
Fixpoint value_tokens (values : list triple) (tokens : list string)
    (max_tokens : nat) : list string :=
  match values with
  | [] => tokens
  | v :: rest =>
      let t := strip (t_value v) in
      if String.eqb t "" then value_tokens rest tokens max_tokens
      else
        let tokens' := tokens ++ [collapse_ws false t] in
        if Nat.leb max_tokens (List.length tokens') then tokens'
        else value_tokens rest tokens' max_tokens
  end.

Definition _keywords_from_values (base_kw : string) (values : list triple)
    (max_tokens : nat) : string :=
  let tokens := value_tokens values [] max_tokens in
  if String.eqb base_kw "" then join " " tokens
  else join " " (base_kw :: tokens).

(** The keyword strings of [_keyword_fallback], before de-duplication. *)
Definition keyword_attempts (base_keywords : string) (remaining : list triple)
  : list string :=
  (if String.eqb base_keywords "" then [] else [base_keywords]) ++
  [_keywords_from_values base_keywords remaining 3] ++
  map (fun v => _keywords_from_values base_keywords [v] 1) (firstn 3 remaining).

(** *** Collaborators and effects *)

(** What the search does to the outside world, in order. *)
Inductive event : Type :=
| CallAttributes (mpn : string)   (* fetch_attributes_for_mpn *)
| CallToken                       (* _get_digikey_token *)
| CallSearch (b : body)           (* _dk_request on the keyword URL *)
| Pause.                          (* time.sleep(0.2) *)

(** What a call of the attribute extractor gives: the value it returns
    ([None] is Python's [None]), or an exception. *)
Inductive fetched : Type :=
| Fetched (d : option dict)
| FetchRaises.

(** The collaborators imported from [EOL.eol_attr_extractor], [API.digikey]
    and [unicodedata].  [world] is whatever decides their answers; each call
    may change it.  A request whose response is falsy is [None]; a response
    whose [.json()] raises is [Some None]. *)
Class Catalog : Type := {
  world : Type;
  headers : Type;
  fetch_attributes_for_mpn : string -> world -> fetched * world;
  _get_digikey_token : world -> option string * world;
  _dk_headers : string -> headers;
  _dk_request : headers -> body -> world -> option (option dict) * world;
  (** [None] when the import of [normalize_digikey_result] failed; the
      function answers [None] where it raises *)
  _normalize_dk : option (pyval -> option dict);
  (** [unicodedata.normalize("NFC", s)]; the identity on ASCII text *)
  normalize_NFC : string -> string;
  (** [repr] of floats, lists and dicts, for [str] *)
  repr_container : pyval -> string
}.

Section Search.

Context {C : Catalog}.

Record state : Type := mkState {
  now : world;
  trace : list event
}.

(** Computations that read and change the world and extend the trace. *)
Definition M (A : Type) : Type := state -> A * state.

Definition ret {A} (a : A) : M A := fun st => (a, st).

Definition bind {A B} (c : M A) (k : A -> M B) : M B :=
  fun st => let (a, st') := c st in k a st'.

Notation "x <- c ;; k" := (bind c (fun x => k))
  (at level 61, c at next level, right associativity).

Definition log {A} (e : event) (r : A * world) (st : state) : A * state :=
  (fst r, mkState (snd r) (trace st ++ [e])).

(** One call of the extractor, [fetch_attributes_for_mpn(_mpn) or {}];
    [None] when the call raises. *)
Definition fetch_or_empty (_mpn : string) : M (option dict) :=
  fun st =>
    let (r, st') :=
      log (CallAttributes _mpn) (fetch_attributes_for_mpn _mpn (now st)) st in
    (match r with
     | Fetched (Some d) => Some d
     | Fetched None => Some []
     | FetchRaises => None
     end, st').

(** [_fetch_attrs_quiet]: the call with the console silenced and, when that
    raises, the same call again in the [except] branch, where nothing catches
    a second exception: [None] is that exception on its way out. *)
Definition _fetch_attrs_quiet (_mpn : string) : M (option dict) :=
  quiet <- fetch_or_empty _mpn ;;
  match quiet with
  | Some d => ret (Some d)
  | None => fetch_or_empty _mpn
  end.

Definition get_token : M (option string) :=
  fun st => log CallToken (_get_digikey_token (now st)) st.

Definition dk_request (hdrs : headers) (b : body) : M (option (option dict)) :=
  fun st => log (CallSearch b) (_dk_request hdrs b (now st)) st.

Definition sleep : M unit :=
  fun st => (tt, mkState (now st) (trace st ++ [Pause])).

Definition pystr (v : pyval) : string := str repr_container v.

(** [str(v) if v is not None else None]. *)
Definition str_or_none (v : pyval) : option string :=
  match v with
  | PNone => None
  | _ => Some (pystr v)
  end.

(** One row of [_values_from_ranked]; [None] where the loop continues. *)
Definition value_row (p : pyval) : option triple :=
  let name := strip (pystr (pget p "name" ||| PStr "")) in
  let val_text := strip (pystr (pget p "value" ||| PStr "")) in
  let val_text := if _is_placeholder (Some val_text) then name else val_text in
  let val_id := pget p "value_id" ||| pget p "ValueId" ||| pget p "ValueID" in
  let pid := pget p "id" ||| pget p "ParameterId" ||| pget p "Id" in
  if String.eqb name "" || _is_placeholder (Some val_text) then None
  else Some (mkTriple name val_text (str_or_none pid) (str_or_none val_id)).

Fixpoint _values_from_ranked (ranked : list pyval) : list triple :=
  match ranked with
  | [] => []
  | p :: rest =>
      match value_row p with
      | Some t => t :: _values_from_ranked rest
      | None => _values_from_ranked rest
      end
  end.

(** [_as_text]: the first non-blank text among the usual keys of an object. *)
Fixpoint first_text (keys : list string) (v : dict) : option string :=
  match keys with
  | [] => None
  | k :: keys' =>
      match get k v with
      | PStr vv =>
          if String.eqb (strip vv) "" then first_text keys' v else Some vv
      | _ => first_text keys' v
      end
  end.

Definition _as_text (v : pyval) : string :=
  match v with
  | PNone => ""
  | PStr s => s
  | PDict d =>
      match first_text
              ["Value"; "value"; "Text"; "text"; "Name"; "name"; "Url"; "URL"]
              d with
      | Some vv => vv
      | None => pystr v
      end
  | _ => pystr v
  end.

(** [s or None]. *)
Definition text_or_none (s : string) : pyval :=
  if String.eqb s "" then PNone else PStr s.

Definition _brief_fallback (p : pyval) : dict :=
  let mpn := upper (strip (_as_text (pget p "ManufacturerPartNumber"))) in
  let manu := strip (_as_text (pget p "Manufacturer")) in
  let url :=
    strip (_as_text (pget p "ProductUrl" ||| pget p "ProductDetailUrl")) in
  let desc :=
    strip (_as_text (pget p "DetailedDescription"
                     ||| pget p "ProductDescription"
                     ||| pget p "ShortDescription")) in
  let status := text_or_none (strip (_as_text (pget p "ProductStatus"))) in
  [ ("mpn", PStr mpn);
    ("manufacturer", PStr manu);
    ("product_url", PStr url);
    ("description", PStr desc);
    ("lifecycle", status);
    ("price", PNone);
    ("availability",
      text_or_none
        (strip (_as_text (pget p "Availability"
                          ||| pget p "QuantityAvailable"
                          ||| pget p "Stock"))));
    ("datasheet_url", PStr (strip (_as_text (pget p "DatasheetUrl"))));
    ("image_url", PNone);
    ("score", PFloat 0%Q);
    ("match_reasons", PList []);
    ("attributes", PDict []) ].

Definition normalize_one (p : pyval) : dict :=
  match _normalize_dk with
  | Some normalize =>
      match normalize p with
      | Some c => c
      | None => _brief_fallback p
      end
  | None => _brief_fallback p
  end.

Definition _normalize_products_dk (items : list pyval) : list dict :=
  map normalize_one items.

Definition _pick_base_keywords (base : dict) : string :=
  let cand := get "category" base ||| get "family" base
              ||| get "Category" base ||| get "Family" base
              ||| get "product_family" base ||| PStr "" in
  let s := strip (pystr cand) in
  if String.eqb s "" then
    let desc := lower (pystr (get "description" base ||| PStr "")) in
    if contains "fan" desc then
      if contains "dc" desc then "DC Fans" else "Fans"
    else ""
  else
    let low := lower s in
    if contains "fan" low && contains "dc" low then "DC Fans"
    else if contains "fan" low then "Fans"
    else s.

(** [r.json() or {}], [{}] when it raises. *)
Definition json_of (r : option dict) : dict :=
  match r with
  | Some j => j
  | None => []
  end.

(** The request loop of [_search_dk_with_filters]. *)
Fixpoint try_bodies (hdrs : headers) (bodies : list body) : M (list pyval) :=
  match bodies with
  | [] => ret []
  | b :: rest =>
      r <- dk_request hdrs b ;;
      match r with
      | None => try_bodies hdrs rest
      | Some resp =>
          match _extract_products (json_of resp) with
          | [] => try_bodies hdrs rest
          | prods => ret prods
          end
      end
  end.

Definition _search_dk_with_filters (token base_keywords : string)
    (triples : list triple) (record_count : Z) : M (list pyval) :=
  try_bodies (_dk_headers token) (candidates base_keywords triples record_count).

(** The request loop of [_keyword_fallback]; [seen] holds the lowercased
    keywords already sent. *)
Fixpoint try_keywords (hdrs : headers) (attempts seen : list string)
    (record_count : Z) : M (list pyval) :=
  match attempts with
  | [] => ret []
  | kw :: rest =>
      let kw := strip kw in
      if String.eqb kw "" || mem (lower kw) seen then
        try_keywords hdrs rest seen record_count
      else
        r <- dk_request hdrs (mkBody kw record_count NoFilters) ;;
        match r with
        | None => try_keywords hdrs rest (lower kw :: seen) record_count
        | Some resp =>
            match _extract_products (json_of resp) with
            | [] => try_keywords hdrs rest (lower kw :: seen) record_count
            | prods => ret prods
            end
        end
  end.

Definition _keyword_fallback (token base_keywords : string)
    (remaining : list triple) (record_count : Z) : M (list pyval) :=
  try_keywords (_dk_headers token)
               (keyword_attempts base_keywords remaining) [] record_count.

(** *** Part-number variants for the enrichment lookups *)

(** The UTF-8 bytes of U+2010..U+2015 and of U+2212. *)
Definition is_unicode_dash (c1 c2 c3 : ascii) : bool :=
  Nat.eqb (code c1) 226 &&
  ((Nat.eqb (code c2) 128 && between 144 149 c3) ||
   (Nat.eqb (code c2) 136 && Nat.eqb (code c3) 146)).

(** [DASHES_RX.sub(rep, s)]: every maximal run of dashes becomes [rep]. *)
Fixpoint sub_dashes (rep : string) (in_run : bool) (s : string) : string :=
  match s with
  | EmptyString => EmptyString
  | String c s1 =>
      if Ascii.eqb c "-" then
        (if in_run then "" else rep) ++ sub_dashes rep true s1
      else
        match s1 with
        | String c2 (String c3 s3) =>
            if is_unicode_dash c c2 c3 then
              (if in_run then "" else rep) ++ sub_dashes rep true s3
            else String c (sub_dashes rep false s1)
        | _ => String c (sub_dashes rep false s1)
        end
  end.

Inductive ws_state : Type :=
| Outside
| One (c : ascii)
| Many.

(** [re.sub(r"\s{2,}", " ", s)]: a lone whitespace character stays. *)
Fixpoint squeeze (st : ws_state) (s : string) : string :=
  match s with
  | EmptyString =>
      match st with
      | Outside => EmptyString
      | One c0 => String c0 EmptyString
      | Many => " "
      end
  | String c s' =>
      if is_space c then
        match st with
        | Outside => squeeze (One c) s'
        | _ => squeeze Many s'
        end
      else
        match st with
        | Outside => String c (squeeze Outside s')
        | One c0 => String c0 (String c (squeeze Outside s'))
        | Many => String " " (String c (squeeze Outside s'))
        end
  end.

(** The characters before the first whitespace. *)
Fixpoint until_space (s : string) : string :=
  match s with
  | EmptyString => EmptyString
  | String c s' => if is_space c then "" else String c (until_space s')
  end.

(** [s.split()[0]]. *)
Definition first_token (s : string) : string := until_space (lstrip s).

Definition add_variant (v : string) (variants : list string) : list string :=
  if negb (String.eqb v "") && negb (mem v variants) then variants ++ [v]
  else variants.

Definition _mpn_variants (mpn_raw : string) : list string :=
  let s := strip mpn_raw in
  if String.eqb s "" then []
  else
    let s := normalize_NFC s in
    let variants := [s] in
    let variants := add_variant (sub_dashes "" false s) variants in
    let spaced := strip (squeeze Outside (sub_dashes " " false s)) in
    let variants := add_variant spaced variants in
    add_variant (first_token s) variants.

(** *** Enrichment *)

Definition triple_dict (t : triple) : pyval :=
  let opt o := match o with Some x => PStr x | None => PNone end in
  PDict [ ("name", PStr (t_name t)); ("value", PStr (t_value t));
          ("id", opt (t_id t)); ("value_id", opt (t_value_id t)) ].

(** The lookups of [_enrich]: stop at the first variant with attributes or
    parameters; otherwise [add] is the answer to the last variant.  [None]
    when a lookup raises. *)
Fixpoint lookup_variants (variants : list string) (add : dict)
  : M (option dict) :=
  match variants with
  | [] => ret (Some add)
  | mv :: rest =>
      a <- _fetch_attrs_quiet mv ;;
      match a with
      | None => ret None
      | Some a =>
          if truthy (get "attributes" a ||| get "ranked_parameters" a)
          then ret (Some a)
          else lookup_variants rest a
      end
  end.

(** [if add.get(k) and not p.get(k): p[k] = add[k]]. *)
Definition backfill (k : string) (add p : dict) : dict :=
  if truthy (get k add) && negb (truthy (get k p)) then set k (get k add) p
  else p.

Definition attach (add p : dict) : dict :=
  let p :=
    match get "attributes" add with
    | PDict (kv :: attrs) => set "attributes" (PDict (kv :: attrs)) p
    | _ => p
    end in
  let ranked := get "ranked_parameters" add ||| PList [] in
  let p :=
    if truthy ranked then
      set "parameters"
          (PList (map triple_dict (_values_from_ranked (elems ranked)))) p
    else p in
  let p := backfill "product_url" add p in
  let p := backfill "dk_part" add p in
  backfill "mouser_part" add p.

(** [_enrich]: a part number that is not text makes [.strip()] raise, and a
    lookup may raise; the [except] swallows both and the candidate stays as
    it is. *)
Definition _enrich (p : dict) : M dict :=
  match get "mpn" p ||| PStr "" with
  | PStr raw =>
      let alt_mpn_raw := strip raw in
      if String.eqb alt_mpn_raw "" then ret p
      else
        add <- lookup_variants (_mpn_variants alt_mpn_raw) [] ;;
        match add with
        | Some add => ret (attach add p)
        | None => ret p
        end
  | _ => ret p
  end.

(** The pool: one [_enrich] per candidate, each on its own candidate; the
    tasks are run here in list order. *)
Fixpoint enrich_all (products : list dict) : M (list dict) :=
  match products with
  | [] => ret []
  | p :: rest =>
      p' <- _enrich p ;;
      rest' <- enrich_all rest ;;
      ret (p' :: rest')
  end.

(** *** The relaxation loop *)

(** An entry of [iterations]. *)
Record attempt : Type := mkAttempt {
  attempt_no : nat;
  used_value_count : nat;
  dropped_value_count : nat;
  results : nat;
  used_values : list triple
}.

(** The variables of the loop when it breaks. *)
Record loop_exit : Type := mkExit {
  x_used : list triple;
  x_dropped : list triple;
  x_iterations : list attempt;
  x_products : list dict
}.

Definition contains_base (base_tokens_for_filter : list string)
    (subj_norm : string) : bool :=
  existsb (fun tok => negb (String.eqb tok "") && contains tok subj_norm)
          base_tokens_for_filter.

Definition is_mode (base_mode : option string) (m : string) : bool :=
  match base_mode with
  | Some b => String.eqb b m
  | None => false
  end.

(** The two filters applied to the normalized products of an attempt. *)
Definition hard_filter (original_mpn_norm : string) (products_norm : list dict)
  : list dict :=
  filter (fun p => negb (String.eqb (_norm_mpn (get "mpn" p)) original_mpn_norm))
         products_norm.

Definition base_filter (base_mode : option string)
    (base_tokens_for_filter : list string) (products_norm : list dict)
  : list dict :=
  if is_mode base_mode "exclude_base" then
    filter (fun p => negb (contains_base base_tokens_for_filter
                                         (_norm_mpn (get "mpn" p))))
           products_norm
  else if is_mode base_mode "only_base" then
    filter (fun p => contains_base base_tokens_for_filter
                                   (_norm_mpn (get "mpn" p)))
           products_norm
  else products_norm.

(** [used.pop()]: the list without its last element, and that element. *)
Fixpoint pop {A : Type} (l : list A) : option (list A * A) :=
  match l with
  | [] => None
  | x :: l' =>
      match pop l' with
      | None => Some ([], x)
      | Some (r, y) => Some (x :: r, y)
      end
  end.

(** The candidates of one attempt: parameter filters, then the keyword
    fallback when they give nothing. *)
Definition attempt_products (token base_keywords : string)
    (used : list triple) : M (list dict) :=
  raw <- _search_dk_with_filters token base_keywords used 50 ;;
  match _normalize_products_dk raw with
  | [] =>
      raw_kw <- _keyword_fallback token base_keywords used 50 ;;
      ret (_normalize_products_dk raw_kw)
  | products_norm => ret products_norm
  end.

(** [while True]: [fuel] bounds the number of attempts; [None] when it runs
    out before the loop breaks. *)
Fixpoint relax (fuel : nat) (token base_keywords : string)
    (require_results : bool) (base_mode : option string)
    (original_mpn_norm : string) (base_tokens_for_filter : list string)
    (used dropped : list triple) (iterations : list attempt)
  : M (option loop_exit) :=
  match fuel with
  | O => ret None
  | S fuel' =>
      products_norm <- attempt_products token base_keywords used ;;
      let products_norm := hard_filter original_mpn_norm products_norm in
      let products_norm :=
        base_filter base_mode base_tokens_for_filter products_norm in
      let iterations :=
        iterations ++
        [mkAttempt (List.length iterations + 1) (List.length used)
                   (List.length dropped) (List.length products_norm) used] in
      let stop := ret (Some (mkExit used dropped iterations products_norm)) in
      if negb (Nat.eqb (List.length products_norm) 0) || negb require_results
      then stop
      else
        match pop used with
        | None => stop
        | Some (used', t) =>
            _ <- sleep ;;
            relax fuel' token base_keywords require_results base_mode
                  original_mpn_norm base_tokens_for_filter
                  used' (dropped ++ [t]) iterations
        end
  end.

(** *** Public API *)

(** The dict returned with ["ok": True]. *)
Record report : Type := mkReport {
  iterations : list attempt;
  used_parameters : list triple;
  dropped_parameters : list triple;
  products : list dict;
  base : dict;
  note : option string;
  base_mode : option string;
  base_tokens : list string
}.

(** What a call of [find_replacements_for_mpn] gives: one of its two
    dicts, or the exception of the extractor, which it does not catch. *)
Inductive result : Type :=
| Failure (error : string)   (* {"ok": False, "error": error} *)
| Success (r : report)
| Raised.

Definition ok (r : result) : bool :=
  match r with
  | Success _ => true
  | Failure _ | Raised => false
  end.

(** Rows synthesized from the attribute map when no ranks came back. *)
Definition synthesized (attrs : pyval) : list pyval :=
  match attrs with
  | PDict kv =>
      map (fun '(k, v) =>
             PDict [ ("id", PStr ("attr:" ++ k)); ("name", PStr k);
                     ("value", PStr (pystr v)) ])
          kv
  | _ => []
  end.

(** [triples]: the ranked rows of the part, or the rows synthesized from its
    attributes, without the placeholders. *)
Definition usable_values (base : dict) : list triple :=
  let ranked := get "ranked_parameters" base ||| PList [] in
  let ranked :=
    if truthy ranked then ranked
    else PList (synthesized (get "attributes" base ||| PDict [])) in
  _values_from_ranked (elems ranked).

(** [[f"{t['name']} = {t['value']}" for t in used[:6]]]. *)
Definition match_reasons_of (used : list triple) : pyval :=
  PList (map (fun t => PStr (t_name t ++ " = " ++ t_value t)) (firstn 6 used)).

(** [p.setdefault("match_reasons", match_reasons)] on the first ten. *)
Definition with_match_reasons (used : list triple) (products_norm : list dict)
  : list dict :=
  let match_reasons := match_reasons_of used in
  map (setdefault "match_reasons" match_reasons) (firstn 10 products_norm) ++
  skipn 10 products_norm.

(** [(mpn or "").strip()]. *)
Definition clean_mpn (mpn : option string) : string :=
  strip (match mpn with Some s => s | None => "" end).

Definition find_replacements_for_mpn (fuel : nat) (mpn : option string)
    (require_results : bool) (base_mode : option string)
  : M (option result) :=
  let mpn := clean_mpn mpn in
  if String.eqb mpn "" then ret (Some (Failure "missing mpn"))
  else
    fetched_base <- _fetch_attrs_quiet mpn ;;
    match fetched_base with
    | None => ret (Some Raised)
    | Some base =>
        let triples := usable_values base in
        let base_keywords := _pick_base_keywords base in
        match triples with
        | [] =>
            ret (Some (Success
              (mkReport [] [] [] [] base
                 (Some "No usable parameter values available for filtering.")
                 base_mode (_base_tokens mpn))))
        | _ =>
            token <- get_token ;;
            match token with
            | Some tok =>
                if String.eqb tok "" then
                  ret (Some (Failure
                    "Digi-Key token not available; check DIGIKEY_* envs."))
                else
                  let original_mpn_norm := _norm_mpn (PStr mpn) in
                  let base_tokens_for_filter := _base_tokens mpn in
                  x <- relax fuel tok base_keywords require_results base_mode
                             original_mpn_norm base_tokens_for_filter
                             triples [] [] ;;
                  match x with
                  | None => ret None
                  | Some e =>
                      let products_norm :=
                        with_match_reasons (x_used e) (x_products e) in
                      products_norm <- enrich_all products_norm ;;
                      ret (Some (Success
                        (mkReport (x_iterations e) (x_used e) (x_dropped e)
                                  products_norm base None base_mode
                                  base_tokens_for_filter)))
                  end
            | None =>
                ret (Some (Failure
                  "Digi-Key token not available; check DIGIKEY_* envs."))
            end
        end
    end.

(** *** Notions used to state the properties *)

(** The attributes of the part as the search receives them from the
    extractor; the empty dict when the extractor raises twice and the search
    with it. *)
Definition base_of (mpn : option string) (st : state) : dict :=
  match fst (_fetch_attrs_quiet (clean_mpn mpn) st) with
  | Some b => b
  | None => []
  end.

(** The [used] lists of successive attempts that end with [used] and drop
    the elements of [removed], in that order, on the way. *)
Fixpoint chain (used removed : list triple) : list (list triple) :=
  match removed with
  | [] => [used]
  | t :: rest => (used ++ rev (t :: rest)) :: chain used rest
  end.

(** The search reached a terminal state: [FOUND] (candidates, or none
    required) or [EXHAUSTED] (nothing left to drop). *)
Definition terminal (require_results : bool) (r : report) : Prop :=
  products r <> [] \/ require_results = false \/ used_parameters r = [].

(** The trace holds no call to the catalog: no token fetch, no search. *)
Definition no_catalog_call (tr : list event) : Prop :=
  forall e, In e tr ->
    match e with
    | CallToken | CallSearch _ => False
    | _ => True
    end.

(** The cascade in the words of the specification: four tiers, strictest
    first. *)
Inductive tier : Type :=
| IdAndValueId        (* identifier + value identifier *)
| IdAndValueText      (* identifier + value text *)
| IdAndRawValue       (* identifier + raw value *)
| NameAndValueText.   (* parameter name + value text *)

Definition all_tiers : list tier :=
  [IdAndValueId; IdAndValueText; IdAndRawValue; NameAndValueText].

(** The ranked value supplies the fields that the tier requires. *)
Definition supplies (k : tier) (t : triple) : bool :=
  match k with
  | IdAndValueId => present (t_id t) && present (t_value_id t)
  | IdAndValueText | IdAndRawValue =>
      present (t_id t) && negb (String.eqb (t_value t) "")
  | NameAndValueText =>
      negb (String.eqb (t_name t) "") && negb (String.eqb (t_value t) "")
  end.

(** The filter that the tier makes of a ranked value. *)
Definition tier_filter (k : tier) (t : triple) : param_filter :=
  match k with
  | IdAndValueId => IdValueId (t_id t) (t_value_id t)
  | IdAndValueText => IdValueText (t_id t) (t_value t)
  | IdAndRawValue => IdValue (t_id t) (t_value t)
  | NameAndValueText => TextValueText (t_name t) (t_value t)
  end.

(** The payload of a tier: the base keywords, the record count and one
    filter per ranked value that supplies the fields, in rank order.  The
    raw-value tier sends them as [ParameterValueFilters], the other tiers as
    [Filters.ParameterFilters]. *)
Definition tier_payload (base_keywords : string) (triples : list triple)
    (record_count : Z) (k : tier) : body :=
  let fs := map (tier_filter k) (filter (supplies k) triples) in
  mkBody base_keywords record_count
         match k with
         | IdAndRawValue => ParameterValueFilters fs
         | _ => Filters_ParameterFilters fs
         end.

(** The payloads of the cascade: the tiers that some ranked value supplies,
    in the fixed order. *)
Definition cascade (base_keywords : string) (triples : list triple)
    (record_count : Z) : list body :=
  map (tier_payload base_keywords triples record_count)
      (filter (fun k => existsb (supplies k) triples) all_tiers).

(** The response to a request yields products: a JSON object with a
    non-empty list under ["Products"] or, when nothing is there, under
    ["products"]. *)
Inductive yields : option (option dict) -> list pyval -> Prop :=
| yields_Products j prods :
    get "Products" j = PList prods -> prods <> [] ->
    yields (Some (Some j)) prods
| yields_products j prods :
    truthy (get "Products" j) = false ->
    get "products" j = PList prods -> prods <> [] ->
    yields (Some (Some j)) prods.

Definition barren (resp : option (option dict)) : Prop :=
  forall prods, ~ yields resp prods.

(** Sending the requests in order from [st] stops at the first response
    that yields products, with these products; when none does, all were sent
    and the result is empty. *)
Inductive first_yield (hdrs : headers)
  : list body -> state -> list pyval -> state -> Prop :=
| first_none st : first_yield hdrs [] st [] st
| first_here b rest st resp prods st' :
    dk_request hdrs b st = (resp, st') -> yields resp prods ->
    first_yield hdrs (b :: rest) st prods st'
| first_later b rest st resp st1 prods st' :
    dk_request hdrs b st = (resp, st1) -> barren resp ->
    first_yield hdrs rest st1 prods st' ->
    first_yield hdrs (b :: rest) st prods st'.

(** The parameter list of a part: its ranked parameters or, when it has
    none, one row per attribute. *)
Definition parameter_list (base : dict) : list pyval :=
  match get "ranked_parameters" base with
  | PList (p :: rest) => p :: rest
  | _ => synthesized (get "attributes" base)
  end.

(** [str(p.get(k) or "")]. *)
Definition field_text (p : pyval) (k : string) : string :=
  pystr (pget p k ||| PStr "").

(** A row without a usable value, in the words of the specification: its
    value and its name are placeholders. *)
Definition placeholder_row (p : pyval) : bool :=
  _is_placeholder (Some (field_text p "value")) &&
  _is_placeholder (Some (field_text p "name")).


End Search.

(** Key [k] has the same presence and value in [p'] as in [p]. *)
Definition kept (k : string) (p p' : dict) : Prop :=
  get k p' = get k p /\ has_key k p' = has_key k p.

(** The keys that enrichment may write. *)
Definition enriched_keys : list string :=
  ["attributes"; "parameters"; "product_url"; "dk_part"; "mouser_part"].

(** A text made of whitespace only. *)
Fixpoint all_space (s : string) : bool :=
  match s with
  | EmptyString => true
  | String c s' => is_space c && all_space s'
  end.

(** The bodies of the search requests of a trace, in order. *)
Fixpoint searches (tr : list event) : list body :=
  match tr with
  | [] => []
  | CallSearch b :: tr' => b :: searches tr'
  | _ :: tr' => searches tr'
  end.

(** The part numbers sent to the attribute extractor, in order. *)
Fixpoint lookups (tr : list event) : list string :=
  match tr with
  | [] => []
  | CallAttributes m :: tr' => m :: lookups tr'
  | _ :: tr' => lookups tr'
  end.

(** The number of pacing delays and of token fetches of a trace. *)
Fixpoint pauses (tr : list event) : nat :=
  match tr with
  | [] => 0
  | Pause :: tr' => S (pauses tr')
  | _ :: tr' => pauses tr'
  end.

Fixpoint token_fetches (tr : list event) : nat :=
  match tr with
  | [] => 0
  | CallToken :: tr' => S (token_fetches tr')
  | _ :: tr' => token_fetches tr'
  end.

(** The calls that looking up the variants, in order, may make of the
    extractor: the first variants, each once, or twice when the first call
    for it raised. *)
Inductive retried : list string -> list string -> Prop :=
| retried_stop vs : retried vs []
| retried_once v vs ms : retried vs ms -> retried (v :: vs) (v :: ms)
| retried_twice v vs ms : retried vs ms -> retried (v :: vs) (v :: v :: ms).

(** A plain keyword request. *)
Definition keyword_body (record_count : Z) (kw : string) : body :=
  mkBody kw record_count NoFilters.

(** Upper-case letters and digits: the alphabet of a normalized part
    number. *)
Definition is_canonical (c : ascii) : bool := is_upper c || is_digit c.

(** The two canonical fan keywords. *)
Definition fan_keywords : list string := ["DC Fans"; "Fans"].

End ReplacementSearch.

(* ================================================================== *)
(** ** app.py *)
(* ================================================================== *)

Module App.
Import Py ReplacementSearch.

(** [s.split()]: the words between runs of whitespace; [cur] is the word
    being read. *)
Fixpoint words_from (cur : string) (s : string) : list string :=
  match s with
  | EmptyString => if String.eqb cur "" then [] else [cur]
  | String c s' =>
      if is_space c then
        if String.eqb cur "" then words_from "" s'
        else cur :: words_from "" s'
      else words_from (cur ++ String c EmptyString) s'
  end.

Definition split (s : string) : list string := words_from "" s.

(** [w.capitalize()]. *)
Definition capitalize (w : string) : string :=
  match w with
  | EmptyString => EmptyString
  | String c w' => String (upper_char c) (lower w')
  end.

Definition normalize_col (raw_key : string) : string :=
  let k := lower (strip raw_key) in
  let has frag := contains frag k in
  if has "size" || has "dimension" then "Size / Dimension"
  else if has "width" then "Width"
  else if has "height" || has "119mm h" then "Height"
  else if has "air" && (has "flow" || has "cfm") then "Air Flow"
  else if has "static" && has "pressure" then "Static Pressure"
  else if has "bearing" then "Bearing Type"
  else if has "fan" && has "type" then "Fan Type"
  else if has "feature" then "Features"
  else if has "noise" || has "db" then "Noise"
  else if (has "power" && has "w") || has "watts" then "Power (Watts)"
  else if has "rpm" then "RPM"
  else if has "termination" || has "lead" then "Termination"
  else if has "ingress" || has "ip " then "Ingress Protection"
  else if (has "operating" && has "temp") || has "temperature"
       then "Operating Temperature"
  else if (has "voltage" && has "rated") || (has "rated" && has "voltage")
       then "Voltage - Rated"
  else if has "approval" || String.eqb k "agency approvals"
       then "Approval Agency"
  else if has "weight" then "Weight"
  else if has "depth" || has "length" then "Depth"
  else join " " (map capitalize (split raw_key)).

(** A dict from column names to texts. *)
Definition columns : Type := list (string * string).

(** [out.setdefault(k, v)]. *)
Definition set_default (k v : string) (out : columns) : columns :=
  match lookup k out with
  | Some _ => out
  | None => store k v out
  end.

(** [v is None or v == ""]. *)
Definition blank (v : pyval) : bool :=
  match v with
  | PNone => true
  | PStr s => String.eqb s ""
  | _ => false
  end.

(** [s.replace("  ", " ")]: each pair of spaces, left to right. *)
Fixpoint replace2 (s : string) : string :=
  match s with
  | EmptyString => EmptyString
  | String c s1 =>
      match s1 with
      | String c2 s2 =>
          if Ascii.eqb c " " && Ascii.eqb c2 " " then String " " (replace2 s2)
          else String c (replace2 s1)
      | EmptyString => String c EmptyString
      end
  end.

Definition norm_val (s : string) : string := replace2 (lower (strip s)).

Fixpoint insert_key (k : string) (l : list string) : list string :=
  match l with
  | [] => [k]
  | x :: l' => if String.leb k x then k :: l else x :: insert_key k l'
  end.

(** [sorted(set(l))]. *)
Definition sorted_set (l : list string) : list string :=
  fold_right insert_key [] (set_of l).

(** A row of the comparison table. *)
Record table_row : Type := mkTableRow {
  param : string;
  v1 : string;
  v2 : string;
  matched : bool
}.

(** [a.get(k, "—")]. *)
Definition value_or_dash (a : columns) (k : string) : string :=
  match lookup k a with
  | Some v => v
  | None => "—"
  end.

Definition table_rows (a1 a2 : columns) : list table_row :=
  map (fun k =>
         let x1 := value_or_dash a1 k in
         let x2 := value_or_dash a2 k in
         mkTableRow k x1 x2
           (negb (String.eqb x1 "—") && negb (String.eqb x2 "—") &&
            String.eqb (norm_val x1) (norm_val x2)))
      (sorted_set (map fst a1 ++ map fst a2)).

Section View.

Context {C : Catalog}.

(** [str(v)], or the texts of a list joined by a comma. *)
Definition render (v : pyval) : string :=
  match v with
  | PList l => join ", " (map pystr l)
  | _ => pystr v
  end.

(** The loop of [to_map]. *)
Fixpoint fill (attrs : dict) (out : columns) : columns :=
  match attrs with
  | [] => out
  | (k, v) :: rest =>
      if blank v then fill rest out
      else fill rest (set_default (normalize_col k) (render v) out)
  end.

Definition to_map (attrs : pyval) : columns :=
  match attrs with
  | PDict d => fill d []
  | _ => []
  end.

(** [fetch_attributes_for_mpn(mpn) or {}]; [None] when the call raises. *)
Definition fetch_attributes (mpn : string) : M (option dict) :=
  fun st =>
    let (r, st') :=
      log (CallAttributes mpn) (fetch_attributes_for_mpn mpn (now st)) st in
    (match r with
     | Fetched (Some d) => Some d
     | Fetched None => Some []
     | FetchRaises => None
     end, st').

(** [result] of the view. *)
Record comparison : Type := mkComparison {
  cmp_mpn1 : string;
  cmp_mpn2 : string;
  cmp_rows : list table_row;
  cmp_url1 : pyval;
  cmp_url2 : pyval
}.

(** [data.get("product_url", "")]. *)
Definition url_of (data : dict) : pyval :=
  match lookup "product_url" data with
  | Some v => v
  | None => PStr ""
  end.

(** What the view is rendered from: the two part numbers and the
    comparison, if any. *)
Definition page : Type := string * string * option comparison.

(** The POST branch of [index]: the two part numbers as rendered back, and
    the comparison when both are given.  The view does not catch what the
    extractor raises: [None] is that exception. *)
Definition index_post (form_mpn1 form_mpn2 : option string)
  : M (option page) :=
  let mpn1 := clean_mpn form_mpn1 in
  let mpn2 := clean_mpn form_mpn2 in
  if negb (String.eqb mpn1 "") && negb (String.eqb mpn2 "") then
    bind (fetch_attributes mpn1) (fun fetched1 =>
    match fetched1 with
    | None => ret None
    | Some data1 =>
        bind (fetch_attributes mpn2) (fun fetched2 =>
        match fetched2 with
        | None => ret None
        | Some data2 =>
            let a1 := to_map (get "attributes" data1 ||| PDict []) in
            let a2 := to_map (get "attributes" data2 ||| PDict []) in
            ret (Some (mpn1, mpn2,
                       Some (mkComparison mpn1 mpn2 (table_rows a1 a2)
                                          (url_of data1) (url_of data2))))
        end)
    end)
  else ret (Some (mpn1, mpn2, None)).

End View.

(** The first attribute of [attrs] that has a value and whose column is
    [col]. *)
Definition first_for (col : string) (attrs : dict) : option (string * pyval) :=
  find (fun kv => negb (blank (snd kv)) &&
                  String.eqb (normalize_col (fst kv)) col)
       attrs.

End App.

(* ================================================================== *)
(** ** Concrete collaborators *)
(* ================================================================== *)

Module Scenarios.
Import Py.

(** A parameter row [{"id": i, "name": n, "value": v}]. *)
Definition param (i : Z) (n v : string) : dict :=
  [("id", PInt i); ("name", PStr n); ("value", PStr v)].

(** The parameters of the fan [4414F]. *)
Definition fan_params : list dict :=
  [param 1 "Voltage - Rated" "24VDC"; param 2 "Air Flow" "100 CFM"].

(** A parameter that carries no id. *)
Definition colour : dict := [("name", PStr "Color"); ("value", PStr "Red")].

(** No API key in the environment. *)
Definition no_key : RankParams.RankingOracle := {|
  RankParams.api_key := None;
  RankParams.responses_create := fun _ _ => None;
  RankParams.chat_create := fun _ _ => None;
  RankParams.json_loads := fun _ => None;
  RankParams.repr_container := fun _ => "?"
|}.

(** A key, and a model that cannot be reached. *)
Definition silent : RankParams.RankingOracle := {|
  RankParams.api_key := Some "sk-test";
  RankParams.responses_create := fun _ _ => None;
  RankParams.chat_create := fun _ _ => None;
  RankParams.json_loads := fun _ => None;
  RankParams.repr_container := fun _ => "?"
|}.

(** A model whose ranking lists bare ids where objects are expected. *)
Definition garbled : RankParams.RankingOracle := {|
  RankParams.api_key := Some "sk-test";
  RankParams.responses_create :=
    fun _ _ => Some (RankParams.mkReply (Some "{ranked: [2, 1]}") []);
  RankParams.chat_create := fun _ _ => None;
  RankParams.json_loads :=
    fun _ => Some (PDict [("ranked", PList [PInt 2; PInt 1])]);
  RankParams.repr_container := fun _ => "?"
|}.

(** A parameter whose value is a number, not a text. *)
Definition pin_count : dict :=
  [("id", PInt 7); ("name", PStr "Pin Count"); ("value", PInt 8)].

(** A model that returns an id that was never sent. *)
Definition inventive : RankParams.RankingOracle := {|
  RankParams.api_key := Some "sk-test";
  RankParams.responses_create :=
    fun _ _ => Some (RankParams.mkReply (Some "{ranked: [9]}") []);
  RankParams.chat_create := fun _ _ => None;
  RankParams.json_loads :=
    fun _ =>
      Some (PDict [("ranked",
                    PList [PDict [("id", PStr "9"); ("name", PStr "Weight")]])]);
  RankParams.repr_container := fun _ => "?"
|}.

(** A model that ranks [Air Flow] above [Voltage - Rated]. *)
Definition reorder : RankParams.RankingOracle := {|
  RankParams.api_key := Some "sk-test";
  RankParams.responses_create :=
    fun _ _ => Some (RankParams.mkReply (Some "{ranked: [2, 1]}") []);
  RankParams.chat_create := fun _ _ => None;
  RankParams.json_loads :=
    fun _ =>
      Some (PDict [("ranked",
                    PList [PDict [("id", PStr "2"); ("name", PStr "Air Flow")];
                           PDict [("id", PStr "1");
                                  ("name", PStr "Voltage - Rated")]])]);
  RankParams.repr_container := fun _ => "?"
|}.

(** A model that returns the first parameter under another name. *)
Definition renaming : RankParams.RankingOracle := {|
  RankParams.api_key := Some "sk-test";
  RankParams.responses_create :=
    fun _ _ => Some (RankParams.mkReply (Some "{ranked: [1, 2]}") []);
  RankParams.chat_create := fun _ _ => None;
  RankParams.json_loads :=
    fun _ =>
      Some (PDict [("ranked",
                    PList [PDict [("id", PStr "1"); ("name", PStr "Weight")];
                           PDict [("id", PStr "2");
                                  ("name", PStr "Air Flow")]])]);
  RankParams.repr_container := fun _ => "?"
|}.

(** A model that returns the first parameter twice. *)
Definition stutter : RankParams.RankingOracle := {|
  RankParams.api_key := Some "sk-test";
  RankParams.responses_create :=
    fun _ _ => Some (RankParams.mkReply (Some "{ranked: [1, 1]}") []);
  RankParams.chat_create := fun _ _ => None;
  RankParams.json_loads :=
    fun _ =>
      Some (PDict [("ranked",
                    PList [PDict [("id", PStr "1");
                                  ("name", PStr "Voltage - Rated")];
                           PDict [("id", PStr "1");
                                  ("name", PStr "Voltage - Rated")]])]);
  RankParams.repr_container := fun _ => "?"
|}.

(** The rated voltage given twice under one id, with two values. *)
Definition voltage_twice : list dict :=
  [param 1 "Voltage - Rated" "24VDC"; param 1 "Voltage - Rated" "12VDC"].

Import ReplacementSearch.

(** A raw catalog record that holds a part number only. *)
Definition raw_product (m : string) : pyval :=
  PDict [("ManufacturerPartNumber", PStr m)].

(** What the extractor knows of [4414F]. *)
Definition fan_attributes : dict :=
  [("category", PStr "DC Fans");
   ("ranked_parameters", PList (map PDict fan_params))].

(** A catalog that answers only to a single parameter filter, with the fan
    itself, a same-family part and an unrelated part. *)
Definition fan_catalog : Catalog := {|
  world := unit;
  headers := string;
  fetch_attributes_for_mpn :=
    fun m w =>
      (Fetched (if String.eqb m "4414F" then Some fan_attributes else None), w);
  _get_digikey_token := fun w => (Some "token", w);
  _dk_headers := fun t => t;
  _dk_request :=
    fun _ b w =>
      (match filters b with
       | Filters_ParameterFilters [_] =>
           Some (Some [("Products",
                        PList [raw_product "4414F"; raw_product "4414f-nd";
                               raw_product "AFB1212SH"])])
       | _ => None
       end, w);
  _normalize_dk := None;
  normalize_NFC := fun s => s;
  repr_container := fun _ => "?"
|}.


(** An extractor that knows nothing of any part. *)
Definition empty_catalog : Catalog := {|
  world := unit;
  headers := string;
  fetch_attributes_for_mpn := fun _ w => (Fetched None, w);
  _get_digikey_token := fun w => (Some "token", w);
  _dk_headers := fun t => t;
  _dk_request := fun _ _ w => (None, w);
  _normalize_dk := None;
  normalize_NFC := fun s => s;
  repr_container := fun _ => "?"
|}.

(** What an extractor says of a part whose sheet holds placeholders only. *)
Definition hollow_attributes : dict :=
  [("category", PStr "DC Fans");
   ("ranked_parameters",
    PList [PDict [("id", PInt 1); ("name", PStr "N/A"); ("value", PStr " - ")];
           PDict [("id", PInt 2); ("name", PStr ""); ("value", PNone)]])].

(** An extractor that raises when first called and answers [attrs] from then
    on (the world records that it has raised), in front of the fan catalog
    with the given token. *)
Definition flaky_catalog (attrs : dict) (token : option string) : Catalog := {|
  world := bool;
  headers := string;
  fetch_attributes_for_mpn :=
    fun _ raised =>
      if raised then (Fetched (Some attrs), true) else (FetchRaises, true);
  _get_digikey_token := fun w => (token, w);
  _dk_headers := fun t => t;
  _dk_request :=
    fun _ b w =>
      (match filters b with
       | Filters_ParameterFilters [_] =>
           Some (Some [("Products",
                        PList [raw_product "4414F"; raw_product "4414f-nd";
                               raw_product "AFB1212SH"])])
       | _ => None
       end, w);
  _normalize_dk := None;
  normalize_NFC := fun s => s;
  repr_container := fun _ => "?"
|}.

(** An extractor that always raises. *)
Definition broken_catalog : Catalog := {|
  world := unit;
  headers := string;
  fetch_attributes_for_mpn := fun _ w => (FetchRaises, w);
  _get_digikey_token := fun w => (Some "token", w);
  _dk_headers := fun t => t;
  _dk_request := fun _ _ w => (None, w);
  _normalize_dk := None;
  normalize_NFC := fun s => s;
  repr_container := fun _ => "?"
|}.

(** The state before a search: nothing called yet. *)
Definition fresh (C : Catalog) (w : world) : state := mkState w [].

(** The same-family candidate, as the fallback normalizer renders it. *)
Definition same_family : dict :=
  @_brief_fallback fan_catalog (raw_product "4414f-nd").

(** A candidate without a usable part number, and one that has its link. *)
Definition nameless : dict :=
  [("mpn", PStr "  "); ("manufacturer", PStr "ACME")].

Definition linked : dict :=
  [("mpn", PStr "4414F"); ("product_url", PStr "https://example.test/4414F")].

(** The unrelated candidate, as the fallback normalizer renders it. *)
Definition unrelated : dict :=
  @_brief_fallback fan_catalog (raw_product "AFB1212SH").

End Scenarios.

(* ================================================================== *)
(** ** Facts on dicts *)
(* ================================================================== *)

Module PyFacts.
Import Py.

Lemma lookup_store_other {A} (k k' : string) (v : A) d :
  k <> k' -> lookup k (store k' v d) = lookup k d.
Proof.
  intros Hk. induction d as [|[k0 v0] d IH]; simpl.
  - destruct (String.eqb_spec k k'); congruence.
  - destruct (String.eqb_spec k' k0) as [->|Hne]; simpl.
    + destruct (String.eqb_spec k k0); congruence.
    + destruct (String.eqb_spec k k0); auto.
Qed.

Lemma get_set_other k k' v d : k <> k' -> get k (set k' v d) = get k d.
Proof. intros H. unfold get, set. now rewrite lookup_store_other. Qed.

Lemma has_key_set_other k k' v d :
  k <> k' -> has_key k (set k' v d) = has_key k d.
Proof.
  intros Hk. unfold set. induction d as [|[k0 v0] d IH]; simpl.
  - destruct (String.eqb_spec k k'); simpl; congruence.
  - destruct (String.eqb_spec k' k0) as [->|Hne]; simpl; auto.
    now rewrite IH.
Qed.

Lemma has_key_set k v d : has_key k (set k v d) = true.
Proof.
  unfold set. induction d as [|[k0 v0] d IH]; simpl.
  - now rewrite String.eqb_refl.
  - destruct (String.eqb_spec k k0) as [->|Hne]; simpl.
    + now rewrite String.eqb_refl.
    + rewrite IH. apply orb_true_r.
Qed.



Lemma lookup_store_same {A} (k : string) (v : A) d :
  lookup k (store k v d) = Some v.
Proof.
  induction d as [|[k0 v0] d IH]; simpl.
  - now rewrite String.eqb_refl.
  - destruct (String.eqb_spec k k0) as [->|Hne]; simpl.
    + now rewrite String.eqb_refl.
    + destruct (String.eqb_spec k k0); [contradiction|]. exact IH.
Qed.

End PyFacts.

(* ================================================================== *)
(** ** Properties of the replacement search *)
(* ================================================================== *)

Module SearchFacts.
Import Py PyFacts ReplacementSearch.

(** *** Text *)

Lemma space_not_alnum c : is_space c = true -> is_alnum (upper_char c) = false.
Proof.
  destruct c as [[] [] [] [] [] [] [] []]; vm_compute; congruence.
Qed.

Lemma squash_lstrip s :
  sfilter is_alnum (upper (lstrip s)) = sfilter is_alnum (upper s).
Proof.
  unfold upper. induction s as [|c s IH]; [reflexivity|].
  cbn [lstrip]. destruct (is_space c) eqn:E; [|reflexivity].
  rewrite IH. cbn [smap sfilter]. now rewrite (space_not_alnum c E).
Qed.

Lemma squash_rstrip s :
  sfilter is_alnum (upper (rstrip s)) = sfilter is_alnum (upper s).
Proof.
  unfold upper. induction s as [|c s IH]; [reflexivity|].
  cbn [rstrip]. destruct (rstrip s) as [|c' r] eqn:Er.
  - cbn [smap sfilter] in *. rewrite <- IH.
    destruct (is_space c) eqn:E; cbn [smap sfilter]; [|reflexivity].
    now rewrite (space_not_alnum c E).
  - remember (String c' r) as t. cbn [smap sfilter]. now rewrite IH.
Qed.

(** Stripping a part number does not change its normal form. *)
Lemma norm_strip s : _norm_mpn (PStr (strip s)) = _norm_mpn (PStr s).
Proof.
  unfold _norm_mpn, strip. cbn [text_or_empty].
  now rewrite squash_rstrip, squash_lstrip.
Qed.

Lemma lstrip_all_space s : all_space s = true -> lstrip s = "".
Proof.
  induction s as [|c s IH]; simpl; auto.
  intros H. apply andb_true_iff in H as [H1 H2]. now rewrite H1, IH.
Qed.

Lemma strip_all_space s : all_space s = true -> strip s = "".
Proof. intros H. unfold strip. now rewrite lstrip_all_space. Qed.

Lemma lstrip_no_lead s : no_lead (lstrip s).
Proof.
  induction s as [|c s IH]; cbn; auto. destruct (is_space c) eqn:E; cbn; auto.
Qed.

Lemma rstrip_no_lead t : no_lead t -> no_lead (rstrip t).
Proof.
  destruct t as [|c t]; cbn; auto. intros H. rewrite H.
  destruct (rstrip t); exact H.
Qed.

Lemma lstrip_fixed t : no_lead t -> lstrip t = t.
Proof. destruct t as [|c t]; cbn; auto. now intros ->. Qed.

Lemma rstrip_idem t : rstrip (rstrip t) = rstrip t.
Proof.
  induction t as [|c t IH]; [reflexivity|]. cbn [rstrip].
  destruct (rstrip t) as [|d r] eqn:E.
  - destruct (is_space c) eqn:Ec; [reflexivity|]. cbn. now rewrite Ec.
  - cbn [rstrip] in *. now rewrite IH.
Qed.

(** Stripping twice is stripping once. *)
Lemma strip_idem s : strip (strip s) = strip s.
Proof.
  unfold strip.
  rewrite (lstrip_fixed _ (rstrip_no_lead _ (lstrip_no_lead s))).
  apply rstrip_idem.
Qed.

Lemma prefix_append n h :
  String.prefix n h = true <-> exists b, h = (n ++ b)%string.
Proof.
  revert h. induction n as [|c n IH]; intros h.
  - split; [intros _; now exists h|]. now destruct h.
  - destruct h as [|d h]; cbn.
    + split; [discriminate | intros (b & Hb); discriminate].
    + destruct (Ascii.ascii_dec c d) as [->|Hne].
      * rewrite IH. split; intros (b & Hb); exists b.
        -- now rewrite Hb.
        -- now inversion Hb.
      * split; [discriminate|]. intros (b & Hb). inversion Hb. congruence.
Qed.

(** [contains] is the substring test. *)
Lemma contains_substring n h :
  contains n h = true <-> exists a b, h = (a ++ n ++ b)%string.
Proof.
  induction h as [|d h IH]; cbn [contains].
  - rewrite orb_false_r, prefix_append. split.
    + intros (b & Hb). now exists "", b.
    + intros (a & b & Hab). destruct a as [|? ?]; [|discriminate].
      now exists b.
  - rewrite orb_true_iff, prefix_append, IH. split.
    + intros [(b & Hb)|(a & b & Hab)].
      * now exists "", b.
      * exists (String d a), b. cbn. now rewrite Hab.
    + intros (a & b & Hab). destruct a as [|c a].
      * left. now exists b.
      * right. exists a, b. now inversion Hab.
Qed.

(** *** Base tokens *)

Lemma In_insert_token t x l : In x (insert_token t l) -> x = t \/ In x l.
Proof.
  induction l as [|y l IH]; simpl.
  - intros [->|[]]; auto.
  - destruct (token_le t y); simpl.
    + intros [->|H]; auto.
    + intros [->|H]; auto. destruct (IH H); auto.
Qed.

Lemma In_sorted_tokens x l : In x (sorted_tokens l) -> In x l.
Proof.
  unfold sorted_tokens. induction l as [|y l IH]; simpl; auto.
  intros H. apply In_insert_token in H as [->|H]; auto.
Qed.

Lemma In_set_of x l : In x (set_of l) -> In x l.
Proof.
  induction l as [|y l IH]; simpl; auto.
  destruct (mem y l); simpl; intuition.
Qed.

(** Every base token is a run of at least three characters. *)
Lemma base_token_length mpn t :
  In t (_base_tokens mpn) -> 3 <= String.length t.
Proof.
  unfold _base_tokens. intros H. apply In_sorted_tokens in H.
  assert (Hin : In t (findall_digits3 (_norm_mpn (PStr mpn))) \/
                match_digits3 (_norm_mpn (PStr mpn)) = Some t).
  { destruct (match_digits3 _) as [m|]; apply In_set_of in H; auto.
    apply in_app_or in H as [H|[->|[]]]; auto. }
  destruct Hin as [Hin|Hm].
  - unfold findall_digits3 in Hin. apply filter_In in Hin as [_ Hl].
    now apply Nat.leb_le in Hl.
  - unfold match_digits3 in Hm.
    destruct (Nat.leb 3 _) eqn:E; inversion Hm; subst.
    now apply Nat.leb_le in E.
Qed.

Lemma base_token_nonempty mpn t : In t (_base_tokens mpn) -> t <> "".
Proof.
  intros H E. apply base_token_length in H. subst. simpl in H. lia.
Qed.

(** *** Lists related position by position *)

Lemma Forall2_nth_error_r {A B} (R : A -> B -> Prop) l l' i y :
  Forall2 R l l' -> nth_error l' i = Some y ->
  exists x, nth_error l i = Some x /\ R x y.
Proof.
  intros H. revert i. induction H as [|a b l l' Hab H IH]; intros i Hi.
  - destruct i; discriminate.
  - destruct i as [|i]; cbn in *.
    + inversion Hi; subst. eauto.
    + now apply IH.
Qed.


(** *** [pop] *)

Lemma pop_some {A} (l r : list A) y : pop l = Some (r, y) -> l = r ++ [y].
Proof.
  revert r y. induction l as [|x l IH]; simpl; intros r y H; [discriminate|].
  destruct (pop l) as [[r' y']|] eqn:E.
  - inversion H; subst. simpl. f_equal. now apply IH.
  - inversion H; subst. destruct l as [|z l]; [reflexivity|].
    simpl in E. destruct (pop l) as [[? ?]|]; discriminate.
Qed.

Lemma pop_none {A} (l : list A) : pop l = None -> l = [].
Proof.
  destruct l as [|x l]; simpl; auto.
  destruct (pop l) as [[? ?]|]; discriminate.
Qed.

(** *** The relaxation loop *)

Section Loop.

Context {C : Catalog}.
Variables (tok kw : string) (rr : bool) (mode : option string).
Variables (orig : string) (toks : list string).

(** What holds of the loop variables whenever the loop breaks. *)
Lemma relax_sound fuel :
  forall used dropped its st e st',
    relax fuel tok kw rr mode orig toks used dropped its st = (Some e, st') ->
    exists removed news found st1 st2,
      used = x_used e ++ rev removed /\
      x_dropped e = dropped ++ removed /\
      x_iterations e = its ++ news /\
      map used_values news = chain (x_used e) removed /\
      attempt_products tok kw (x_used e) st1 = (found, st2) /\
      x_products e = base_filter mode toks (hard_filter orig found) /\
      (x_products e <> [] \/ rr = false \/ x_used e = []).
Proof.
  induction fuel as [|fuel IH]; intros used dropped its st e st' H.
  - discriminate.
  - cbn [relax] in H. unfold bind in H.
    destruct (attempt_products tok kw used st) as [found st1] eqn:Ea.
    set (ps := base_filter mode toks (hard_filter orig found)) in *.
    set (a := mkAttempt _ _ _ _ _) in H.
    assert (Hstop :
      forall st2, ret (Some (mkExit used dropped (its ++ [a]) ps)) st1
                  = (Some e, st2) ->
                  (ps <> [] \/ rr = false \/ used = []) ->
      exists removed news found st1 st2,
        used = x_used e ++ rev removed /\
        x_dropped e = dropped ++ removed /\
        x_iterations e = its ++ news /\
        map used_values news = chain (x_used e) removed /\
        attempt_products tok kw (x_used e) st1 = (found, st2) /\
        x_products e = base_filter mode toks (hard_filter orig found) /\
        (x_products e <> [] \/ rr = false \/ x_used e = [])).
    { intros st2 Hr Ht. unfold ret in Hr. inversion Hr; subst e; cbn.
      exists [], [a], found, st, st1. cbn.
      rewrite !app_nil_r. repeat split; auto. }
    destruct (negb (Nat.eqb (List.length ps) 0) || negb rr) eqn:Eb.
    + apply (Hstop _ H). apply orb_true_iff in Eb as [Eb|Eb].
      * left. intros Eps. rewrite Eps in Eb. discriminate.
      * right; left. now destruct rr.
    + destruct (pop used) as [[used' t]|] eqn:Ep.
      * unfold sleep in H.
        apply IH in H
          as (removed & news & found' & s1 & s2 & Hu & Hd & Hi & Hc & Ha & Hp & Ht).
        exists (t :: removed), (a :: news), found', s1, s2.
        apply pop_some in Ep. repeat split; auto.
        -- rewrite Ep, Hu. cbn [rev]. now rewrite app_assoc.
        -- rewrite Hd. now rewrite <- app_assoc.
        -- rewrite Hi. now rewrite <- app_assoc.
        -- cbn [map chain]. f_equal; auto.
           subst a. cbn [used_values]. rewrite Ep, Hu. cbn [rev].
           now rewrite app_assoc.
      * apply (Hstop _ H). right; right. now apply pop_none.
Qed.

(** The loop breaks within [length used + 1] attempts. *)
Lemma relax_total fuel :
  forall used dropped its st,
    List.length used < fuel ->
    exists e st',
      relax fuel tok kw rr mode orig toks used dropped its st = (Some e, st') /\
      List.length (x_iterations e) <= List.length its + List.length used + 1.
Proof.
  induction fuel as [|fuel IH]; intros used dropped its st Hf; [lia|].
  cbn [relax]. unfold bind.
  destruct (attempt_products tok kw used st) as [found st1].
  set (ps := base_filter mode toks (hard_filter orig found)).
  set (a := mkAttempt _ _ _ _ _).
  assert (Hstop :
    exists e st',
      ret (Some (mkExit used dropped (its ++ [a]) ps)) st1 = (Some e, st') /\
      List.length (x_iterations e) <= List.length its + List.length used + 1).
  { eexists; eexists; split; [reflexivity|]. cbn.
    rewrite length_app. cbn. lia. }
  destruct (negb (Nat.eqb (List.length ps) 0) || negb rr); auto.
  destruct (pop used) as [[used' t]|] eqn:Ep; auto.
  apply pop_some in Ep. unfold sleep.
  assert (Hl : List.length used = S (List.length used')).
  { rewrite Ep, length_app. cbn. lia. }
  destruct (IH used' (dropped ++ [t]) (its ++ [a])
               (mkState (now st1) (trace st1 ++ [Pause])))
    as (e & st' & He & Hlen); [lia|].
  exists e, st'. split; auto.
  rewrite length_app in Hlen. cbn in Hlen. lia.
Qed.

(** More fuel does not change the outcome of a loop that breaks. *)
Lemma relax_fuel_mono fuel :
  forall fuel' used dropped its st e st',
    relax fuel tok kw rr mode orig toks used dropped its st = (Some e, st') ->
    fuel <= fuel' ->
    relax fuel' tok kw rr mode orig toks used dropped its st = (Some e, st').
Proof.
  induction fuel as [|fuel IH]; intros fuel' used dropped its st e st' H Hle.
  - discriminate.
  - destruct fuel' as [|fuel']; [lia|].
    cbn [relax] in *. unfold bind in *.
    destruct (attempt_products tok kw used st) as [found st1].
    destruct (negb _ || negb rr); auto.
    destruct (pop used) as [[used' t]|]; auto.
    apply IH; auto. lia.
Qed.

End Loop.

(** *** Chains *)

Lemma chain_length used removed :
  List.length (chain used removed) = S (List.length removed).
Proof. induction removed as [|t r IH]; cbn; auto. Qed.

Lemma chain_nth used removed i :
  i <= List.length removed ->
  nth_error (chain used removed) i = Some (used ++ rev (skipn i removed)).
Proof.
  revert i. induction removed as [|t r IH]; intros i Hi.
  - cbn in Hi. assert (i = 0) by lia. subst. cbn. now rewrite app_nil_r.
  - destruct i as [|i]; [reflexivity|].
    cbn [chain nth_error skipn]. apply IH. cbn in Hi. lia.
Qed.

(** *** Match reasons and enrichment leave the part number alone *)

Lemma kept_refl k p : kept k p p.
Proof. split; reflexivity. Qed.

Lemma kept_trans k p q r : kept k p q -> kept k q r -> kept k p r.
Proof. intros [A B] [A' B']. split; congruence. Qed.

Lemma kept_set k k' v p : k <> k' -> kept k p (set k' v p).
Proof.
  intros H. split; [now apply get_set_other | now apply has_key_set_other].
Qed.

Lemma kept_setdefault k k' v p : k <> k' -> kept k p (setdefault k' v p).
Proof.
  intros H. unfold setdefault.
  destruct (has_key k' p); [apply kept_refl | now apply kept_set].
Qed.

Lemma kept_backfill k k' add p : k <> k' -> kept k p (backfill k' add p).
Proof.
  intros H. unfold backfill.
  destruct (truthy _ && negb _); [now apply kept_set | apply kept_refl].
Qed.

Section Enrichment.

Context {C : Catalog}.

Lemma kept_attach k add p : ~ In k enriched_keys -> kept k p (attach add p).
Proof.
  intros Hk. unfold enriched_keys in Hk. cbn in Hk. unfold attach.
  repeat (eapply kept_trans; [|apply kept_backfill; intuition]).
  eapply kept_trans.
  - instantiate (1 := match get "attributes" add with
                      | PDict (kv :: attrs) =>
                          set "attributes" (PDict (kv :: attrs)) p
                      | _ => p
                      end).
    destruct (get "attributes" add) as [| | | | | |[|kv attrs]];
      try apply kept_refl.
    apply kept_set. intuition.
  - destruct (truthy _); [apply kept_set; intuition | apply kept_refl].
Qed.

Lemma kept_enrich k p st p' st' :
  ~ In k enriched_keys -> _enrich p st = (p', st') -> kept k p p'.
Proof.
  intros Hk H. unfold _enrich in H.
  destruct (get "mpn" p ||| PStr "") as [| | | |raw| |];
    try (inversion H; subst; apply kept_refl).
  destruct (String.eqb _ ""); [inversion H; subst; apply kept_refl|].
  unfold bind, ret in H.
  destruct (lookup_variants _ _ st) as [[add|] st1]; inversion H; subst.
  - now apply kept_attach.
  - apply kept_refl.
Qed.

Lemma kept_enrich_all k ps :
  ~ In k enriched_keys ->
  forall st ps' st', enrich_all ps st = (ps', st') -> Forall2 (kept k) ps ps'.
Proof.
  intros Hk. induction ps as [|p ps IH]; intros st ps' st' H.
  - inversion H; subst. constructor.
  - cbn [enrich_all] in H. unfold bind, ret in H.
    destruct (_enrich p st) as [p1 st1] eqn:E1.
    destruct (enrich_all ps st1) as [ps1 st2] eqn:E2.
    inversion H; subst. constructor; eauto using kept_enrich.
Qed.

(** Attaching match reasons changes no other key, position by position. *)
Lemma kept_with_match_reasons k used ps :
  k <> "match_reasons" -> Forall2 (kept k) ps (with_match_reasons used ps).
Proof.
  intros Hk. unfold with_match_reasons.
  rewrite <- (firstn_skipn 10 ps) at 1.
  apply Forall2_app.
  - induction (firstn 10 ps); constructor; auto.
    now apply kept_setdefault.
  - induction (skipn 10 ps); constructor; auto. apply kept_refl.
Qed.

(** The anatomy of a successful search. *)
Lemma find_success fuel mpn rr mode st r st' :
  find_replacements_for_mpn fuel mpn rr mode st = (Some (Success r), st') ->
  let m := clean_mpn mpn in
  let b := base_of mpn st in
  let st1 := snd (_fetch_attrs_quiet m st) in
  m <> "" /\ fst (_fetch_attrs_quiet m st) = Some b /\
  ((usable_values b = [] /\ st' = st1 /\
    r = mkReport [] [] [] [] b
          (Some "No usable parameter values available for filtering.")
          mode (_base_tokens m))
   \/
   (usable_values b <> [] /\
    exists tok st2 e st3,
      relax fuel tok (_pick_base_keywords b) rr mode (_norm_mpn (PStr m))
            (_base_tokens m) (usable_values b) [] [] st2 = (Some e, st3) /\
      enrich_all (with_match_reasons (x_used e) (x_products e)) st3
        = (products r, st') /\
      iterations r = x_iterations e /\
      used_parameters r = x_used e /\
      dropped_parameters r = x_dropped e)).
Proof.
  intros H m b st1. subst m b st1. unfold find_replacements_for_mpn in H.
  destruct (String.eqb_spec (clean_mpn mpn) "") as [E|E].
  { inversion H. }
  split; auto. unfold bind in H. unfold base_of.
  destruct (_fetch_attrs_quiet (clean_mpn mpn) st) as [[b|] st1];
    [|inversion H].
  cbn [fst snd]. split; [reflexivity|].
  destruct (usable_values b) as [|t ts] eqn:Eu.
  - left. inversion H; subst. auto.
  - right. split; [discriminate|].
    destruct (get_token st1) as [[tk|] st2]; [|inversion H].
    destruct (String.eqb tk ""); [inversion H|].
    destruct (relax fuel tk _ rr mode _ _ _ [] [] st2) as [[e|] st3] eqn:Er;
      [|inversion H].
    unfold ret in H.
    destruct (enrich_all _ st3) as [ps st4] eqn:Ee.
    inversion H; subst. cbn.
    exists tk, st2, e, st3. auto.
Qed.

End Enrichment.

(** *** The search as a whole *)

Section Properties.

Context {C : Catalog}.

Lemma Forall2_kept_length k (ps ps' : list dict) :
  Forall2 (kept k) ps ps' -> List.length ps' = List.length ps.
Proof. intros H. symmetry. eapply Forall2_length; eauto. Qed.

Lemma base_filter_incl mode toks (ps : list dict) c :
  In c (base_filter mode toks ps) -> In c ps.
Proof.
  unfold base_filter.
  destruct (is_mode mode "exclude_base");
    [|destruct (is_mode mode "only_base")]; auto;
    intros H; now apply filter_In in H.
Qed.

(** The part number of a returned candidate is the part number of a
    candidate that passed the filters of the final attempt. *)
Lemma returned_mpn used cands st ps st' p :
  enrich_all (with_match_reasons used cands) st = (ps, st') ->
  In p ps ->
  exists c, In c cands /\ get "mpn" p = get "mpn" c.
Proof.
  intros He Hin.
  assert (Hk : ~ In "mpn" enriched_keys).
  { cbn. intuition discriminate. }
  pose proof (kept_enrich_all "mpn" _ Hk _ _ _ He) as H2.
  assert (H1 : Forall2 (kept "mpn") cands (with_match_reasons used cands)).
  { apply kept_with_match_reasons. discriminate. }
  apply In_nth_error in Hin as [i Hi].
  destruct (Forall2_nth_error_r _ _ _ _ _ H2 Hi) as (q & Hq & [Hqp _]).
  destruct (Forall2_nth_error_r _ _ _ _ _ H1 Hq) as (c & Hc & [Hcq _]).
  exists c. split; [eapply nth_error_In; eauto | congruence].
Qed.

(** C1. Self-exclusion: whatever the family mode, no returned candidate has
    the normalized part number of the original part. *)
Theorem self_exclusion fuel (mpn : string) rr mode st r st' :
  find_replacements_for_mpn fuel (Some mpn) rr mode st
    = (Some (Success r), st') ->
  forall p, In p (products r) ->
    _norm_mpn (get "mpn" p) <> _norm_mpn (PStr mpn).
Proof.
  intros H p Hin. apply find_success in H as [_ [_ [(_ & _ & ->)|(_ & H)]]].
  - destruct Hin.
  - destruct H as (tok & st2 & e & st3 & Hr & He & _).
    destruct (returned_mpn _ _ _ _ _ _ He Hin) as (c & Hc & ->).
    apply relax_sound in Hr
      as (_ & _ & found & _ & _ & _ & _ & _ & _ & _ & Hp & _).
    rewrite Hp in Hc. apply base_filter_incl in Hc.
    apply filter_In in Hc as [_ Hh]. apply negb_true_iff in Hh.
    apply String.eqb_neq in Hh. unfold clean_mpn in Hh.
    now rewrite norm_strip in Hh.
Qed.

(** C2. Termination: with [N >= 1] usable parameters the search returns
    within [N + 1] attempts (any fuel of at least [N + 1] is enough); when
    the token is there the result is a report whose [iterations] has
    between 1 and [N + 1] entries and whose state is terminal. The
    extractor has answered, so nothing is raised. *)
Theorem relaxation_terminates fuel mpn rr mode st :
  let m := clean_mpn mpn in
  let b := base_of mpn st in
  let st1 := snd (_fetch_attrs_quiet m st) in
  let N := List.length (usable_values b) in
  m <> "" -> 1 <= N -> N + 1 <= fuel ->
  exists res st',
    find_replacements_for_mpn fuel mpn rr mode st = (Some res, st') /\
    match res with
    | Success r =>
        1 <= List.length (iterations r) <= N + 1 /\ terminal rr r
    | Failure _ => present (fst (get_token st1)) = false
    | Raised => False
    end.
Proof.
  intros m b st1 N Hm HN Hf. subst m b st1 N.
  unfold find_replacements_for_mpn, base_of in *.
  destruct (String.eqb_spec (clean_mpn mpn) "") as [E|_]; [contradiction|].
  unfold bind.
  destruct (_fetch_attrs_quiet (clean_mpn mpn) st) as [[b|] st1];
    cbn [fst snd] in *; [|cbn in HN; lia].
  destruct (usable_values b) as [|t ts] eqn:Eu; [cbn in HN; lia|].
  destruct (get_token st1) as [[tk|] st2]; cbn [fst];
    [|eexists; eexists; split; [reflexivity|reflexivity]].
  destruct (String.eqb_spec tk "") as [->|Htk].
  { eexists; eexists; split; [reflexivity|reflexivity]. }
  destruct (relax_total tk (_pick_base_keywords b) rr mode
              (_norm_mpn (PStr (clean_mpn mpn)))
              (_base_tokens (clean_mpn mpn)) fuel (t :: ts) [] [] st2)
    as (e & st3 & Hr & Hlen); [lia|].
  rewrite Hr. unfold ret.
  destruct (enrich_all _ st3) as [ps st4] eqn:He.
  eexists; eexists; split; [reflexivity|]. cbn [iterations].
  apply relax_sound in Hr
    as (removed & news & found & s1 & s2 & Hu & Hd & Hi & Hc & Ha & Hp & Ht).
  split.
  - split; [|cbn [List.length] in *; lia].
    rewrite Hi. cbn [app]. rewrite <- (length_map used_values), Hc.
    rewrite chain_length. lia.
  - unfold terminal. cbn [products used_parameters].
    destruct Ht as [Ht|[Ht|Ht]]; auto.
    left. intros Eps. apply Ht.
    assert (Hk : ~ In "mpn" enriched_keys) by (cbn; intuition discriminate).
    pose proof (Forall2_kept_length _ _ _
                  (kept_enrich_all "mpn" _ Hk _ _ _ He)) as L2.
    pose proof (Forall2_kept_length _ _ _
                  (kept_with_match_reasons "mpn" (x_used e) (x_products e)
                     ltac:(discriminate))) as L1.
    rewrite Eps in L2. cbn in L2.
    destruct (x_products e); [reflexivity|]. cbn in L1, L2. lia.
Qed.

Lemma skipn_nth_error {A} (l : list A) i t :
  nth_error l i = Some t -> skipn i l = t :: skipn (S i) l.
Proof.
  revert i. induction l as [|x l IH]; intros [|i] H; try discriminate.
  - inversion H; subst. reflexivity.
  - cbn [skipn]. now apply IH.
Qed.

(** C3. Monotonic relaxation: the attempt of rank [i] used the final [used]
    list followed by the parameters dropped from rank [i] on, in ranking
    order; so each attempt uses the list of the previous one without its
    last element, which is the next entry of [dropped_parameters], and
    [used_parameters] followed by the reverse of [dropped_parameters] is
    the initial ranked list. *)
Theorem monotonic_relaxation fuel mpn rr mode st r st' :
  find_replacements_for_mpn fuel mpn rr mode st = (Some (Success r), st') ->
  let triples := usable_values (base_of mpn st) in
  used_parameters r ++ rev (dropped_parameters r) = triples /\
  (triples <> [] ->
   List.length (iterations r) = S (List.length (dropped_parameters r))) /\
  (forall i a, nth_error (iterations r) i = Some a ->
     used_values a
     = used_parameters r ++ rev (skipn i (dropped_parameters r))) /\
  (forall i a b,
     nth_error (iterations r) i = Some a ->
     nth_error (iterations r) (S i) = Some b ->
     exists t, nth_error (dropped_parameters r) i = Some t /\
               used_values a = used_values b ++ [t]).
Proof.
  intros H triples. subst triples.
  apply find_success in H as [_ [_ [(Hu & _ & ->)|(Hne & H)]]].
  - rewrite Hu. cbn. repeat split; auto; try congruence;
      intros [|i]; intros; discriminate.
  - destruct H as (tok & st2 & e & st3 & Hr & _ & -> & -> & ->).
    apply relax_sound in Hr
      as (removed & news & _ & _ & _ & Hu & Hd & Hi & Hc & _).
    cbn [app] in Hd, Hi. rewrite Hd, Hi.
    assert (Hlen : List.length news = S (List.length removed)).
    { now rewrite <- (length_map used_values), Hc, chain_length. }
    assert (Hnth : forall i a, nth_error news i = Some a ->
              used_values a = x_used e ++ rev (skipn i removed)).
    { intros i a Ha.
      assert (Hi' : i < List.length news).
      { apply nth_error_Some. congruence. }
      pose proof (map_nth_error used_values _ _ Ha) as Hm.
      rewrite Hc, chain_nth in Hm by lia. congruence. }
    repeat split; auto.
    intros i a b Ha Hb.
    assert (Hi' : S i < List.length news).
    { apply nth_error_Some. congruence. }
    destruct (nth_error removed i) as [t|] eqn:Et.
    2:{ apply nth_error_None in Et. lia. }
    exists t. split; auto.
    rewrite (Hnth _ _ Ha), (Hnth _ _ Hb), (skipn_nth_error _ _ _ Et).
    cbn [rev]. now rewrite app_assoc.
Qed.

Lemma base_tokens_strip s : _base_tokens (strip s) = _base_tokens s.
Proof. unfold _base_tokens. now rewrite norm_strip. Qed.

(** C4. Family filter: in [exclude_base] mode no returned candidate contains
    a base token of the original part; in [only_base] mode every returned
    candidate contains one; in any other mode the returned candidates are,
    in order, all the candidates of the final attempt but the original part
    itself. *)
Theorem family_filter fuel (mpn : string) rr mode st r st' :
  find_replacements_for_mpn fuel (Some mpn) rr mode st
    = (Some (Success r), st') ->
  (mode = Some "exclude_base" ->
   forall p tok, In p (products r) -> In tok (_base_tokens mpn) ->
     contains tok (_norm_mpn (get "mpn" p)) = false) /\
  (mode = Some "only_base" ->
   forall p, In p (products r) ->
     exists tok, In tok (_base_tokens mpn) /\
                 contains tok (_norm_mpn (get "mpn" p)) = true) /\
  (mode <> Some "exclude_base" -> mode <> Some "only_base" ->
   iterations r <> [] ->
   exists tok found st1 st2,
     attempt_products tok
       (_pick_base_keywords (base_of (Some mpn) st))
       (used_parameters r) st1 = (found, st2) /\
     map (get "mpn") (products r)
     = map (get "mpn") (hard_filter (_norm_mpn (PStr mpn)) found)).
Proof.
  intros H. apply find_success in H as [_ [_ [(_ & _ & ->)|(_ & H)]]].
  { cbn. repeat split; contradiction. }
  destruct H as (tk & st2 & e & st3 & Hr & He & _ & -> & _).
  apply relax_sound in Hr
    as (_ & _ & found & s1 & s2 & _ & _ & _ & _ & Ha & Hp & _).
  unfold clean_mpn in Hp. rewrite norm_strip, base_tokens_strip in Hp.
  split; [|split].
  - intros -> p tok Hin Htok.
    destruct (returned_mpn _ _ _ _ _ _ He Hin) as (c & Hc & ->).
    rewrite Hp in Hc. unfold base_filter in Hc. cbn [is_mode] in Hc.
    rewrite String.eqb_refl in Hc. apply filter_In in Hc as [_ Hc].
    apply negb_true_iff in Hc. unfold contains_base in Hc.
    destruct (contains tok _) eqn:Ec; auto.
    assert (Hex : existsb
              (fun tok => negb (String.eqb tok "") &&
                          contains tok (_norm_mpn (get "mpn" c)))
              (_base_tokens mpn) = true).
    { apply existsb_exists. exists tok. split; auto. rewrite Ec.
      apply base_token_nonempty, String.eqb_neq in Htok. now rewrite Htok. }
    congruence.
  - intros -> p Hin.
    destruct (returned_mpn _ _ _ _ _ _ He Hin) as (c & Hc & ->).
    rewrite Hp in Hc. unfold base_filter in Hc. cbn in Hc.
    apply filter_In in Hc as [_ Hc]. unfold contains_base in Hc.
    apply existsb_exists in Hc as (tok & Htok & Hc).
    apply andb_true_iff in Hc as [_ Hc]. eauto.
  - intros H1 H2 _. exists tk, found, s1, s2.
    split; auto.
    assert (Hx : x_products e = hard_filter (_norm_mpn (PStr mpn)) found).
    { rewrite Hp. unfold base_filter, is_mode.
      destruct mode as [b|]; auto.
      destruct (String.eqb_spec b "exclude_base"); [congruence|].
      destruct (String.eqb_spec b "only_base"); [congruence|]. auto. }
    rewrite <- Hx.
    assert (Hk : ~ In "mpn" enriched_keys) by (cbn; intuition discriminate).
    pose proof (kept_enrich_all "mpn" _ Hk _ _ _ He) as F2.
    pose proof (kept_with_match_reasons "mpn" (x_used e) (x_products e)
                  ltac:(discriminate)) as F1.
    clear - F1 F2. revert F2. generalize (products r).
    induction F1 as [|a b l l' Hab F1 IH]; intros ps F2.
    + inversion F2; subst. reflexivity.
    + inversion F2 as [|b' c' l1 l2 Hbc F2']; subst. cbn [map].
      destruct Hab as [Hab _], Hbc as [Hbc _].
      f_equal; [congruence | now apply IH].
Qed.

(** The calls of [_fetch_attrs_quiet]: one, or two when the first raises. *)
Lemma fetch_attrs_trace m st :
  exists n,
    1 <= n <= 2 /\
    trace (snd (_fetch_attrs_quiet m st))
    = trace st ++ repeat (CallAttributes m) n /\
    (fst (fetch_or_empty m st) <> None -> n = 1) /\
    (fst (fetch_or_empty m st) = None -> n = 2).
Proof.
  unfold _fetch_attrs_quiet, bind, ret, fetch_or_empty, log.
  destruct (fetch_attributes_for_mpn m (now st)) as [[[d|]|] w]; cbn.
  - exists 1. repeat split; auto; discriminate.
  - exists 1. repeat split; auto; discriminate.
  - destruct (fetch_attributes_for_mpn m w) as [r w']; cbn.
    exists 2. rewrite <- app_assoc. repeat split; auto. congruence.
Qed.

(** A row whose value and name are placeholders gives no usable value. *)
Lemma placeholder_row_unusable p :
  placeholder_row p = true -> value_row p = None.
Proof.
  unfold placeholder_row, field_text, value_row, _is_placeholder.
  rewrite !strip_idem. intros H. apply andb_true_iff in H as [Hv Hn].
  rewrite Hv, strip_idem, Hn. now rewrite orb_true_r.
Qed.

Lemma placeholder_rows_unusable rows :
  (forall p, In p rows -> placeholder_row p = true) ->
  _values_from_ranked rows = [].
Proof.
  induction rows as [|p rows IH]; intros H; [reflexivity|].
  cbn [_values_from_ranked].
  rewrite (placeholder_row_unusable p (H p (or_introl eq_refl))).
  apply IH. intros q Hq. apply H. now right.
Qed.

Lemma synthesized_or_empty v : synthesized (v ||| PDict []) = synthesized v.
Proof.
  unfold por. destruct (truthy v) eqn:E; [reflexivity|].
  destruct v as [| | | | | |[|kv d]]; try reflexivity. discriminate E.
Qed.

(** A part whose parameter list holds placeholder rows only, or nothing,
    has no usable value. *)
Lemma placeholders_only base :
  (forall p, In p (parameter_list base) -> placeholder_row p = true) ->
  usable_values base = [].
Proof.
  unfold parameter_list, usable_values. intros H. cbn zeta.
  assert (Hor : truthy (get "ranked_parameters" base ||| PList [])
                = truthy (get "ranked_parameters" base)).
  { unfold por. now destruct (truthy (get "ranked_parameters" base)) eqn:E. }
  rewrite Hor. destruct (truthy (get "ranked_parameters" base)) eqn:Ev.
  - unfold por. rewrite Ev.
    destruct (get "ranked_parameters" base) as [| | | | |[|p rest]|];
      try reflexivity.
    now apply placeholder_rows_unusable.
  - cbn [elems]. rewrite synthesized_or_empty.
    apply placeholder_rows_unusable.
    destruct (get "ranked_parameters" base) as [| | | | |[|p rest]|];
      try exact H. discriminate Ev.
Qed.

(** C9. No usable parameter values: when the extractor answers with a
    parameter list that is empty, or whose rows all have a placeholder for
    value and for name, the search answers [ok] with no product, no attempt
    and a note; it has called the attribute extractor (once, or twice when
    the first call raised) and nothing else: no token fetch, no search
    request. *)
Theorem no_usable_parameters fuel mpn rr mode st b :
  clean_mpn mpn <> "" ->
  fst (_fetch_attrs_quiet (clean_mpn mpn) st) = Some b ->
  (forall p, In p (parameter_list b) -> placeholder_row p = true) ->
  exists r st' n,
    find_replacements_for_mpn fuel mpn rr mode st = (Some (Success r), st') /\
    ok (Success r) = true /\
    products r = [] /\ iterations r = [] /\
    used_parameters r = [] /\ dropped_parameters r = [] /\
    note r = Some "No usable parameter values available for filtering." /\
    1 <= n <= 2 /\
    trace st' = trace st ++ repeat (CallAttributes (clean_mpn mpn)) n /\
    no_catalog_call (repeat (CallAttributes (clean_mpn mpn)) n).
Proof.
  intros Hm Hb Hrows. unfold find_replacements_for_mpn.
  destruct (String.eqb_spec (clean_mpn mpn) "") as [E|_]; [contradiction|].
  unfold bind.
  destruct (fetch_attrs_trace (clean_mpn mpn) st) as (n & Hn & Htr & _).
  destruct (_fetch_attrs_quiet (clean_mpn mpn) st) as [fb st1].
  cbn [fst snd] in *. subst fb.
  rewrite (placeholders_only b Hrows).
  eexists; eexists; exists n; split; [reflexivity|]. cbn.
  repeat split; auto; try lia.
  intros e He. apply repeat_spec in He. now subst e.
Qed.

(** C10. A part number that is missing, empty or made of whitespace is
    refused with the error "missing mpn"; the state is unchanged: no
    collaborator is called and no attempt is made. *)
Theorem missing_mpn fuel mpn rr mode st :
  match mpn with
  | Some s => all_space s = true
  | None => True
  end ->
  find_replacements_for_mpn fuel mpn rr mode st
    = (Some (Failure "missing mpn"), st).
Proof.
  intros H. unfold find_replacements_for_mpn.
  assert (E : clean_mpn mpn = "").
  { unfold clean_mpn. destruct mpn as [s|]; [|reflexivity].
    now apply strip_all_space. }
  rewrite E. reflexivity.
Qed.

Lemma patched_nth {A} (f : A -> A) n :
  forall (l : list A) i c,
    nth_error l i = Some c ->
    nth_error (map f (firstn n l) ++ skipn n l) i
    = Some (if Nat.ltb i n then f c else c).
Proof.
  induction n as [|n IH]; intros l i c H.
  - cbn. now rewrite H.
  - destruct l as [|x l]; [destruct i; discriminate|].
    destruct i as [|i]; cbn in *.
    + now inversion H.
    + rewrite (IH _ _ _ H). reflexivity.
Qed.


Lemma when_nonempty_existsb {A B} (f : A -> B) (g : A -> bool) l b :
  when_nonempty (map f (filter g l)) b = if existsb g l then [b] else [].
Proof.
  induction l as [|a l IH]; cbn; [reflexivity|].
  destruct (g a); cbn; auto.
Qed.

Lemma truthy_list l : truthy (PList l) = true -> l <> [].
Proof. destruct l; [discriminate|discriminate]. Qed.

(** What [_extract_products] reads in a JSON object. *)
Lemma extract_products_spec j :
  (_extract_products j = [] /\ barren (Some (Some j))) \/
  yields (Some (Some j)) (_extract_products j).
Proof.
  unfold _extract_products, por.
  destruct (truthy (get "Products" j)) eqn:E1.
  - rewrite E1.
    destruct (get "Products" j) as [| | | | |prods|] eqn:Ev;
      try (left; split; [reflexivity|];
           intros prods H; inversion H; subst; congruence).
    right. apply yields_Products; auto. now apply truthy_list.
  - destruct (truthy (get "products" j)) eqn:E2.
    + destruct (get "products" j) as [| | | | |prods|] eqn:Ev;
        try (left; split; [reflexivity|];
             intros prods H; inversion H as [? ? Hp Hne|? ? _ Hp Hne]; subst;
             [rewrite Hp in E1; destruct prods; [congruence|discriminate E1]
             |congruence]).
      right. apply yields_products; auto. now apply truthy_list.
    + left. split; [reflexivity|].
      intros prods H. inversion H as [? ? Hp Hne|? ? _ Hp Hne]; subst.
      * rewrite Hp in E1. destruct prods; [congruence|discriminate E1].
      * rewrite Hp in E2. destruct prods; [congruence|discriminate E2].
Qed.

Lemma try_bodies_first_yield hdrs bodies :
  forall st, first_yield hdrs bodies st (fst (try_bodies hdrs bodies st))
                         (snd (try_bodies hdrs bodies st)).
Proof.
  induction bodies as [|b rest IH]; intros st.
  - constructor.
  - cbn [try_bodies]. unfold bind.
    destruct (dk_request hdrs b st) as [r st1] eqn:E.
    destruct r as [[j|]|].
    + cbn [json_of].
      destruct (extract_products_spec j) as [[Ex Hb]|Hy].
      * rewrite Ex. eapply first_later; eauto.
      * destruct (_extract_products j) as [|x prods] eqn:Ex.
        { inversion Hy; congruence. }
        cbn. eapply first_here; eauto.
    + cbn. eapply first_later; eauto. intros prods H. inversion H.
    + eapply first_later; eauto. intros prods H. inversion H.
Qed.

(** C7. The filter cascade: the payloads are those of the four tiers in
    their fixed order (id + value id, id + value text, id + raw value, name +
    value text), each carrying one filter per ranked value that supplies its
    fields, without the tiers that no ranked value supplies; the requests
    are sent in that order and the search returns the products of the first
    response that yields any, or the empty list once all were sent. *)
Theorem filter_cascade token base_keywords triples record_count st :
  candidates base_keywords triples record_count
    = cascade base_keywords triples record_count /\
  first_yield (_dk_headers token)
    (cascade base_keywords triples record_count) st
    (fst (_search_dk_with_filters token base_keywords triples record_count st))
    (snd (_search_dk_with_filters token base_keywords triples record_count st)).
Proof.
  assert (E : candidates base_keywords triples record_count
              = cascade base_keywords triples record_count).
  { unfold candidates, cascade, all_tiers.
    change (p_id_valId triples)
      with (map (tier_filter IdAndValueId)
                (filter (supplies IdAndValueId) triples)).
    change (p_id_valTxt triples)
      with (map (tier_filter IdAndValueText)
                (filter (supplies IdAndValueText) triples)).
    change (p_id_val triples)
      with (map (tier_filter IdAndRawValue)
                (filter (supplies IdAndRawValue) triples)).
    change (p_txt_val triples)
      with (map (tier_filter NameAndValueText)
                (filter (supplies NameAndValueText) triples)).
    rewrite !when_nonempty_existsb. cbn [filter].
    destruct (existsb (supplies IdAndValueId) triples),
      (existsb (supplies IdAndValueText) triples),
      (existsb (supplies IdAndRawValue) triples),
      (existsb (supplies NameAndValueText) triples); reflexivity. }
  split; [exact E|]. rewrite <- E. apply try_bodies_first_yield.
Qed.

End Properties.

(** *** The properties on the fan scenario *)

Import Scenarios.

Example base_tokens_4414F : _base_tokens "4414F" = ["4414"].
Proof. reflexivity. Qed.

(** The fan values carry ids and no value ids: the first tier is left out
    of the cascade. *)
Example fan_cascade :
  candidates "DC Fans" (usable_values (C := fan_catalog) fan_attributes) 50
  = [ mkBody "DC Fans" 50
        (Filters_ParameterFilters
           [IdValueText (Some "1") "24VDC"; IdValueText (Some "2") "100 CFM"]);
      mkBody "DC Fans" 50
        (ParameterValueFilters
           [IdValue (Some "1") "24VDC"; IdValue (Some "2") "100 CFM"]);
      mkBody "DC Fans" 50
        (Filters_ParameterFilters
           [TextValueText "Voltage - Rated" "24VDC";
            TextValueText "Air Flow" "100 CFM"]) ].
Proof. reflexivity. Qed.

(** An extractor that knows nothing of the part is called once. *)
Example unknown_part :
  find_replacements_for_mpn (C := empty_catalog) 0 (Some "4414F") true None
                            (fresh empty_catalog tt)
  = (Some (Success
             (mkReport [] [] [] [] []
                (Some "No usable parameter values available for filtering.")
                None ["4414"])),
     mkState (C := empty_catalog) tt [CallAttributes "4414F"]).
Proof. reflexivity. Qed.

(** An extractor that always raises is called twice, and its exception
    leaves the search. *)
Example extractor_raises :
  find_replacements_for_mpn (C := broken_catalog) 3 (Some "4414F") true None
                            (fresh broken_catalog tt)
  = (Some Raised,
     mkState (C := broken_catalog) tt
             [CallAttributes "4414F"; CallAttributes "4414F"]).
Proof. reflexivity. Qed.

(** Candidate [4414F-ND], original [4414F], mode [exclude_base]: removed. *)
Example same_family_excluded :
  base_filter (Some "exclude_base") (_base_tokens "4414F") [same_family] = [].
Proof. reflexivity. Qed.

(** The same-family candidate returned for [4414F] is not [4414F]. *)
Lemma self_exclusion_witness :
  _norm_mpn (get "mpn" same_family) <> _norm_mpn (PStr " 4414F ").
Proof.
  eapply (self_exclusion (C := fan_catalog) 3 " 4414F " true None
            (fresh fan_catalog tt)).
  - vm_compute. reflexivity.
  - vm_compute. left. reflexivity.
Defined.

(** Two usable parameters: the search for [4414F] ends within three
    attempts. *)
Lemma relaxation_terminates_witness :
  exists res st',
    find_replacements_for_mpn (C := fan_catalog) 3 (Some "4414F") true None
                              (fresh fan_catalog tt) = (Some res, st') /\
    match res with
    | Success r => 1 <= List.length (iterations r) <= 2 + 1 /\ terminal true r
    | Failure _ | Raised => False
    end.
Proof.
  destruct (relaxation_terminates (C := fan_catalog) 3 (Some "4414F") true None
              (fresh fan_catalog tt))
    as (res & st' & H & Hres).
  - vm_compute. discriminate.
  - vm_compute. lia.
  - vm_compute. lia.
  - exists res, st'. split; [exact H|].
    destruct res as [msg|r|]; [discriminate Hres | exact Hres | exact Hres].
Defined.

(** The search for [4414F] drops [Air Flow]; what it kept and what it dropped
    make up the ranked list again. *)
Lemma monotonic_relaxation_witness :
  exists r st',
    find_replacements_for_mpn (C := fan_catalog) 3 (Some "4414F") true None
                              (fresh fan_catalog tt)
      = (Some (Success r), st') /\
    used_parameters r ++ rev (dropped_parameters r)
    = usable_values (C := fan_catalog) fan_attributes.
Proof.
  eexists; eexists; split.
  - vm_compute. reflexivity.
  - refine (proj1 (monotonic_relaxation (C := fan_catalog) 3 (Some "4414F")
                     true None (fresh fan_catalog tt) _ _ _)).
    vm_compute. reflexivity.
Defined.

(** With [exclude_base], the part returned for [4414F] does not contain the
    base token [4414]. *)
Lemma family_filter_witness :
  contains "4414" (_norm_mpn (get "mpn" unrelated)) = false.
Proof.
  pose proof
    (fun r st' H =>
       proj1 (family_filter (C := fan_catalog) 3 "4414F" true
                (Some "exclude_base") (fresh fan_catalog tt) r st' H)
             eq_refl unrelated "4414") as F.
  eapply F.
  - vm_compute. reflexivity.
  - vm_compute. left. reflexivity.
  - vm_compute. left. reflexivity.
Defined.

(** The extractor raises once, then answers with a sheet of placeholders:
    two calls of the extractor, none of the catalog. *)
Lemma no_usable_parameters_witness :
  exists r st',
    find_replacements_for_mpn
      (C := flaky_catalog hollow_attributes (Some "token"))
      0 (Some "4414F") true None
      (fresh (flaky_catalog hollow_attributes (Some "token")) false)
      = (Some (Success r), st') /\
    products r = [] /\ iterations r = [] /\
    trace st' = [CallAttributes "4414F"; CallAttributes "4414F"].
Proof.
  destruct (no_usable_parameters
              (C := flaky_catalog hollow_attributes (Some "token"))
              0 (Some "4414F") true None
              (fresh (flaky_catalog hollow_attributes (Some "token")) false)
              hollow_attributes)
    as (r & st' & n & H & _ & Hp & Hi & _ & _ & _ & _ & Ht & _).
  - vm_compute. discriminate.
  - vm_compute. reflexivity.
  - intros p [<-|[<-|[]]]; vm_compute; reflexivity.
  - exists r, st'. split; [exact H|]. split; [exact Hp|]. split; [exact Hi|].
    vm_compute in H. inversion H; subst. reflexivity.
Defined.

(** A blank part number is refused before anything is called. *)
Lemma missing_mpn_witness :
  find_replacements_for_mpn (C := fan_catalog) 3 (Some "  ") true None
                            (fresh fan_catalog tt)
  = (Some (Failure "missing mpn"), fresh fan_catalog tt).
Proof.
  apply (missing_mpn (C := fan_catalog) 3 (Some "  ")). reflexivity.
Defined.



End SearchFacts.

(* ================================================================== *)
(** ** Properties of the ranking operation *)
(* ================================================================== *)

Module RankFacts.
Import Py PyFacts RankParams.

Lemma mem_In s l : mem s l = true <-> In s l.
Proof.
  unfold mem. rewrite existsb_exists. split.
  - intros (x & Hin & E). apply String.eqb_eq in E. now subst.
  - intros H. exists s. split; auto. apply String.eqb_refl.
Qed.

Lemma find_append {A} (f : A -> bool) l1 l2 :
  find f (l1 ++ l2)
  = match find f l1 with Some x => Some x | None => find f l2 end.
Proof. induction l1 as [|x l1 IH]; cbn; auto. now destruct (f x). Qed.

Lemma NoDup_map_inj {A B} (f : A -> B) l x y :
  NoDup (map f l) -> In x l -> In y l -> f x = f y -> x = y.
Proof.
  induction l as [|a l IH]; cbn; intros Hnd Hx Hy E; [contradiction|].
  inversion Hnd as [|? ? Hnin Hnd']; subst.
  destruct Hx as [->|Hx], Hy as [->|Hy]; auto.
  - exfalso. apply Hnin. rewrite E. now apply in_map.
  - exfalso. apply Hnin. rewrite <- E. now apply in_map.
Qed.

Lemma NoDup_map_filter {A B} (f : A -> B) (g : A -> bool) l :
  NoDup (map f l) -> NoDup (map f (filter g l)).
Proof.
  induction l as [|a l IH]; cbn; intros H; auto.
  inversion H as [|? ? Hnin Hnd]; subst.
  destruct (g a); cbn; auto. constructor; auto.
  intros Hin. apply Hnin. apply in_map_iff in Hin as (x & E & Hx).
  apply filter_In in Hx as [Hx _]. rewrite <- E. now apply in_map.
Qed.

Lemma filter_all {A} (g : A -> bool) l :
  (forall x, g x = true) -> filter g l = l.
Proof.
  intros H. induction l as [|a l IH]; cbn; auto. now rewrite H, IH.
Qed.

Section Ranking.

Context {O : RankingOracle}.

(** The first loop keeps the parameters that carry an id, in order. *)
Lemma collect_spec params :
  forall by_id compact,
    collect params by_id compact
    = (fold_left (fun b p => store (sid p) (row_of p) b) (with_id params) by_id,
       compact ++ map item_of (with_id params)).
Proof.
  induction params as [|p params IH]; intros by_id compact.
  - cbn. now rewrite app_nil_r.
  - cbn [collect with_id filter].
    unfold sid, row_of, item_of in *. unfold sid in *.
    destruct (get "id" p) eqn:E; rewrite IH; cbn [fold_left map];
      rewrite ?E, <- ?app_assoc; reflexivity.
Qed.

(** [by_id] maps an id to the row of the last parameter that carries it. *)
Lemma lookup_by_id k ps :
  forall b,
    lookup k (fold_left (fun b p => store (sid p) (row_of p) b) ps b)
    = match latest k ps with
      | Some q => Some (row_of q)
      | None => lookup k b
      end.
Proof.
  unfold latest. induction ps as [|p ps IH]; intros b; [reflexivity|].
  cbn [fold_left rev]. rewrite IH, find_append.
  destruct (find _ (rev ps)); [reflexivity|]. cbn [find].
  destruct (String.eqb_spec (sid p) k) as [<-|Hne].
  - apply lookup_store_same.
  - apply lookup_store_other. congruence.
Qed.

Lemma latest_In k ps q : latest k ps = Some q -> In q ps /\ sid q = k.
Proof.
  unfold latest. intros H. apply find_some in H as [Hin E].
  apply in_rev in Hin. apply String.eqb_eq in E. auto.
Qed.

Lemma latest_unique ps p :
  NoDup (map sid ps) -> In p ps -> latest (sid p) ps = Some p.
Proof.
  intros Hnd Hin. destruct (latest (sid p) ps) as [q|] eqn:E.
  - apply latest_In in E as [Hq Es]. f_equal.
    eapply NoDup_map_inj; eauto.
  - unfold latest in E.
    pose proof (find_none _ _ E p (proj1 (in_rev _ _) Hin)) as F.
    cbn in F. now rewrite String.eqb_refl in F.
Qed.

Lemma rid_min_row c : rid (min_row c) = c_id c.
Proof. reflexivity. Qed.

Lemma r_id_remap by_id r : r_id (remap by_id r) = rid r.
Proof. reflexivity. Qed.

Lemma ids_of_compact ps : map c_id (map item_of ps) = map sid ps.
Proof. rewrite map_map. reflexivity. Qed.

Lemma ranked_min_cases content compact rm :
  ranked_min_of content compact = Returns rm ->
  rm = map min_row compact \/
  exists text ranked,
    content = Some text /\
    rows_of (parse_ranked text) = Returns ranked /\
    rm = complete_ranked ranked compact.
Proof.
  unfold ranked_min_of. destruct content as [text|].
  - destruct (String.eqb text ""); [intros H; inversion H; auto|].
    destruct (rows_of (parse_ranked text)) as [ranked|e] eqn:E;
      intros H; inversion H; subst.
    right. eauto.
  - intros H; inversion H; auto.
Qed.

(** What a returned list is made of. *)
Lemma rank_returns params mpn category console_preview out :
  rank_parameter_ids params mpn category console_preview = Returns out ->
  (params = [] /\ out = []) \/
  exists client rm,
    _client = Returns client /\
    out = map (remap (fold_left (fun b p => store (sid p) (row_of p) b)
                                (with_id params) []))
              rm /\
    ranked_min_of
      (ask_model client (mkBlob mpn category (map item_of (with_id params))))
      (map item_of (with_id params)) = Returns rm.
Proof.
  destruct params as [|p params].
  - intros H. inversion H; auto.
  - intros H. right. unfold rank_parameter_ids in H.
    rewrite collect_spec in H. cbn [app] in H.
    destruct _client as [client|e]; [|discriminate].
    destruct (ranked_min_of _ _) as [rm|e] eqn:Er; [|discriminate].
    exists client, rm. split; [reflexivity|]. split; [|exact Er].
    destruct console_preview; [|now inversion H].
    destruct (preview _); now inversion H.
Qed.

Lemma ids_of_complete ranked compact :
  map rid (complete_ranked ranked compact)
  = map rid ranked ++
    map c_id (filter (fun c => negb (mem (c_id c) (map rid ranked))) compact).
Proof.
  unfold complete_ranked. rewrite map_app, map_map. reflexivity.
Qed.

Lemma remap_value ps row p :
  latest (rid row) ps = Some p ->
  r_value (remap (fold_left (fun b p => store (sid p) (row_of p) b) ps []) row)
  = get "value" p.
Proof.
  intros Hl. unfold remap. cbn [r_value].
  change (pystr (get "id" row)) with (rid row).
  now rewrite lookup_by_id, Hl.
Qed.

Lemma remap_min_row by_id c :
  remap by_id (min_row c)
  = let base := match lookup (c_id c) by_id with
                | Some b => b
                | None => mkRow (c_id c) (c_name c) PNone
                end in
    mkRow (c_id c) (if truthy (c_name c) then c_name c else r_name base)
          (r_value base).
Proof. reflexivity. Qed.

Lemma remap_identity ps p :
  NoDup (map sid ps) -> In p ps ->
  remap (fold_left (fun b p => store (sid p) (row_of p) b) ps [])
        (min_row (item_of p)) = row_of p.
Proof.
  intros Hnd Hin. rewrite remap_min_row. cbn [item_of c_id c_name].
  rewrite lookup_by_id, latest_unique by auto. cbn.
  unfold row_of. now destruct (truthy (get "name" p)).
Qed.

(** The row that the remapping makes of a row of a valid ranking is the
    input row of its id. *)
Lemma remap_valid ps row p :
  NoDup (map sid ps) -> In p ps -> sid p = rid row ->
  (truthy (get "name" row) = true -> get "name" row = get "name" p) ->
  remap (fold_left (fun b p => store (sid p) (row_of p) b) ps []) row
  = row_of p.
Proof.
  intros Hnd Hin Hid Hname. unfold remap.
  change (pystr (get "id" row)) with (rid row).
  rewrite lookup_by_id, <- Hid, latest_unique by auto.
  unfold row_of. cbn [r_name r_value]. f_equal.
  destruct (truthy (get "name" row)) eqn:E; auto.
Qed.

(** C5, as the code has it. Whenever the ranking returns, every input
    parameter that carries an id has its id in the output; and when the
    input ids are pairwise distinct and the model complies, the output rows
    are the input rows (id, name and value) of the parameters that carry an
    id, each once: no duplicates, no inventions. Parameters without an id
    are skipped. *)
Theorem rank_bijection params mpn category console_preview out :
  rank_parameter_ids params mpn category console_preview = Returns out ->
  (forall p, In p params -> get "id" p <> PNone -> In (sid p) (map r_id out)) /\
  (NoDup (map sid (with_id params)) -> model_complies params mpn category ->
   Permutation out (identity_order params) /\ NoDup (map r_id out)).
Proof.
  intros H.
  apply rank_returns in H as [[-> ->]|(client & rm & Hclient & -> & Hrm)].
  { cbn. repeat split; auto; try contradiction; constructor. }
  set (ps := with_id params) in *.
  assert (Hids : forall b, map r_id (map (remap b) rm) = map rid rm).
  { intros b. rewrite map_map. reflexivity. }
  assert (Hfinish :
    NoDup (map sid ps) ->
    Permutation (map rid rm) (map sid ps) ->
    (forall row, In row rm ->
       exists p, In p ps /\ sid p = rid row /\
         remap (fold_left (fun b p => store (sid p) (row_of p) b) ps []) row
         = row_of p) ->
    Permutation
      (map (remap (fold_left (fun b p => store (sid p) (row_of p) b) ps [])) rm)
      (identity_order params) /\
    NoDup (map r_id
             (map (remap (fold_left (fun b p => store (sid p) (row_of p) b)
                                    ps [])) rm))).
  { intros Hnd Hperm Hrows. split.
    - unfold identity_order. fold ps.
      set (f := fun k => match latest k ps with
                         | Some p => row_of p
                         | None => mkRow k PNone PNone
                         end).
      replace (map _ rm) with (map f (map rid rm)).
      + replace (map row_of ps) with (map f (map sid ps)).
        * now apply Permutation_map.
        * rewrite map_map. apply map_ext_in. intros p Hp. unfold f.
          now rewrite latest_unique.
      + rewrite map_map. apply map_ext_in. intros row Hrow.
        destruct (Hrows row Hrow) as (p & Hp & Hid & ->). unfold f.
        now rewrite <- Hid, latest_unique.
    - rewrite Hids. eapply Permutation_NoDup; [|exact Hnd].
      now apply Permutation_sym. }
  apply ranked_min_cases in Hrm as [->|(text & ranked & Hask & Hrows & ->)].
  - assert (E : map rid (map min_row (map item_of ps)) = map sid ps).
    { rewrite !map_map. reflexivity. }
    split.
    + intros p Hin Hid. rewrite Hids, E. apply in_map. apply filter_In.
      split; auto. now destruct (get "id" p).
    + intros Hnd _. apply Hfinish; auto.
      * rewrite E. apply Permutation_refl.
      * intros row Hrow. rewrite map_map in Hrow.
        apply in_map_iff in Hrow as (p & <- & Hp). exists p.
        split; [exact Hp|]. split; [reflexivity|]. now apply remap_identity.
  - split.
    + intros p Hin Hid. rewrite Hids, ids_of_complete.
      assert (Hp : In p ps).
      { apply filter_In. split; auto. now destruct (get "id" p). }
      destruct (mem (sid p) (map rid ranked)) eqn:Em.
      * apply in_or_app. left. now apply mem_In.
      * apply in_or_app. right. apply in_map_iff. exists (item_of p).
        split; [reflexivity|]. apply filter_In. split; [now apply in_map|].
        cbn [c_id item_of]. now rewrite Em.
    + intros Hnd Hvalid.
      destruct (Hvalid client text ranked Hclient Hask Hrows) as [Hr1 Hr2].
      apply Hfinish; auto.
      * rewrite ids_of_complete. apply NoDup_Permutation; auto.
        -- apply NoDup_app; auto.
           ++ apply NoDup_map_filter. now rewrite ids_of_compact.
           ++ intros a Ha Hb. apply in_map_iff in Hb as (c & <- & Hc).
              apply filter_In in Hc as [_ Hc]. apply negb_true_iff in Hc.
              apply mem_In in Ha. congruence.
        -- intros x. split.
           ++ intros Hx. apply in_app_or in Hx as [Hx|Hx].
              ** apply in_map_iff in Hx as (r & <- & Hr).
                 destruct (Hr2 r Hr) as (p & Hp & <- & _). now apply in_map.
              ** apply in_map_iff in Hx as (c & <- & Hc).
                 apply filter_In in Hc as [Hc _]. rewrite <- ids_of_compact.
                 now apply in_map.
           ++ intros Hx. destruct (mem x (map rid ranked)) eqn:Em.
              ** apply in_or_app. left. now apply mem_In.
              ** apply in_or_app. right. rewrite <- ids_of_compact in Hx.
                 apply in_map_iff in Hx as (c & <- & Hc).
                 apply in_map. apply filter_In. split; auto. now rewrite Em.
      * intros row Hrow. unfold complete_ranked in Hrow.
        apply in_app_or in Hrow as [Hrow|Hrow].
        -- destruct (Hr2 row Hrow) as (p & Hp & Hid & Hname).
           exists p. split; [exact Hp|]. split; [exact Hid|].
           now apply remap_valid.
        -- apply in_map_iff in Hrow as (c & <- & Hc).
           apply filter_In in Hc as [Hc _].
           apply in_map_iff in Hc as (p & <- & Hp). exists p.
           split; [exact Hp|]. split; [reflexivity|].
           now apply remap_identity.
Qed.

Lemma ranked_min_degraded content compact :
  degraded content -> ranked_min_of content compact = Returns (map min_row compact).
Proof.
  intros [Hn|(text & -> & Hp)]; unfold ranked_min_of.
  - destruct content as [t|]; auto. cbn in Hn.
    apply negb_false_iff in Hn. now rewrite Hn.
  - destruct (String.eqb text ""); auto. rewrite Hp. cbn [rows_of all_dicts].
    unfold complete_ranked. cbn [map app]. rewrite filter_all; auto.
Qed.

Lemma remap_printable ps p :
  printable ps = true -> In p ps ->
  let r := remap (fold_left (fun b p => store (sid p) (row_of p) b) ps [])
                 (min_row (item_of p)) in
  strippable (r_name r) && strippable (r_value r) = true.
Proof.
  intros Hpr Hin. unfold printable in Hpr.
  rewrite forallb_forall in Hpr. cbn zeta. rewrite remap_min_row.
  cbn [item_of c_id c_name]. rewrite lookup_by_id.
  pose proof (Hpr _ Hin) as Hp. apply andb_true_iff in Hp as [Hn Hv].
  destruct (latest (sid p) ps) as [q|] eqn:El; cbn.
  - apply latest_In in El as [Hq _]. pose proof (Hpr _ Hq) as Hq'.
    apply andb_true_iff in Hq' as [Hqn Hqv].
    rewrite Hqv, andb_true_r. now destruct (truthy (get "name" p)).
  - rewrite andb_true_r. now destruct (truthy (get "name" p)).
Qed.

(** C6, as the code has it. Without an API key a non-empty input makes the
    operation raise [RuntimeError]. With an API key, when the model gives no
    ranking (no content, or a content that is no object with a non-empty
    ranked list) and the preview is off or can print the names and values,
    the operation returns one row per parameter that carries an id, in input
    order; these are the input rows themselves when the ids are pairwise
    distinct. *)
Theorem fallback_order params mpn category console_preview :
  (nonempty api_key = false -> params <> [] ->
   rank_parameter_ids params mpn category console_preview
   = Raises (RuntimeError "OPENAI_API_KEY not set.")) /\
  (forall key,
     api_key = Some key -> key <> "" ->
     degraded (ask_model key
                 (mkBlob mpn category (map item_of (with_id params)))) ->
     console_preview = false \/ printable (with_id params) = true ->
     exists out,
       rank_parameter_ids params mpn category console_preview = Returns out /\
       map r_id out = map sid (with_id params) /\
       (NoDup (map sid (with_id params)) -> out = identity_order params)).
Proof.
  split.
  - intros Hkey Hne. destruct params as [|p0 params']; [contradiction|].
    unfold rank_parameter_ids.
    destruct (collect (p0 :: params') [] []) as [by_id compact].
    unfold _client. unfold nonempty in Hkey.
    destruct api_key as [key|]; [|reflexivity].
    apply negb_false_iff in Hkey. now rewrite Hkey.
  - intros key Hkey Hne Hdeg Hprint.
    assert (Hclient : _client = Returns key).
    { unfold _client. rewrite Hkey.
      apply String.eqb_neq in Hne. now rewrite Hne. }
    destruct params as [|p0 params'].
    { exists []. repeat split; reflexivity. }
    remember (p0 :: params') as params eqn:Eparams.
    set (ps := with_id params) in *.
    set (rows :=
           map (remap (fold_left (fun b p => store (sid p) (row_of p) b) ps []))
               (map min_row (map item_of ps))).
    assert (Hrank :
      rank_parameter_ids params mpn category console_preview
      = if console_preview then
          match preview rows with
          | Raises e => Raises e
          | Returns _ => Returns rows
          end
        else Returns rows).
    { subst params. unfold rank_parameter_ids.
      rewrite collect_spec. cbn [app]. rewrite Hclient.
      fold ps. now rewrite (ranked_min_degraded _ _ Hdeg). }
    assert (Hret : (if console_preview
                    then match preview rows with
                         | Raises e => Raises e
                         | Returns _ => Returns rows
                         end
                    else Returns rows) = Returns rows).
    { destruct console_preview; [|reflexivity].
      destruct Hprint as [Hf|Hpr]; [discriminate|].
      unfold preview.
      replace (forallb _ rows) with true; [reflexivity|].
      symmetry. apply forallb_forall. intros r Hr. subst rows.
      rewrite !map_map in Hr. apply in_map_iff in Hr as (p & <- & Hp).
      now apply remap_printable. }
    rewrite Hrank, Hret. exists rows. split; [reflexivity|]. split.
    + subst rows. rewrite !map_map. reflexivity.
    + intros Hnd. subst rows. unfold identity_order. fold ps.
      rewrite !map_map. apply map_ext_in. intros p Hp.
      now apply remap_identity.
Qed.

End Ranking.

(** *** The properties on the fan parameters *)

Import Scenarios.

(** C5, as stated, fails, part by part. A parameter without an id has no
    entry. An id given twice comes back twice, with the value given last.
    The model may rename a parameter, invent one, or name one twice, and its
    rows are returned as they are. *)
Lemma bijection_counterexample :
  ~ bijection_claim (O := silent) [colour] None None true /\
  ~ every_parameter_kept (O := silent) [colour] None None true /\
  ~ no_duplicates (O := silent) voltage_twice None None true /\
  ~ first_value_wins (O := silent) voltage_twice None None true /\
  ~ nothing_invented (O := renaming) fan_params None None true /\
  ~ nothing_invented (O := inventive) fan_params None None true /\
  ~ no_duplicates (O := stutter) fan_params None None true.
Proof.
  repeat split.
  - intros [H _].
    destruct (H [] eq_refl colour (or_introl eq_refl)) as (r & [] & _).
  - intros H. destruct (H [] eq_refl colour (or_introl eq_refl)) as (r & [] & _).
  - intros H. specialize (H _ eq_refl). vm_compute in H.
    inversion H as [|? ? Hin _]; subst. apply Hin. left. reflexivity.
  - intros H.
    specialize (H _ eq_refl (mkRow "1" (PStr "Voltage - Rated") (PStr "12VDC"))
                  (param 1 "Voltage - Rated" "24VDC")
                  (or_introl eq_refl) eq_refl).
    discriminate H.
  - intros H.
    destruct (H _ eq_refl (mkRow "1" (PStr "Weight") (PStr "24VDC"))
                (or_introl eq_refl)) as (p & Hp & _ & Hn).
    destruct Hp as [<-|[<-|[]]]; discriminate Hn.
  - intros H.
    destruct (H _ eq_refl (mkRow "9" (PStr "Weight") PNone)
                (or_introl eq_refl)) as (p & Hp & Hi & _).
    destruct Hp as [<-|[<-|[]]]; discriminate Hi.
  - intros H. specialize (H _ eq_refl). vm_compute in H.
    inversion H as [|? ? Hin _]; subst. apply Hin. left. reflexivity.
Qed.

(** The model ranks [Air Flow] first: the two input rows come back, each
    once. *)
Lemma rank_bijection_witness :
  exists out,
    rank_parameter_ids (O := reorder) fan_params None None true = Returns out /\
    Permutation out
      [mkRow "1" (PStr "Voltage - Rated") (PStr "24VDC");
       mkRow "2" (PStr "Air Flow") (PStr "100 CFM")] /\
    NoDup (map r_id out).
Proof.
  eexists. split.
  - vm_compute. reflexivity.
  - refine (proj2 (rank_bijection (O := reorder) fan_params None None
                     true _ _) _ _).
    + vm_compute. reflexivity.
    + vm_compute. repeat constructor; cbn; intuition discriminate.
    + intros client text rows _ _ Hr. vm_compute in Hr.
      inversion Hr; subst rows. split.
      * vm_compute. repeat constructor; cbn; intuition discriminate.
      * intros r [<-|[<-|[]]].
        -- exists (param 2 "Air Flow" "100 CFM").
           split; [right; left; reflexivity|]. split; reflexivity.
        -- exists (param 1 "Voltage - Rated" "24VDC").
           split; [left; reflexivity|]. split; reflexivity.
Defined.

(** C6, as stated, fails: without an API key the operation raises. *)
Lemma fallback_counterexample :
  ~ fallback_claim (O := no_key) fan_params None None true.
Proof.
  intros H. destruct H as (out & E & _).
  - intros client blob. split; reflexivity.
  - vm_compute in E. discriminate E.
Qed.

(** A ranking whose entries are not objects is read outside the [try]: the
    operation raises. *)
Example garbled_ranking_raises :
  rank_parameter_ids (O := garbled) fan_params None None true
  = Raises AttributeError.
Proof. reflexivity. Qed.

(** Without a key the pin count makes the operation raise, preview or not;
    with a key and a silent model the two fan parameters come back in
    order. *)
Lemma fallback_order_witness :
  rank_parameter_ids (O := no_key) [pin_count] None None true
  = Raises (RuntimeError "OPENAI_API_KEY not set.") /\
  exists out,
    rank_parameter_ids (O := silent) fan_params None None true = Returns out /\
    map r_id out = ["1"; "2"] /\
    out = identity_order (O := silent) fan_params.
Proof.
  split.
  - apply (proj1 (fallback_order (O := no_key) [pin_count] None None true)).
    + reflexivity.
    + discriminate.
  - destruct (proj2 (fallback_order (O := silent) fan_params None None true)
                "sk-test" eq_refl)
      as (out & E & Hid & Hrows).
    + discriminate.
    + left. reflexivity.
    + right. reflexivity.
    + exists out. split; [exact E|]. split; [exact Hid|].
      apply Hrows. vm_compute. repeat constructor; cbn; intuition discriminate.
Defined.

End RankFacts.

(* ================================================================== *)
(** ** Further properties of the replacement search *)
(* ================================================================== *)

Module SearchMore.
Import Py PyFacts ReplacementSearch SearchFacts RankFacts.

(** *** Characters *)

Lemma alnum_upper_canonical c :
  is_alnum (upper_char c) = true -> is_canonical (upper_char c) = true.
Proof. destruct c as [[] [] [] [] [] [] [] []]; vm_compute; congruence. Qed.

Lemma canonical_fixed c :
  is_canonical c = true -> upper_char c = c /\ is_alnum c = true.
Proof.
  destruct c as [[] [] [] [] [] [] [] []]; vm_compute; intros H;
    try discriminate H; split; reflexivity.
Qed.

Lemma upper_lower_char c : upper_char (lower_char c) = upper_char c.
Proof. destruct c as [[] [] [] [] [] [] [] []]; reflexivity. Qed.

Lemma lower_upper_char c : lower_char (upper_char c) = lower_char c.
Proof. destruct c as [[] [] [] [] [] [] [] []]; reflexivity. Qed.

Lemma upper_upper_char c : upper_char (upper_char c) = upper_char c.
Proof. destruct c as [[] [] [] [] [] [] [] []]; reflexivity. Qed.

Lemma alnum_upper_char c : is_alnum (upper_char c) = is_alnum c.
Proof. destruct c as [[] [] [] [] [] [] [] []]; reflexivity. Qed.

Lemma space_upper_char c : is_space (upper_char c) = is_space c.
Proof. destruct c as [[] [] [] [] [] [] [] []]; reflexivity. Qed.

(** *** Normalized part numbers *)

Lemma squash_canonical s :
  all_chars is_canonical (sfilter is_alnum (upper s)) = true.
Proof.
  unfold upper. induction s as [|c s IH]; [reflexivity|]. cbn [smap sfilter].
  destruct (is_alnum (upper_char c)) eqn:E; [|exact IH].
  cbn [all_chars]. now rewrite (alnum_upper_canonical c E), IH.
Qed.

Lemma squash_fixed s :
  all_chars is_canonical s = true -> sfilter is_alnum (upper s) = s.
Proof.
  unfold upper. induction s as [|c s IH]; [reflexivity|]. cbn [all_chars].
  intros H. apply andb_true_iff in H as [Hc Hs].
  destruct (canonical_fixed c Hc) as [Hu Ha].
  cbn [smap sfilter]. now rewrite Hu, Ha, IH.
Qed.

(** X1. A normalized part number is made of upper-case letters and digits
    only, and normalizing it again changes nothing. *)
Theorem norm_mpn_canonical v :
  all_chars is_canonical (_norm_mpn v) = true /\
  _norm_mpn (PStr (_norm_mpn v)) = _norm_mpn v.
Proof.
  split; [apply squash_canonical|].
  unfold _norm_mpn at 1. cbn [text_or_empty].
  apply squash_fixed, squash_canonical.
Qed.

Lemma smap_smap f g s : smap f (smap g s) = smap (fun c => f (g c)) s.
Proof. induction s as [|c s IH]; cbn; [reflexivity|now rewrite IH]. Qed.

Lemma smap_ext f g s : (forall c, f c = g c) -> smap f s = smap g s.
Proof.
  intros H. induction s as [|c s IH]; cbn; [reflexivity|now rewrite H, IH].
Qed.

(** X2. On ASCII text, the normal form of a part number ignores case and
    every character that is not a letter or a digit: lower-casing the text,
    upper-casing it or deleting its separators gives the same normal
    form. *)
Theorem norm_mpn_insensitive s :
  ascii_text s = true ->
  _norm_mpn (PStr (lower s)) = _norm_mpn (PStr s) /\
  _norm_mpn (PStr (upper s)) = _norm_mpn (PStr s) /\
  _norm_mpn (PStr (sfilter is_alnum s)) = _norm_mpn (PStr s).
Proof.
  intros _. unfold _norm_mpn. cbn [text_or_empty]. unfold upper, lower.
  rewrite !smap_smap. repeat split.
  - f_equal. apply smap_ext, upper_lower_char.
  - f_equal. apply smap_ext, upper_upper_char.
  - induction s as [|c s IH]; [reflexivity|]. cbn [sfilter smap].
    rewrite alnum_upper_char.
    destruct (is_alnum c) eqn:E; cbn [smap sfilter];
      rewrite ?alnum_upper_char, ?E, IH; reflexivity.
Qed.

(** The part number [afb-1212 sh] in lower case and with its separators. *)
Lemma norm_mpn_insensitive_witness :
  _norm_mpn (PStr (lower "afb-1212 sh")) = _norm_mpn (PStr "afb-1212 sh") /\
  _norm_mpn (PStr (upper "afb-1212 sh")) = _norm_mpn (PStr "afb-1212 sh") /\
  _norm_mpn (PStr (sfilter is_alnum "afb-1212 sh"))
  = _norm_mpn (PStr "afb-1212 sh").
Proof. apply (norm_mpn_insensitive "afb-1212 sh"). reflexivity. Defined.

(** *** Stripping and case *)

Lemma lstrip_smap f s :
  (forall c, is_space (f c) = is_space c) ->
  lstrip (smap f s) = smap f (lstrip s).
Proof.
  intros H. induction s as [|c s IH]; [reflexivity|]. cbn [smap lstrip].
  rewrite H. now destruct (is_space c).
Qed.

Lemma rstrip_smap f s :
  (forall c, is_space (f c) = is_space c) ->
  rstrip (smap f s) = smap f (rstrip s).
Proof.
  intros H. induction s as [|c s IH]; [reflexivity|]. cbn [smap rstrip].
  rewrite IH, H. destruct (rstrip s); [|reflexivity].
  cbn [smap]. now destruct (is_space c).
Qed.

(** X3. Placeholder detection ignores the case of the text and the
    whitespace around it. *)
Theorem placeholder_insensitive s :
  _is_placeholder (Some (upper s)) = _is_placeholder (Some s) /\
  _is_placeholder (Some (strip s)) = _is_placeholder (Some s).
Proof.
  unfold _is_placeholder. split.
  - f_equal. unfold strip, upper, lower.
    rewrite lstrip_smap, rstrip_smap by apply space_upper_char.
    rewrite smap_smap. apply smap_ext, lower_upper_char.
  - now rewrite strip_idem.
Qed.

(** *** Part-number variants *)

Lemma add_variant_cases v l : add_variant v l = l \/
  (add_variant v l = l ++ [v] /\ v <> "" /\ ~ In v l).
Proof.
  unfold add_variant.
  destruct (String.eqb_spec v ""); cbn; auto.
  destruct (mem v l) eqn:E; cbn; auto.
  right. repeat split; auto. intros Hin.
  assert (mem v l = true); [|congruence].
  unfold mem. apply existsb_exists. exists v. split; auto.
  apply String.eqb_refl.
Qed.

Lemma add_variant_shape v l :
  NoDup l -> l <> [] -> (forall x, In x (tl l) -> x <> "") ->
  NoDup (add_variant v l) /\ add_variant v l <> [] /\
  hd_error (add_variant v l) = hd_error l /\
  (forall x, In x (tl (add_variant v l)) -> x <> "") /\
  List.length (add_variant v l) <= S (List.length l).
Proof.
  intros Hnd Hne He. destruct (add_variant_cases v l) as [->|(-> & Hv & Hin)].
  - repeat split; auto.
  - destruct l as [|a l]; [contradiction|]. cbn [tl app hd_error] in *.
    repeat split.
    + change (a :: l ++ [v]) with ((a :: l) ++ [v]). apply NoDup_app; auto.
      * constructor; [intros []|constructor].
      * intros x Hx [<-|[]]. contradiction.
    + discriminate.
    + intros x Hx. apply in_app_or in Hx as [Hx|[<-|[]]]; auto.
    + cbn. rewrite length_app. cbn. lia.
Qed.

Lemma add_variant_head v x l : exists rest, add_variant v (x :: l) = x :: rest.
Proof.
  destruct (add_variant_cases v (x :: l)) as [->|(-> & _)]; cbn; eauto.
Qed.

Lemma add_variant_length v l :
  List.length (add_variant v l) <= S (List.length l).
Proof.
  destruct (add_variant_cases v l) as [->|(-> & _)]; [lia|].
  rewrite length_app. cbn. lia.
Qed.

Section Variants.

Context {C : Catalog}.

Lemma mpn_variants_length raw : List.length (_mpn_variants raw) <= 4.
Proof.
  unfold _mpn_variants. destruct (String.eqb (strip raw) ""); [cbn; lia|].
  cbn zeta. set (s := normalize_NFC (strip raw)).
  set (v1 := add_variant (sub_dashes "" false s) [s]).
  set (v2 := add_variant (strip (squeeze Outside (sub_dashes " " false s))) v1).
  pose proof (add_variant_length (sub_dashes "" false s) [s]) as L1.
  pose proof (add_variant_length
                (strip (squeeze Outside (sub_dashes " " false s))) v1) as L2.
  pose proof (add_variant_length (first_token s) v2) as L3.
  fold v1 in L1. fold v2 in L2. cbn [List.length] in L1. lia.
Qed.

Lemma mpn_variants_strip raw : _mpn_variants (strip raw) = _mpn_variants raw.
Proof. unfold _mpn_variants. now rewrite strip_idem. Qed.

(** X4. The variants tried for a candidate: none for a blank part number;
    otherwise the stripped part number in NFC first, then at most three
    more, all non-empty, and no variant twice. *)
Theorem mpn_variants_shape raw :
  (strip raw = "" -> _mpn_variants raw = []) /\
  (strip raw <> "" ->
   hd_error (_mpn_variants raw) = Some (normalize_NFC (strip raw))) /\
  NoDup (_mpn_variants raw) /\
  (forall v, In v (tl (_mpn_variants raw)) -> v <> "") /\
  List.length (_mpn_variants raw) <= 4.
Proof.
  pose proof (mpn_variants_length raw) as Hlen. revert Hlen.
  unfold _mpn_variants.
  destruct (String.eqb_spec (strip raw) "") as [E|E]; intros Hlen.
  - repeat split; auto; try contradiction; try constructor.
  - cbn zeta in *. set (s := normalize_NFC (strip raw)) in *.
    assert (N0 : NoDup [s]) by (repeat constructor; intros []).
    assert (E0 : forall x, In x (tl [s]) -> x <> "") by (intros x []).
    destruct (add_variant_shape (sub_dashes "" false s) [s] N0
                ltac:(discriminate) E0) as (N1 & Ne1 & Hd1 & E1 & _).
    set (v1 := add_variant (sub_dashes "" false s) [s]) in *.
    destruct (add_variant_shape
                (strip (squeeze Outside (sub_dashes " " false s))) v1
                N1 Ne1 E1) as (N2 & Ne2 & Hd2 & E2 & _).
    set (v2 := add_variant _ v1) in *.
    destruct (add_variant_shape (first_token s) v2 N2 Ne2 E2)
      as (N3 & Ne3 & Hd3 & E3 & _).
    repeat split; auto; try contradiction.
    intros _. rewrite Hd3, Hd2, Hd1. reflexivity.
Qed.

End Variants.

(** *** Base tokens *)

Lemma append_empty_r (s : string) : (s ++ "")%string = s.
Proof. induction s as [|c s IH]; cbn; [reflexivity|now rewrite IH]. Qed.

Lemma append_assoc (a b c : string) :
  ((a ++ b) ++ c)%string = (a ++ b ++ c)%string.
Proof. induction a as [|x a IH]; cbn; [reflexivity|now rewrite IH]. Qed.

Lemma all_chars_append f (a b : string) :
  all_chars f (a ++ b) = all_chars f a && all_chars f b.
Proof.
  induction a as [|x a IH]; cbn; [reflexivity|].
  now rewrite IH, andb_assoc.
Qed.

Lemma digit_runs_spec s :
  forall cur t,
    all_chars is_digit cur = true -> In t (digit_runs s cur) ->
    all_chars is_digit t = true /\
    exists a b, (cur ++ s)%string = (a ++ t ++ b)%string.
Proof.
  induction s as [|c s IH]; intros cur t Hcur Hin.
  - destruct Hin as [<-|[]]. split; auto. exists "", "".
    cbn. now rewrite !append_empty_r.
  - cbn [digit_runs] in Hin. destruct (is_digit c) eqn:Ec.
    + apply IH in Hin as [Ht (a & b & Hab)].
      * split; auto. exists a, b. rewrite <- Hab, append_assoc. reflexivity.
      * rewrite all_chars_append, Hcur. cbn. now rewrite Ec.
    + destruct Hin as [<-|Hin].
      * split; auto. exists "", (String c s). reflexivity.
      * apply IH in Hin as [Ht (a & b & Hab)]; [|reflexivity].
        split; auto. exists (cur ++ String c a)%string, b.
        cbn in Hab. rewrite Hab, append_assoc. reflexivity.
Qed.

Lemma leading_digits_spec s :
  all_chars is_digit (leading_digits s) = true /\
  exists b, s = (leading_digits s ++ b)%string.
Proof.
  induction s as [|c s [IH1 (b & IH2)]]; cbn.
  - split; auto. now exists "".
  - destruct (is_digit c) eqn:Ec; cbn.
    + rewrite Ec, IH1. split; auto. exists b. now rewrite <- IH2.
    + split; auto. now exists (String c s).
Qed.

Lemma In_base_tokens mpn t :
  In t (_base_tokens mpn) ->
  In t (findall_digits3 (_norm_mpn (PStr mpn))) \/
  match_digits3 (_norm_mpn (PStr mpn)) = Some t.
Proof.
  unfold _base_tokens. intros H. apply In_sorted_tokens in H.
  destruct (match_digits3 _) as [m|]; apply In_set_of in H; auto.
  apply in_app_or in H as [H|[->|[]]]; auto.
Qed.

(** X5. Every base token is a run of at least three digits that occurs in
    the normalized part number. *)
Theorem base_tokens_content mpn t :
  In t (_base_tokens mpn) ->
  3 <= String.length t /\
  all_chars is_digit t = true /\
  contains t (_norm_mpn (PStr mpn)) = true.
Proof.
  intros H. split; [now apply (base_token_length mpn)|].
  apply In_base_tokens in H as [H|H].
  - unfold findall_digits3 in H. apply filter_In in H as [H _].
    apply digit_runs_spec in H as [Hd (a & b & Hab)]; [|reflexivity].
    split; auto. apply contains_substring. exists a, b. exact Hab.
  - unfold match_digits3 in H.
    destruct (Nat.leb 3 _); inversion H; subst.
    destruct (leading_digits_spec (_norm_mpn (PStr mpn))) as [Hd (b & Hb)].
    split; auto. apply contains_substring. now exists "", b.
Qed.

Lemma NoDup_set_of l : NoDup (set_of l).
Proof.
  induction l as [|x l IH]; cbn; [constructor|].
  destruct (mem x l) eqn:E; auto. constructor; auto.
  intros H. apply In_set_of, mem_In in H. congruence.
Qed.

Lemma NoDup_insert_token t l :
  ~ In t l -> NoDup l -> NoDup (insert_token t l).
Proof.
  induction l as [|x l IH]; cbn; intros Hin Hnd.
  - repeat constructor. intros [].
  - destruct (token_le t x).
    + constructor; auto.
    + inversion Hnd; subst. constructor.
      * intros H. apply In_insert_token in H as [->|H]; auto.
      * apply IH; auto.
Qed.

Lemma token_le_total a b : token_le a b = false -> token_le b a = true.
Proof.
  unfold token_le. intros H. apply orb_false_iff in H as [H1 H2].
  apply Nat.ltb_ge in H1.
  destruct (Nat.ltb (String.length a) (String.length b)) eqn:E; [reflexivity|].
  apply Nat.ltb_ge in E. cbn.
  assert (El : String.length a = String.length b) by lia.
  rewrite El, Nat.eqb_refl in *. cbn in *.
  destruct (String.leb_total a b) as [H|H]; congruence.
Qed.

Lemma Sorted_insert_token t l :
  Sorted (fun a b => token_le a b = true) l ->
  Sorted (fun a b => token_le a b = true) (insert_token t l).
Proof.
  induction l as [|x l IH]; cbn; intros Hs.
  - repeat constructor.
  - destruct (token_le t x) eqn:E.
    + constructor; auto.
    + inversion Hs as [|? ? Hs' Hhd]; subst. constructor; auto.
      destruct l as [|y l]; cbn.
      * constructor. now apply token_le_total.
      * destruct (token_le t y); constructor.
        -- now apply token_le_total.
        -- now inversion Hhd.
Qed.

Lemma Sorted_weaken {A} (R R' : A -> A -> Prop) l :
  (forall a b, R a b -> R' a b) -> Sorted R l -> Sorted R' l.
Proof.
  intros H Hs. induction Hs as [|a l Hs IH Hhd]; constructor; auto.
  destruct Hhd; constructor; auto.
Qed.

(** X6. The base tokens come without repetition, in the order of the key
    [(-len(t), t)]; in particular no token is longer than one before it. *)
Theorem base_tokens_order mpn :
  NoDup (_base_tokens mpn) /\
  Sorted (fun a b => token_le a b = true) (_base_tokens mpn) /\
  StronglySorted (fun a b => String.length b <= String.length a)
                 (_base_tokens mpn).
Proof.
  unfold _base_tokens.
  set (tokset := match match_digits3 _ with Some m => _ | None => _ end).
  assert (Hnd : NoDup tokset).
  { subst tokset. destruct (match_digits3 _); apply NoDup_set_of. }
  clearbody tokset.
  assert (H : NoDup (sorted_tokens tokset) /\
              Sorted (fun a b => token_le a b = true) (sorted_tokens tokset)).
  { unfold sorted_tokens. induction Hnd as [|x l Hin Hnd [IH1 IH2]]; cbn.
    - split; constructor.
    - split; [|now apply Sorted_insert_token].
      apply NoDup_insert_token; auto.
      intros H. now apply In_sorted_tokens in H. }
  destruct H as [H1 H2]. repeat split; auto.
  apply Sorted_StronglySorted.
  - intros a b c Hab Hbc. lia.
  - eapply Sorted_weaken; [|exact H2]. cbn. intros a b Hab.
    unfold token_le in Hab. apply orb_true_iff in Hab as [Hab|Hab].
    + apply Nat.ltb_lt in Hab. lia.
    + apply andb_true_iff in Hab as [Hab _]. apply Nat.eqb_eq in Hab. lia.
Qed.

(** A token of the fan [4414F]. *)
Lemma base_tokens_content_witness :
  3 <= String.length "4414" /\
  all_chars is_digit "4414" = true /\
  contains "4414" (_norm_mpn (PStr "4414F")) = true.
Proof.
  apply (base_tokens_content "4414F" "4414"). vm_compute. left. reflexivity.
Defined.

(** *** Usable values *)

Section Values.

Context {C : Catalog}.

Lemma value_row_usable p t :
  value_row p = Some t ->
  t_name t <> "" /\ t_value t <> "" /\
  _is_placeholder (Some (t_value t)) = false /\
  strip (t_name t) = t_name t /\ strip (t_value t) = t_value t /\
  t_name t = strip (field_text p "name") /\
  (t_value t = strip (field_text p "value") \/ t_value t = t_name t).
Proof.
  unfold value_row, field_text.
  set (name := strip (pystr (pget p "name" ||| PStr ""))).
  set (val := strip (pystr (pget p "value" ||| PStr ""))).
  set (val_text := if _is_placeholder (Some val) then name else val).
  destruct (String.eqb_spec name "") as [E|E]; cbn [orb]; [discriminate|].
  destruct (_is_placeholder (Some val_text)) eqn:Ep; [discriminate|].
  intros H. inversion H; subst t; clear H. cbn [t_name t_value].
  repeat split; auto.
  - intros Ev. rewrite Ev in Ep. discriminate Ep.
  - apply strip_idem.
  - subst val_text. destruct (_is_placeholder (Some val)); apply strip_idem.
  - subst val_text. destruct (_is_placeholder (Some val)); auto.
Qed.

Lemma In_values_from_ranked rows t :
  In t (_values_from_ranked rows) -> exists p, In p rows /\ value_row p = Some t.
Proof.
  induction rows as [|p rows IH]; cbn; [contradiction|].
  destruct (value_row p) as [t'|] eqn:E.
  - intros [<-|H]; eauto. destruct (IH H) as (q & Hq & Hv). eauto.
  - intros H. destruct (IH H) as (q & Hq & Hv). eauto.
Qed.


Lemma filter_keep_all {A} (g : A -> bool) l :
  (forall x, In x l -> g x = true) -> filter g l = l.
Proof.
  induction l as [|a l IH]; cbn; intros H; [reflexivity|].
  rewrite (H a (or_introl eq_refl)), IH; auto.
Qed.

(** X8. The name/value variant of the cascade carries every usable value, in
    rank order; so a search over usable values has this request to send
    whenever a value is left, and no filter request at all when none is. *)
Theorem usable_values_name_tier rows base_keywords record_count :
  let ts := _values_from_ranked rows in
  p_txt_val ts = map (fun t => TextValueText (t_name t) (t_value t)) ts /\
  (ts <> [] ->
   In (mkBody base_keywords record_count
              (Filters_ParameterFilters (p_txt_val ts)))
      (candidates base_keywords ts record_count)) /\
  candidates base_keywords [] record_count = [].
Proof.
  intros ts.
  assert (E : p_txt_val ts
              = map (fun t => TextValueText (t_name t) (t_value t)) ts).
  { unfold p_txt_val. rewrite filter_keep_all; [reflexivity|].
    intros t Ht. apply In_values_from_ranked in Ht as (p & _ & Hp).
    destruct (value_row_usable p t Hp) as (Hn & Hv & _).
    cbn. apply String.eqb_neq in Hn, Hv. now rewrite Hn, Hv. }
  repeat split; auto.
  intros Hne. unfold candidates. rewrite !in_app_iff. do 3 right.
  rewrite E. destruct ts; [contradiction|]. cbn. now left.
Qed.

(** X9. A keyword that mentions fans is one of the two canonical fan
    keywords. *)
Theorem pick_base_keywords_fan base :
  contains "fan" (lower (_pick_base_keywords base)) = true ->
  In (_pick_base_keywords base) fan_keywords.
Proof.
  unfold _pick_base_keywords, fan_keywords.
  set (cand := _ ||| PStr "").
  destruct (String.eqb (strip (pystr cand)) "").
  - destruct (contains "fan" (lower (pystr _))).
    + destruct (contains "dc" _); cbn; auto.
    + cbn. discriminate.
  - destruct (contains "fan" (lower (strip (pystr cand)))) eqn:Ef.
    + destruct (contains "dc" _); cbn; auto.
    + cbn [andb]. congruence.
Qed.

End Values.

(** The category of [4414F] is a fan keyword. *)
Lemma pick_base_keywords_fan_witness :
  In (_pick_base_keywords (C := Scenarios.fan_catalog)
                          Scenarios.fan_attributes) fan_keywords.
Proof.
  apply (pick_base_keywords_fan (C := Scenarios.fan_catalog)).
  vm_compute. reflexivity.
Defined.

(** *** Requests sent *)

Section Requests.

Context {C : Catalog}.

Lemma dk_request_trace hdrs b st :
  trace (snd (dk_request hdrs b st)) = trace st ++ [CallSearch b].
Proof. reflexivity. Qed.

Lemma try_bodies_trace hdrs bodies :
  forall st,
    exists n,
      n <= List.length bodies /\
      trace (snd (try_bodies hdrs bodies st))
      = trace st ++ map CallSearch (firstn n bodies) /\
      (fst (try_bodies hdrs bodies st) = [] -> n = List.length bodies).
Proof.
  induction bodies as [|b rest IH]; intros st.
  - exists 0. cbn. rewrite app_nil_r. auto.
  - cbn [try_bodies]. unfold bind.
    destruct (dk_request hdrs b st) as [r st1] eqn:E.
    assert (Ht : trace st1 = trace st ++ [CallSearch b]).
    { now rewrite <- (dk_request_trace hdrs b st), E. }
    assert (Hrest :
      exists n,
        n <= List.length (b :: rest) /\
        trace (snd (try_bodies hdrs rest st1))
        = trace st ++ map CallSearch (firstn n (b :: rest)) /\
        (fst (try_bodies hdrs rest st1) = [] -> n = List.length (b :: rest))).
    { destruct (IH st1) as (n & Hn & Htr & Hall). exists (S n).
      cbn [firstn map List.length]. rewrite Htr, Ht, <- app_assoc.
      split; [lia|]. split; [reflexivity|].
      intros H. rewrite (Hall H). reflexivity. }
    destruct r as [resp|]; [|exact Hrest].
    destruct (_extract_products (json_of resp)) as [|x prods]; [exact Hrest|].
    exists 1. cbn. repeat split; auto; try lia. discriminate.
Qed.

Lemma candidates_length base_keywords triples record_count :
  List.length (candidates base_keywords triples record_count) <= 4.
Proof.
  unfold candidates. rewrite !length_app. unfold when_nonempty.
  destruct (p_id_valId triples), (p_id_valTxt triples), (p_id_val triples),
    (p_txt_val triples); cbn; lia.
Qed.

(** X10. The requests of a filter search are the first payloads of the
    cascade, in order: at most four, all of them when the search returns
    nothing, and none when there is no value to filter on. *)
Theorem search_requests token base_keywords triples record_count st :
  let bodies := candidates base_keywords triples record_count in
  let run := _search_dk_with_filters token base_keywords triples record_count st in
  exists n,
    n <= List.length bodies <= 4 /\
    trace (snd run) = trace st ++ map CallSearch (firstn n bodies) /\
    (fst run = [] -> n = List.length bodies) /\
    (triples = [] -> run = ([], st)).
Proof.
  intros bodies run. subst bodies run. unfold _search_dk_with_filters.
  destruct (try_bodies_trace (_dk_headers token)
              (candidates base_keywords triples record_count) st)
    as (n & Hn & Htr & Hall).
  exists n. pose proof (candidates_length base_keywords triples record_count).
  repeat split; auto. intros ->. reflexivity.
Qed.

Lemma try_keywords_trace hdrs record_count attempts :
  forall seen st,
    exists kws,
      trace (snd (try_keywords hdrs attempts seen record_count st))
      = trace st ++ map (fun kw => CallSearch (keyword_body record_count kw)) kws /\
      List.length kws <= List.length attempts /\
      NoDup (map lower kws) /\
      forall kw, In kw kws ->
        kw <> "" /\ ~ In (lower kw) seen /\
        exists a, In a attempts /\ kw = strip a.
Proof.
  induction attempts as [|a rest IH]; intros seen st.
  - exists []. cbn. rewrite app_nil_r. repeat split; auto; try constructor.
    contradiction.
  - cbn [try_keywords].
    destruct (String.eqb_spec (strip a) "") as [E|E]; cbn [orb].
    { destruct (IH seen st) as (kws & Htr & Hl & Hnd & Hk).
      exists kws. repeat split; auto; cbn; try lia;
        destruct (Hk kw H) as (H1 & H2 & a' & Ha & Hs); auto.
      exists a'. auto. }
    destruct (mem (lower (strip a)) seen) eqn:Em.
    { destruct (IH seen st) as (kws & Htr & Hl & Hnd & Hk).
      exists kws. repeat split; auto; cbn; try lia;
        destruct (Hk kw H) as (H1 & H2 & a' & Ha & Hs); auto.
      exists a'. auto. }
    unfold bind.
    destruct (dk_request hdrs (mkBody (strip a) record_count NoFilters) st)
      as [r st1] eqn:Er.
    assert (Ht : trace st1
                 = trace st ++ [CallSearch (keyword_body record_count (strip a))]).
    { unfold keyword_body. now rewrite <- (dk_request_trace hdrs _ st), Er. }
    assert (Hnew : ~ In (lower (strip a)) seen).
    { intros H. apply mem_In in H. congruence. }
    assert (Hrest :
      exists kws,
        trace (snd (try_keywords hdrs rest (lower (strip a) :: seen)
                                 record_count st1))
        = trace st
          ++ map (fun kw => CallSearch (keyword_body record_count kw)) kws /\
        List.length kws <= List.length (a :: rest) /\
        NoDup (map lower kws) /\
        forall kw, In kw kws ->
          kw <> "" /\ ~ In (lower kw) seen /\
          exists a', In a' (a :: rest) /\ kw = strip a').
    { destruct (IH (lower (strip a) :: seen) st1) as (kws & Htr & Hl & Hnd & Hk).
      exists (strip a :: kws). cbn [map List.length].
      rewrite Htr, Ht, <- app_assoc. repeat split; auto; try lia.
      - constructor; auto. intros H. apply in_map_iff in H as (k & Ek & Hin).
        destruct (Hk k Hin) as (_ & Hs & _). apply Hs. left. auto.
      - destruct H as [<-|H]; auto. now destruct (Hk kw H).
      - destruct H as [<-|H]; auto.
        destruct (Hk kw H) as (_ & Hs & _). intros Hin. apply Hs. now right.
      - destruct H as [<-|H]; [exists a; cbn; auto|].
        destruct (Hk kw H) as (_ & _ & a' & Ha & Hs). exists a'. cbn. auto. }
    destruct r as [resp|]; [|exact Hrest].
    destruct (_extract_products (json_of resp)) as [|x prods]; [exact Hrest|].
    exists [strip a]. cbn [map List.length snd]. unfold ret. cbn [snd].
    repeat split; auto; try lia.
    + repeat constructor. intros [].
    + destruct H as [<-|[]]. auto.
    + destruct H as [<-|[]]. auto.
    + destruct H as [<-|[]]. exists a. cbn. auto.
Qed.

Lemma keyword_attempts_length base_keywords remaining :
  List.length (keyword_attempts base_keywords remaining) <= 5.
Proof.
  unfold keyword_attempts. rewrite !length_app, length_map.
  pose proof (firstn_le_length 3 remaining) as H.
  remember (List.length (firstn 3 remaining)) as k.
  destruct (String.eqb base_keywords ""); cbn [List.length]; lia.
Qed.

(** X11. The keyword fallback sends plain keyword requests only: at most
    five, each with a keyword that is non-empty and stripped, and no two
    with the same keyword up to case. *)
Theorem keyword_requests token base_keywords remaining record_count st :
  exists kws,
    trace (snd (_keyword_fallback token base_keywords remaining record_count st))
    = trace st ++ map (fun kw => CallSearch (keyword_body record_count kw)) kws /\
    List.length kws <= 5 /\
    NoDup (map lower kws) /\
    forall kw, In kw kws -> kw <> "" /\ strip kw = kw.
Proof.
  unfold _keyword_fallback.
  destruct (try_keywords_trace (_dk_headers token) record_count
              (keyword_attempts base_keywords remaining) [] st)
    as (kws & Htr & Hl & Hnd & Hk).
  exists kws. pose proof (keyword_attempts_length base_keywords remaining).
  repeat split; auto; try lia.
  - now destruct (Hk kw H0).
  - destruct (Hk kw H0) as (_ & _ & a & _ & ->). apply strip_idem.
Qed.

End Requests.

(** *** Early exits and the audit trail *)

Section Trail.

Context {C : Catalog}.

Lemma get_token_trace st :
  trace (snd (get_token st)) = trace st ++ [CallToken].
Proof. reflexivity. Qed.

(** X12. Without a Digi-Key token the search of a part that has usable
    values fails with an explicit error, after the extractor was called for
    the part (once, or twice when the first call raised) and the token was
    asked for once, and without any search request. *)
Theorem token_missing fuel mpn rr mode st :
  let m := clean_mpn mpn in
  let st1 := snd (_fetch_attrs_quiet m st) in
  m <> "" ->
  usable_values (base_of mpn st) <> [] ->
  present (fst (get_token st1)) = false ->
  exists st' n,
    find_replacements_for_mpn fuel mpn rr mode st
    = (Some (Failure "Digi-Key token not available; check DIGIKEY_* envs."),
       st') /\
    1 <= n <= 2 /\
    trace st' = trace st ++ repeat (CallAttributes m) n ++ [CallToken].
Proof.
  intros m st1 Hm Hu Htok. subst m st1.
  unfold find_replacements_for_mpn, base_of in *.
  destruct (String.eqb_spec (clean_mpn mpn) "") as [E|_]; [contradiction|].
  unfold bind.
  destruct (fetch_attrs_trace (clean_mpn mpn) st) as (n & Hn & Hf & _).
  destruct (_fetch_attrs_quiet (clean_mpn mpn) st) as [[b|] st1];
    cbn [fst snd] in *; [|now destruct Hu].
  destruct (usable_values b) as [|t ts]; [contradiction|].
  pose proof (get_token_trace st1) as Hg.
  destruct (get_token st1) as [tok st2]. cbn [fst snd] in *.
  assert (Ht : trace st2
               = trace st ++ repeat (CallAttributes (clean_mpn mpn)) n
                 ++ [CallToken]).
  { rewrite Hg, Hf, <- app_assoc. reflexivity. }
  destruct tok as [tk|].
  - cbn in Htok. apply negb_false_iff in Htok. rewrite Htok.
    eexists; exists n; split; [reflexivity|split; [exact Hn|exact Ht]].
  - eexists; exists n; split; [reflexivity|split; [exact Hn|exact Ht]].
Qed.

(** X28. When the extractor raises at the first call for the part and again
    at the second, its exception leaves the search: no result is returned,
    and nothing was called but the extractor, twice. *)
Theorem extractor_failure_escapes fuel mpn rr mode st :
  let m := clean_mpn mpn in
  let first := fetch_or_empty m st in
  m <> "" ->
  fst first = None ->
  fst (fetch_or_empty m (snd first)) = None ->
  exists st',
    find_replacements_for_mpn fuel mpn rr mode st = (Some Raised, st') /\
    trace st' = trace st ++ [CallAttributes m; CallAttributes m].
Proof.
  intros m first Hm H1 H2. subst m first.
  unfold find_replacements_for_mpn.
  destruct (String.eqb_spec (clean_mpn mpn) "") as [E|_]; [contradiction|].
  unfold bind at 1.
  destruct (fetch_attrs_trace (clean_mpn mpn) st) as (n & _ & Htr & _ & Hn).
  rewrite (Hn H1) in Htr. clear Hn.
  assert (Hq : fst (_fetch_attrs_quiet (clean_mpn mpn) st) = None).
  { unfold _fetch_attrs_quiet, bind.
    destruct (fetch_or_empty (clean_mpn mpn) st) as [q st1].
    cbn [fst snd] in *. subst q. exact H2. }
  destruct (_fetch_attrs_quiet (clean_mpn mpn) st) as [fb st1].
  cbn [fst snd] in *. subst fb.
  exists st1. split; [reflexivity|exact Htr].
Qed.

(** X13. When results are not required the search makes exactly one attempt,
    with every usable value, and drops nothing. *)
Theorem results_not_required fuel mpn mode st r st' :
  find_replacements_for_mpn fuel mpn false mode st = (Some (Success r), st') ->
  iterations r <> [] ->
  List.length (iterations r) = 1 /\
  dropped_parameters r = [] /\
  used_parameters r
  = usable_values (base_of mpn st).
Proof.
  intros H Hit. apply find_success in H as [_ [_ [(_ & _ & ->)|(_ & H)]]].
  { now cbn in Hit. }
  destruct H as (tok & st2 & e & st3 & Hr & _ & -> & -> & ->).
  destruct fuel as [|fuel]; [discriminate|].
  cbn [relax] in Hr. unfold bind in Hr.
  destruct (attempt_products _ _ _ st2) as [found s1].
  cbn [negb] in Hr. rewrite orb_true_r in Hr. unfold ret in Hr.
  inversion Hr; subst e. cbn. auto.
Qed.

Variables (tok kw : string) (rr : bool) (mode : option string).
Variables (orig : string) (toks : list string).

(** The counters recorded at each attempt. *)
Lemma relax_counts fuel :
  forall used dropped its st e st',
    relax fuel tok kw rr mode orig toks used dropped its st = (Some e, st') ->
    exists news,
      x_iterations e = its ++ news /\ news <> [] /\
      forall j a, nth_error news j = Some a ->
        attempt_no a = List.length its + j + 1 /\
        used_value_count a = List.length (used_values a) /\
        dropped_value_count a = List.length dropped + j /\
        List.length (used_values a) + j = List.length used /\
        (S j < List.length news -> rr = true /\ results a = 0) /\
        (S j = List.length news -> results a = List.length (x_products e)).
Proof.
  induction fuel as [|fuel IH]; intros used dropped its st e st' H.
  - discriminate.
  - cbn [relax] in H. unfold bind in H.
    destruct (attempt_products tok kw used st) as [found st1].
    set (ps := base_filter mode toks (hard_filter orig found)) in *.
    set (a0 := mkAttempt _ _ _ _ _) in H.
    assert (Hstop :
      Some (mkExit used dropped (its ++ [a0]) ps) = Some e ->
      exists news,
        x_iterations e = its ++ news /\ news <> [] /\
        forall j a, nth_error news j = Some a ->
          attempt_no a = List.length its + j + 1 /\
          used_value_count a = List.length (used_values a) /\
          dropped_value_count a = List.length dropped + j /\
          List.length (used_values a) + j = List.length used /\
          (S j < List.length news -> rr = true /\ results a = 0) /\
          (S j = List.length news -> results a = List.length (x_products e))).
    { intros He. inversion He; subst e. exists [a0]. cbn [x_iterations x_products].
      split; [reflexivity|]. split; [discriminate|].
      intros [|j] a Ha; [|destruct j; discriminate].
      inversion Ha; subst a a0. cbn. repeat split; lia. }
    destruct (negb (Nat.eqb (List.length ps) 0) || negb rr) eqn:Eb.
    + apply Hstop. unfold ret in H. congruence.
    + destruct (pop used) as [[used' t]|] eqn:Ep.
      2:{ apply Hstop. unfold ret in H. congruence. }
      unfold sleep in H. apply IH in H as (news & Hi & Hne & Hall).
      apply pop_some in Ep.
      apply orb_false_iff in Eb as [Eb1 Eb2].
      apply negb_false_iff in Eb1, Eb2. apply Nat.eqb_eq in Eb1.
      exists (a0 :: news). split; [now rewrite Hi, <- app_assoc|].
      split; [discriminate|].
      intros [|j] a Ha.
      * inversion Ha; subst a a0. cbn [attempt_no used_value_count
          dropped_value_count results used_values List.length].
        repeat split; try lia; auto.
        intros Hl. destruct news; [contradiction|]. cbn in Hl. lia.
      * cbn [nth_error] in Ha. destruct (Hall j a Ha)
          as (H1 & H2 & H3 & H4 & H5 & H6).
        rewrite !length_app in *. cbn [List.length] in *.
        rewrite Ep, length_app. cbn [List.length].
        repeat split; try lia; try (apply H5; lia);
          try (intros Hl; apply H6; lia).
Qed.

End Trail.

Section Counts.

Context {C : Catalog}.

(** X14. The audit trail is consistent: the attempt of rank [i] is numbered
    [i + 1], records [i] dropped values and the number of values it used,
    the two adding up to the number of usable values; every attempt but the
    last found nothing, and the last one records the number of returned
    products. *)
Theorem iteration_counts fuel mpn rr mode st r st' :
  find_replacements_for_mpn fuel mpn rr mode st = (Some (Success r), st') ->
  forall i a, nth_error (iterations r) i = Some a ->
    attempt_no a = i + 1 /\
    used_value_count a = List.length (used_values a) /\
    dropped_value_count a = i /\
    used_value_count a + dropped_value_count a
    = List.length (usable_values (base_of mpn st)) /\
    (S i < List.length (iterations r) -> rr = true /\ results a = 0) /\
    (S i = List.length (iterations r) ->
     results a = List.length (products r)).
Proof.
  intros H i a Ha. apply find_success in H as [_ [_ [(_ & _ & ->)|(_ & H)]]].
  { destruct i; discriminate. }
  destruct H as (tok & st2 & e & st3 & Hr & He & Hi & _).
  rewrite Hi in *.
  apply relax_counts in Hr as (news & Hn & _ & Hall).
  cbn [app] in Hn. rewrite Hn in *.
  destruct (Hall i a Ha) as (H1 & H2 & H3 & H4 & H5 & H6).
  cbn [List.length] in *.
  assert (Hk : ~ In "mpn" enriched_keys) by (cbn; intuition discriminate).
  pose proof (Forall2_kept_length _ _ _
                (kept_enrich_all "mpn" _ Hk _ _ _ He)) as L2.
  pose proof (Forall2_kept_length _ _ _
                (kept_with_match_reasons "mpn" (x_used e) (x_products e)
                   ltac:(discriminate))) as L1.
  repeat split; try lia; auto; try (now apply H5).
  all: try (intros Hl; rewrite (H6 Hl); lia).
Qed.

End Counts.

(** *** Enrichment *)

Section Enriching.

Context {C : Catalog}.

Lemma retried_length vs ms :
  retried vs ms -> List.length ms <= 2 * List.length vs.
Proof. induction 1; cbn in *; lia. Qed.

Lemma retried_repeat v vs ms n :
  1 <= n <= 2 -> retried vs ms -> retried (v :: vs) (repeat v n ++ ms).
Proof.
  intros Hn H. destruct n as [|[|[|n]]]; try lia; cbn.
  - now apply retried_once.
  - now apply retried_twice.
Qed.

Lemma lookup_variants_trace variants :
  forall add st,
    exists ms,
      retried variants ms /\
      trace (snd (lookup_variants variants add st))
      = trace st ++ map CallAttributes ms.
Proof.
  induction variants as [|mv rest IH]; intros add st.
  - exists []. cbn. rewrite app_nil_r. split; [constructor|reflexivity].
  - cbn [lookup_variants]. unfold bind.
    destruct (fetch_attrs_trace mv st) as (n & Hn & Hf & _).
    destruct (_fetch_attrs_quiet mv st) as [a st1]. cbn [snd] in Hf.
    assert (Hstop : exists ms,
              retried (mv :: rest) ms /\
              trace st1 = trace st ++ map CallAttributes ms).
    { exists (repeat mv n ++ []). split.
      - apply retried_repeat; [exact Hn|constructor].
      - now rewrite app_nil_r, map_repeat. }
    destruct a as [a|]; [|exact Hstop].
    destruct (truthy _); [exact Hstop|].
    destruct (IH a st1) as (ms & Hr & Htr).
    exists (repeat mv n ++ ms). split.
    + now apply retried_repeat.
    + now rewrite Htr, Hf, map_app, map_repeat, <- app_assoc.
Qed.

(** X15. Enriching a candidate calls the attribute extractor on the first
    variants of its part number, in order, on each once or, when the first
    call for it raised, twice; so at most eight times. It does nothing else
    to the outside world. *)
Theorem enrich_lookups p st :
  exists ms,
    retried (_mpn_variants (text_or_empty (get "mpn" p))) ms /\
    List.length ms <= 8 /\
    trace (snd (_enrich p st)) = trace st ++ map CallAttributes ms.
Proof.
  unfold _enrich.
  assert (Hnone : exists ms,
            retried (_mpn_variants (text_or_empty (get "mpn" p))) ms /\
            List.length ms <= 8 /\
            trace st = trace st ++ map CallAttributes ms).
  { exists []. cbn [map List.length]. rewrite app_nil_r.
    split; [constructor|]. split; [lia|reflexivity]. }
  assert (Htext : forall raw, get "mpn" p ||| PStr "" = PStr raw ->
            text_or_empty (get "mpn" p) = raw).
  { intros raw. unfold por. destruct (get "mpn" p) as [|b|z|q|t|l|d]; cbn;
      try (intros H; inversion H; reflexivity).
    - destruct b; intros H; inversion H; reflexivity.
    - destruct (negb (Z.eqb z 0)); intros H; inversion H; reflexivity.
    - destruct (negb (Qeq_bool q 0)); intros H; inversion H; reflexivity.
    - destruct (negb (String.eqb t "")) eqn:E; intros H; inversion H; auto.
      subst. apply negb_false_iff, String.eqb_eq in E. auto.
    - destruct l; intros H; inversion H; reflexivity.
    - destruct d; intros H; inversion H; reflexivity. }
  destruct (get "mpn" p ||| PStr "") as [|b|z|q|raw|l|d] eqn:E;
    try exact Hnone.
  rewrite (Htext raw eq_refl).
  destruct (String.eqb_spec (strip raw) "") as [Es|Es].
  - exists []. cbn [map List.length snd ret]. rewrite app_nil_r.
    split; [constructor|]. split; [lia|reflexivity].
  - unfold bind, ret.
    destruct (lookup_variants_trace (_mpn_variants (strip raw)) [] st)
      as (ms & Hr & Htr).
    rewrite mpn_variants_strip in Hr.
    exists ms. split; [exact Hr|]. split.
    + pose proof (retried_length _ _ Hr) as L1.
      pose proof (mpn_variants_length raw) as L2. lia.
    + etransitivity; [|exact Htr].
      destruct (lookup_variants _ _ st) as [[add|] st1]; reflexivity.
Qed.

(** X29. When the extractor raises at both calls for the first variant of a
    candidate's part number, the candidate is left as it is and no other
    variant is tried: the failure of one lookup does not leave the
    enrichment. *)
Theorem enrich_survives_failure p raw st :
  let v := normalize_NFC (strip raw) in
  let first := fetch_or_empty v st in
  get "mpn" p = PStr raw -> strip raw <> "" ->
  fst first = None ->
  fst (fetch_or_empty v (snd first)) = None ->
  fst (_enrich p st) = p /\
  trace (snd (_enrich p st)) = trace st ++ [CallAttributes v; CallAttributes v].
Proof.
  intros v first Hmpn Hraw H1 H2. subst v first.
  set (v := normalize_NFC (strip raw)) in *.
  unfold _enrich, por. rewrite Hmpn. cbn [truthy].
  assert (Hne : raw <> "") by (intros ->; now apply Hraw).
  apply String.eqb_neq in Hne. rewrite Hne. cbn [negb].
  apply String.eqb_neq in Hraw. rewrite Hraw.
  unfold _mpn_variants. rewrite strip_idem, Hraw. cbn zeta. fold v.
  assert (Hhd : exists rest,
            add_variant (first_token v)
              (add_variant (strip (squeeze Outside (sub_dashes " " false v)))
                 (add_variant (sub_dashes "" false v) [v])) = v :: rest).
  { destruct (add_variant_head (sub_dashes "" false v) v []) as (r1 & ->).
    destruct (add_variant_head
                (strip (squeeze Outside (sub_dashes " " false v))) v r1)
      as (r2 & ->).
    apply add_variant_head. }
  destruct Hhd as (rest & ->).
  cbn [lookup_variants]. unfold bind.
  destruct (fetch_attrs_trace v st) as (n & _ & Htr & _ & Hn).
  rewrite (Hn H1) in Htr. clear Hn.
  assert (Hq : fst (_fetch_attrs_quiet v st) = None).
  { unfold _fetch_attrs_quiet, bind.
    destruct (fetch_or_empty v st) as [q st1].
    cbn [fst snd] in *. subst q. exact H2. }
  destruct (_fetch_attrs_quiet v st) as [fb st1].
  cbn [fst snd] in *. subst fb. cbn. split; [reflexivity|exact Htr].
Qed.

(** X16. A candidate whose part number is missing, blank or not a text is
    left as it is, and nothing is looked up for it. *)
Theorem enrich_blank p st :
  (forall raw, get "mpn" p = PStr raw -> strip raw = "") ->
  _enrich p st = (p, st).
Proof.
  intros H. unfold _enrich, por.
  destruct (get "mpn" p) as [|b|z|q|t|l|d] eqn:E; cbn [truthy];
    try reflexivity.
  - now destruct b.
  - now destruct (negb (Z.eqb z 0)).
  - now destruct (negb (Qeq_bool q 0)).
  - destruct (negb (String.eqb t "")); [|reflexivity].
    now rewrite (H t eq_refl).
  - now destruct l.
  - now destruct d.
Qed.

Lemma backfill_truthy k add p :
  truthy (get k p) = true -> backfill k add p = p.
Proof. intros H. unfold backfill. rewrite H. now rewrite andb_false_r. Qed.

Lemma backfill_get k k' add p :
  truthy (get k p) = true -> get k (backfill k' add p) = get k p.
Proof.
  intros H. destruct (String.eqb_spec k k') as [<-|Hne].
  - now rewrite backfill_truthy.
  - now destruct (kept_backfill k k' add p Hne).
Qed.

Lemma attach_no_overwrite k add p :
  In k ["product_url"; "dk_part"; "mouser_part"] ->
  truthy (get k p) = true ->
  get k (attach add p) = get k p.
Proof.
  intros Hk Ht. unfold attach.
  set (p1 := match get "attributes" add with
             | PDict (kv :: attrs) => set "attributes" (PDict (kv :: attrs)) p
             | _ => p
             end).
  set (ranked := get "ranked_parameters" add ||| PList []).
  set (p2 := if truthy ranked then set "parameters" _ p1 else p1).
  assert (H1 : get k p1 = get k p).
  { subst p1. destruct (get "attributes" add) as [| | | | | |[|kv attrs]];
      try reflexivity.
    apply get_set_other. cbn in Hk. intuition (subst; discriminate). }
  assert (H2 : get k p2 = get k p).
  { subst p2. destruct (truthy ranked); [|exact H1].
    rewrite get_set_other; [exact H1|].
    cbn in Hk. intuition (subst; discriminate). }
  set (p3 := backfill "product_url" add p2).
  assert (H3 : get k p3 = get k p).
  { subst p3. rewrite backfill_get; [exact H2|]. now rewrite H2. }
  set (p4 := backfill "dk_part" add p3).
  assert (H4 : get k p4 = get k p).
  { subst p4. rewrite backfill_get; [exact H3|]. now rewrite H3. }
  rewrite backfill_get; [exact H4|]. now rewrite H4.
Qed.

(** X17. Enrichment backfills links, it never overwrites them: a product
    URL, Digi-Key part or Mouser part that the candidate already has is
    still there afterwards. *)
Theorem enrich_no_overwrite k p st :
  In k ["product_url"; "dk_part"; "mouser_part"] ->
  truthy (get k p) = true ->
  get k (fst (_enrich p st)) = get k p.
Proof.
  intros Hk Ht. unfold _enrich.
  destruct (get "mpn" p ||| PStr "") as [| | | |raw| |]; try reflexivity.
  destruct (String.eqb (strip raw) ""); [reflexivity|].
  unfold bind, ret. destruct (lookup_variants _ _ st) as [[add|] st1];
    cbn [fst]; [now apply attach_no_overwrite|reflexivity].
Qed.

(** X18. The enrichment pass returns as many candidates as it was given, in
    the same order, and changes no key of a candidate but [attributes],
    [parameters], [product_url], [dk_part] and [mouser_part]. *)
Theorem enrichment_preserves products st :
  Forall2 (fun p p' => forall k, ~ In k enriched_keys -> kept k p p')
          products (fst (enrich_all products st)).
Proof.
  revert st. induction products as [|p ps IH]; intros st.
  - constructor.
  - cbn [enrich_all]. unfold bind, ret.
    destruct (_enrich p st) as [p1 st1] eqn:E1.
    specialize (IH st1).
    destruct (enrich_all ps st1) as [ps1 st2]. cbn [fst] in *.
    constructor; auto. intros k Hk. eapply kept_enrich; eauto.
Qed.

Lemma attempt_products_normalized token base_keywords used st c :
  In c (fst (attempt_products token base_keywords used st)) ->
  exists raw, c = normalize_one raw.
Proof.
  unfold attempt_products, bind, ret, _normalize_products_dk.
  destruct (_search_dk_with_filters _ _ _ _ st) as [raw st1].
  destruct (map normalize_one raw) as [|x l] eqn:E.
  - destruct (_keyword_fallback _ _ _ _ st1) as [raw_kw st2]. cbn [fst].
    intros H. apply in_map_iff in H as (r & <- & _). eauto.
  - cbn [fst]. rewrite <- E. intros H.
    apply in_map_iff in H as (r & <- & _). eauto.
Qed.

(** X19. When the Digi-Key normalizer is not available, every candidate is
    rendered by the fallback, which writes an empty [match_reasons] list;
    [setdefault] then keeps it: every returned candidate has an empty list
    of match reasons. *)
Theorem fallback_match_reasons_empty fuel mpn rr mode st r st' :
  _normalize_dk = None ->
  find_replacements_for_mpn fuel mpn rr mode st = (Some (Success r), st') ->
  forall p, In p (products r) -> get "match_reasons" p = PList [].
Proof.
  intros Hn H p Hin. apply find_success in H as [_ [_ [(_ & _ & ->)|(_ & H)]]].
  { destruct Hin. }
  destruct H as (tok & st2 & e & st3 & Hr & He & _).
  apply relax_sound in Hr
    as (_ & _ & found & s1 & s2 & _ & _ & _ & _ & Ha & Hp & _).
  assert (Hk : ~ In "match_reasons" enriched_keys).
  { cbn. intuition discriminate. }
  pose proof (kept_enrich_all "match_reasons" _ Hk _ _ _ He) as F.
  apply In_nth_error in Hin as [i Hi].
  destruct (Forall2_nth_error_r _ _ _ _ _ F Hi) as (q & Hq & [Hg _]).
  rewrite Hg. clear Hg.
  assert (Hc : exists c, nth_error (x_products e) i = Some c).
  { destruct (nth_error (x_products e) i) as [c|] eqn:Ec; eauto.
    apply nth_error_None in Ec.
    assert (Hlt : i < List.length (with_match_reasons (x_used e) (x_products e))).
    { apply nth_error_Some. congruence. }
    unfold with_match_reasons in Hlt.
    rewrite length_app, length_map, <- length_app, firstn_skipn in Hlt. lia. }
  destruct Hc as (c & Hc).
  pose proof (patched_nth
                (setdefault "match_reasons" (match_reasons_of (x_used e)))
                10 _ _ _ Hc) as Hq'.
  unfold with_match_reasons in Hq. rewrite Hq' in Hq.
  assert (Hin : In c found).
  { apply nth_error_In in Hc. rewrite Hp in Hc.
    now apply base_filter_incl, filter_In in Hc. }
  assert (Hf : In c (fst (attempt_products tok
                 (_pick_base_keywords (base_of mpn st))
                 (x_used e) s1))).
  { now rewrite Ha. }
  apply attempt_products_normalized in Hf as (raw & ->).
  unfold normalize_one in Hq. rewrite Hn in Hq.
  inversion Hq; subst q. now destruct (Nat.ltb i 10).
Qed.

End Enriching.

(** *** The order of the calls *)

Lemma pauses_app a b : pauses (a ++ b) = pauses a + pauses b.
Proof.
  induction a as [|e a IH]; cbn; [reflexivity|]. destruct e; cbn; lia.
Qed.

Lemma token_fetches_app a b :
  token_fetches (a ++ b) = token_fetches a + token_fetches b.
Proof.
  induction a as [|e a IH]; cbn; [reflexivity|]. destruct e; cbn; lia.
Qed.

Lemma lookups_app a b : lookups (a ++ b) = lookups a ++ lookups b.
Proof.
  induction a as [|e a IH]; cbn; [reflexivity|].
  destruct e; cbn; now rewrite ?IH.
Qed.

Lemma quiet_searches bs :
  pauses (map CallSearch bs) = 0 /\
  token_fetches (map CallSearch bs) = 0 /\
  lookups (map CallSearch bs) = [].
Proof. induction bs as [|b bs (H1 & H2 & H3)]; cbn; auto. Qed.

Section Order.

Context {C : Catalog}.

Lemma attempt_products_trace token base_keywords used st :
  exists bs,
    trace (snd (attempt_products token base_keywords used st))
    = trace st ++ map CallSearch bs.
Proof.
  unfold attempt_products, bind, ret.
  unfold _search_dk_with_filters, _keyword_fallback.
  destruct (try_bodies_trace (_dk_headers token)
              (candidates base_keywords used 50) st) as (n & _ & Htr & _).
  destruct (try_bodies _ _ st) as [raw st1]. cbn [snd] in Htr.
  destruct (_normalize_products_dk raw).
  - destruct (try_keywords_trace (_dk_headers token) 50
                (keyword_attempts base_keywords used) [] st1)
      as (kws & Hk & _).
    destruct (try_keywords _ _ _ _ st1) as [raw_kw st2]. cbn [snd] in *.
    exists (firstn n (candidates base_keywords used 50)
            ++ map (keyword_body 50) kws).
    rewrite Hk, Htr, map_app, map_map, <- app_assoc. reflexivity.
  - cbn [snd]. eauto.
Qed.

Lemma relax_trace tok kw rr mode orig toks fuel :
  forall used dropped its st e st',
    relax fuel tok kw rr mode orig toks used dropped its st = (Some e, st') ->
    exists evs,
      trace st' = trace st ++ evs /\
      pauses evs + 1 + List.length its = List.length (x_iterations e) /\
      token_fetches evs = 0 /\
      lookups evs = [].
Proof.
  induction fuel as [|fuel IH]; intros used dropped its st e st' H.
  - discriminate.
  - cbn [relax] in H. unfold bind in H.
    destruct (attempt_products_trace tok kw used st) as (bs & Hbs).
    destruct (attempt_products tok kw used st) as [found st1].
    cbn [snd] in Hbs.
    destruct (quiet_searches bs) as (Q1 & Q2 & Q3).
    set (ps := base_filter mode toks (hard_filter orig found)) in *.
    set (a0 := mkAttempt _ _ _ _ _) in H.
    assert (Hstop :
      (Some (mkExit used dropped (its ++ [a0]) ps), st1) = (Some e, st') ->
      exists evs,
        trace st' = trace st ++ evs /\
        pauses evs + 1 + List.length its = List.length (x_iterations e) /\
        token_fetches evs = 0 /\
        lookups evs = []).
    { intros He. inversion He; subst. exists (map CallSearch bs).
      cbn [x_iterations]. rewrite length_app. cbn [List.length].
      repeat split; auto. lia. }
    destruct (negb (Nat.eqb (List.length ps) 0) || negb rr);
      [exact (Hstop H)|].
    destruct (pop used) as [[used' t]|]; [|exact (Hstop H)].
    unfold sleep in H. apply IH in H as (evs & Htr & Hp & Ht & Hl).
    cbn [trace now] in Htr.
    exists (map CallSearch bs ++ Pause :: evs).
    rewrite Htr, Hbs, <- !app_assoc. cbn [app].
    rewrite pauses_app, token_fetches_app, lookups_app, Q1, Q2, Q3.
    rewrite length_app in Hp. cbn in *. repeat split; auto. lia.
Qed.

Lemma enrich_trace p st :
  exists ms, trace (snd (_enrich p st)) = trace st ++ map CallAttributes ms.
Proof.
  unfold _enrich.
  destruct (get "mpn" p ||| PStr "") as [| | | |raw| |];
    try (exists []; cbn; now rewrite app_nil_r).
  destruct (String.eqb (strip raw) "");
    [exists []; cbn; now rewrite app_nil_r|].
  unfold bind, ret.
  destruct (lookup_variants_trace (_mpn_variants (strip raw)) [] st)
    as (ms & _ & Htr).
  destruct (lookup_variants _ _ st) as [[add|] st1]; cbn [snd] in *; eauto.
Qed.

Lemma enrich_all_trace products :
  forall st,
    exists ms,
      trace (snd (enrich_all products st)) = trace st ++ map CallAttributes ms.
Proof.
  induction products as [|p ps IH]; intros st.
  - exists []. cbn. now rewrite app_nil_r.
  - cbn [enrich_all]. unfold bind, ret.
    destruct (enrich_trace p st) as (ms0 & Hp).
    destruct (_enrich p st) as [p1 st1]. cbn [snd] in Hp.
    destruct (IH st1) as (ms & Hms).
    destruct (enrich_all ps st1) as [ps1 st2]. cbn [snd] in *.
    eexists. rewrite Hms, Hp, <- app_assoc, <- map_app. reflexivity.
Qed.

(** X20. The calls of a search that reaches the catalog, in order: the
    attribute extractor for the part (once, or twice when the first call
    raised), one token fetch, then the events of the attempts (with one
    pacing delay fewer than there are attempts, no other token fetch and no
    attribute lookup), and only then the attribute lookups of the
    enrichment. *)
Theorem search_trace fuel mpn rr mode st r st' :
  find_replacements_for_mpn fuel mpn rr mode st = (Some (Success r), st') ->
  iterations r <> [] ->
  exists n attempts_evs ms,
    1 <= n <= 2 /\
    trace st'
    = trace st ++ repeat (CallAttributes (clean_mpn mpn)) n
      ++ CallToken :: attempts_evs ++ map CallAttributes ms /\
    pauses attempts_evs + 1 = List.length (iterations r) /\
    token_fetches attempts_evs = 0 /\
    lookups attempts_evs = [].
Proof.
  intros H Hit. unfold find_replacements_for_mpn in H.
  destruct (String.eqb (clean_mpn mpn) ""); [inversion H|].
  unfold bind in H.
  destruct (fetch_attrs_trace (clean_mpn mpn) st) as (n & Hn & Hf & _).
  destruct (_fetch_attrs_quiet (clean_mpn mpn) st) as [[b|] st1];
    [|inversion H].
  cbn [snd] in Hf.
  destruct (usable_values b) as [|t ts].
  { inversion H; subst. now cbn in Hit. }
  pose proof (get_token_trace st1) as Hg.
  destruct (get_token st1) as [[tk|] st2]; [|inversion H]. cbn [snd] in Hg.
  destruct (String.eqb tk ""); [inversion H|].
  destruct (relax fuel tk _ rr mode _ _ _ [] [] st2) as [[e|] st3] eqn:Er;
    [|inversion H].
  apply relax_trace in Er as (evs & Htr & Hp & Ht & Hl).
  unfold ret in H.
  destruct (enrich_all_trace (with_match_reasons (x_used e) (x_products e)) st3)
    as (ms & Hms).
  destruct (enrich_all _ st3) as [ps st4]. cbn [snd] in Hms.
  inversion H; subst. cbn [iterations].
  exists n, evs, ms. rewrite Hms, Htr, Hg, Hf, <- !app_assoc.
  cbn in Hp. repeat split; auto; lia.
Qed.

End Order.

(** *** The properties on the scenarios *)

Import Scenarios.

(** No credentials, and an extractor that raises once: two calls of the
    extractor, then the token. *)
Lemma token_missing_witness :
  exists st',
    find_replacements_for_mpn (C := flaky_catalog fan_attributes None)
      3 (Some "4414F") true None
      (fresh (flaky_catalog fan_attributes None) false)
    = (Some (Failure "Digi-Key token not available; check DIGIKEY_* envs."),
       st') /\
    trace st' = [CallAttributes "4414F"; CallAttributes "4414F"; CallToken].
Proof.
  destruct (token_missing (C := flaky_catalog fan_attributes None)
              3 (Some "4414F") true None
              (fresh (flaky_catalog fan_attributes None) false))
    as (st' & n & H & _ & _).
  - vm_compute. discriminate.
  - vm_compute. discriminate.
  - vm_compute. reflexivity.
  - exists st'. split; [exact H|].
    vm_compute in H. inversion H; subst. reflexivity.
Defined.

(** An extractor that always raises. *)
Lemma extractor_failure_escapes_witness :
  exists st',
    find_replacements_for_mpn (C := broken_catalog) 3 (Some "4414F") true None
                              (fresh broken_catalog tt)
    = (Some Raised, st') /\
    trace st' = [CallAttributes "4414F"; CallAttributes "4414F"].
Proof.
  apply (extractor_failure_escapes (C := broken_catalog) 3 (Some "4414F") true
           None (fresh broken_catalog tt)).
  - vm_compute. discriminate.
  - reflexivity.
  - reflexivity.
Defined.

(** The candidate [4414F-ND] in front of an extractor that always raises. *)
Lemma enrich_survives_failure_witness :
  fst (_enrich (C := broken_catalog) same_family (fresh broken_catalog tt))
  = same_family /\
  trace (snd (_enrich (C := broken_catalog) same_family
                      (fresh broken_catalog tt)))
  = [CallAttributes "4414F-ND"; CallAttributes "4414F-ND"].
Proof.
  apply (enrich_survives_failure (C := broken_catalog) same_family "4414F-ND"
           (fresh broken_catalog tt)).
  - reflexivity.
  - vm_compute. discriminate.
  - reflexivity.
  - reflexivity.
Defined.

(** [4414F] with results not required: one attempt, although it finds
    nothing. *)
Lemma results_not_required_witness :
  exists r st',
    find_replacements_for_mpn (C := fan_catalog) 3 (Some "4414F") false None
                              (fresh fan_catalog tt)
      = (Some (Success r), st') /\
    List.length (iterations r) = 1.
Proof.
  eexists; eexists; split.
  - vm_compute. reflexivity.
  - refine (proj1 (results_not_required (C := fan_catalog) 3 (Some "4414F")
                     None (fresh fan_catalog tt) _ _ _ _)).
    + vm_compute. reflexivity.
    + vm_compute. discriminate.
Defined.

(** The second attempt for [4414F] is numbered 2. *)
Lemma iteration_counts_witness :
  exists r st' a,
    find_replacements_for_mpn (C := fan_catalog) 3 (Some "4414F") true None
                              (fresh fan_catalog tt)
      = (Some (Success r), st') /\
    nth_error (iterations r) 1 = Some a /\
    attempt_no a = 2.
Proof.
  eexists; eexists; eexists; split; [vm_compute; reflexivity|].
  split; [vm_compute; reflexivity|].
  refine (proj1 (iteration_counts (C := fan_catalog) 3 (Some "4414F") true None
                   (fresh fan_catalog tt) _ _ _ 1 _ _)).
  - vm_compute. reflexivity.
  - vm_compute. reflexivity.
Defined.

(** A candidate with a blank part number. *)
Lemma enrich_blank_witness :
  _enrich (C := fan_catalog) nameless (fresh fan_catalog tt)
  = (nameless, fresh fan_catalog tt).
Proof.
  apply (enrich_blank (C := fan_catalog)).
  intros raw H. vm_compute in H. inversion H. reflexivity.
Defined.

(** A candidate that has its product URL keeps it. *)
Lemma enrich_no_overwrite_witness :
  get "product_url"
      (fst (_enrich (C := fan_catalog) linked (fresh fan_catalog tt)))
  = PStr "https://example.test/4414F".
Proof.
  apply (enrich_no_overwrite (C := fan_catalog) "product_url" linked).
  - cbn. auto.
  - reflexivity.
Defined.

(** The fan catalog has no normalizer: the candidate returned for [4414F]
    has no match reason. *)
Lemma fallback_match_reasons_empty_witness :
  get "match_reasons" same_family = PList [].
Proof.
  eapply (fallback_match_reasons_empty (C := fan_catalog) 3 (Some "4414F")
            true None (fresh fan_catalog tt)).
  - reflexivity.
  - vm_compute. reflexivity.
  - vm_compute. left. reflexivity.
Defined.

(** Two attempts for [4414F], with an extractor that raises once: two
    calls of the extractor, the token, and one pacing delay. *)
Lemma search_trace_witness :
  exists r st' attempts_evs ms,
    find_replacements_for_mpn (C := flaky_catalog fan_attributes (Some "token"))
      3 (Some "4414F") true None
      (fresh (flaky_catalog fan_attributes (Some "token")) false)
      = (Some (Success r), st') /\
    trace st'
    = CallAttributes "4414F" :: CallAttributes "4414F" :: CallToken
      :: attempts_evs ++ map CallAttributes ms /\
    pauses attempts_evs = 1.
Proof.
  destruct (find_replacements_for_mpn
              (C := flaky_catalog fan_attributes (Some "token"))
              3 (Some "4414F") true None
              (fresh (flaky_catalog fan_attributes (Some "token")) false))
    as [res st'] eqn:E.
  assert (Hres : exists r, res = Some (Success r) /\
                           List.length (iterations r) = 2 /\
                           nth_error (trace st') 1
                           = Some (CallAttributes "4414F")).
  { vm_compute in E. inversion E; subst. eexists. repeat split. }
  destruct Hres as (r & -> & Hlen & Hsnd).
  destruct (search_trace (C := flaky_catalog fan_attributes (Some "token"))
              3 (Some "4414F") true None
              (fresh (flaky_catalog fan_attributes (Some "token")) false)
              r st' E)
    as (n & evs & ms & Hn & Htr & Hp & _).
  - intros Hnil. rewrite Hnil in Hlen. discriminate.
  - exists r, st', evs, ms. split; [reflexivity|].
    split; [|lia].
    destruct n as [|[|[|n]]]; try lia.
    + rewrite Htr in Hsnd. discriminate Hsnd.
    + exact Htr.
Defined.

End SearchMore.

(* ================================================================== *)
(** ** Further properties of the ranking operation *)
(* ================================================================== *)

Module RankMore.
Import Py PyFacts RankParams RankFacts.

Lemma filter_map_swap {A B} (f : A -> B) (g : B -> bool) l :
  map f (filter (fun x => g (f x)) l) = filter g (map f l).
Proof.
  induction l as [|a l IH]; cbn; [reflexivity|].
  destruct (g (f a)); cbn; now rewrite IH.
Qed.

Section Ranking.

Context {O : RankingOracle}.

(** X21. The order of the ranked output: the rows of the model first, in the
    order of the model, then the input parameters that the model left out,
    in input order. Without a ranking from the model this is the input
    order. *)
Theorem rank_order params mpn category console_preview out :
  rank_parameter_ids params mpn category console_preview = Returns out ->
  exists ranked,
    map r_id out
    = map rid ranked
      ++ filter (fun k => negb (mem k (map rid ranked)))
                (map sid (with_id params)) /\
    (ranked = [] \/
     exists client text,
       ask_model client
                 (mkBlob mpn category (map item_of (with_id params)))
       = Some text /\
       rows_of (parse_ranked text) = Returns ranked).
Proof.
  intros H. apply rank_returns in H as [[-> ->]|(client & rm & _ & -> & Hrm)].
  { exists []. cbn. auto. }
  rewrite map_map.
  change (map (fun x => r_id (remap _ x)) rm) with (map rid rm).
  apply ranked_min_cases in Hrm as [->|(text & ranked & Ha & Hrows & ->)].
  - exists []. split; [|auto]. cbn [map app].
    rewrite filter_all by reflexivity. rewrite !map_map. reflexivity.
  - exists ranked. split; [|eauto].
    rewrite ids_of_complete. f_equal.
    rewrite <- (ids_of_compact (with_id params)).
    rewrite <- (filter_map_swap c_id (fun k => negb (mem k (map rid ranked)))).
    reflexivity.
Qed.

(** X22. A row whose id is no id of the input is returned with no value: the
    operation never attaches an input value to an id it was not given. *)
Theorem unknown_id_no_value params mpn category console_preview out :
  rank_parameter_ids params mpn category console_preview = Returns out ->
  forall r, In r out ->
    ~ In (r_id r) (map sid (with_id params)) ->
    r_value r = PNone.
Proof.
  intros H r Hr Hid.
  apply rank_returns in H as [[-> ->]|(client & rm & _ & -> & _)].
  { destruct Hr. }
  apply in_map_iff in Hr as (row & <- & _).
  change (r_id (remap _ row)) with (rid row) in Hid.
  unfold remap. cbn [r_value]. change (pystr (get "id" row)) with (rid row).
  rewrite lookup_by_id.
  destruct (latest (rid row) (with_id params)) as [q|] eqn:El; [|reflexivity].
  apply latest_In in El as [Hq Es]. exfalso. apply Hid.
  rewrite <- Es. now apply in_map.
Qed.

Lemma ranked_min_complete content compact rm c :
  ranked_min_of content compact = Returns rm ->
  In c compact -> exists row, In row rm /\ rid row = c_id c.
Proof.
  intros H Hc. apply ranked_min_cases in H as [->|(text & ranked & _ & _ & ->)].
  - exists (min_row c). split; [now apply in_map|reflexivity].
  - unfold complete_ranked.
    destruct (mem (c_id c) (map rid ranked)) eqn:Em.
    + apply mem_In, in_map_iff in Em as (row & E & Hrow).
      exists row. split; auto. apply in_or_app. now left.
    + exists (min_row c). split; [|reflexivity].
      apply in_or_app. right. apply in_map. apply filter_In. split; auto.
      cbn. change (map (fun p => pystr (get "id" p)) ranked)
        with (map rid ranked). now rewrite Em.
Qed.

(** X23. The console preview is not only cosmetic. When the ranking returns
    with the preview off, and some parameter (the last one with its id) has
    a value that is truthy and no text, such as a number, the same call
    with the preview on raises [AttributeError]. *)
Theorem preview_raises_on_number params mpn category out p :
  rank_parameter_ids params mpn category false = Returns out ->
  latest (sid p) (with_id params) = Some p ->
  strippable (get "value" p) = false ->
  rank_parameter_ids params mpn category true = Raises AttributeError.
Proof.
  intros H Hl Hs.
  assert (Hp : In p (with_id params)) by (now apply latest_In in Hl).
  destruct params as [|p0 params']; [destruct Hp|].
  remember (p0 :: params') as params eqn:Eparams.
  assert (Hshape : forall b,
    rank_parameter_ids params mpn category b
    = match _client with
      | Raises e => Raises e
      | Returns client =>
          match ranked_min_of
                  (ask_model client
                     (mkBlob mpn category (map item_of (with_id params))))
                  (map item_of (with_id params)) with
          | Raises e => Raises e
          | Returns rm =>
              let rows :=
                map (remap (fold_left (fun b p => store (sid p) (row_of p) b)
                                      (with_id params) [])) rm in
              if b then
                match preview rows with
                | Raises e => Raises e
                | Returns _ => Returns rows
                end
              else Returns rows
          end
      end).
  { intros b. subst params. unfold rank_parameter_ids.
    rewrite collect_spec. cbn [app]. reflexivity. }
  rewrite Hshape in H. rewrite Hshape.
  destruct _client as [client|e]; [|discriminate].
  destruct (ranked_min_of _ _) as [rm|e] eqn:Er; [|discriminate].
  cbn zeta in *. inversion H; subst out; clear H.
  destruct (ranked_min_complete _ _ _ (item_of p) Er) as (row & Hrow & Hid).
  { now apply in_map. }
  unfold preview.
  replace (forallb _ _) with false; [reflexivity|].
  symmetry. apply not_true_is_false. intros Hall.
  rewrite forallb_forall in Hall.
  specialize (Hall _ (in_map _ _ _ Hrow)).
  apply andb_true_iff in Hall as [_ Hv].
  rewrite (remap_value _ row p) in Hv; [congruence|].
  now rewrite Hid.
Qed.

End Ranking.

Import Scenarios.

(** The model's order for the fan parameters comes first. *)
Lemma rank_order_witness :
  exists out ranked,
    rank_parameter_ids (O := reorder) fan_params None None true = Returns out /\
    map r_id out
    = map (rid (O := reorder)) ranked
      ++ filter (fun k => negb (mem k (map (rid (O := reorder)) ranked)))
                ["1"; "2"].
Proof.
  eexists.
  destruct (rank_order (O := reorder) fan_params None None true _
              ltac:(vm_compute; reflexivity)) as (ranked & Hids & _).
  exists ranked. split; [reflexivity|exact Hids].
Defined.

(** The invented id [9] comes back without a value. *)
Lemma unknown_id_no_value_witness :
  exists out r,
    rank_parameter_ids (O := inventive) fan_params None None true = Returns out /\
    In r out /\ r_id r = "9" /\ r_value r = PNone.
Proof.
  eexists. exists (mkRow "9" (PStr "Weight") PNone).
  split; [vm_compute; reflexivity|].
  split; [vm_compute; left; reflexivity|]. split; [reflexivity|].
  eapply (unknown_id_no_value (O := inventive) fan_params None None true).
  - vm_compute. reflexivity.
  - vm_compute. left. reflexivity.
  - vm_compute. intuition discriminate.
Defined.

(** A pin count of 8, given as a number, with the preview on. *)
Lemma preview_raises_on_number_witness :
  rank_parameter_ids (O := silent) [pin_count] None None true
  = Raises AttributeError.
Proof.
  eapply (preview_raises_on_number (O := silent) [pin_count] None None _
            pin_count).
  - vm_compute. reflexivity.
  - vm_compute. reflexivity.
  - reflexivity.
Defined.

End RankMore.

(* ================================================================== *)
(** ** Properties of the comparison view *)
(* ================================================================== *)

Module AppFacts.
Import Py PyFacts ReplacementSearch SearchFacts RankFacts SearchMore App.

(** *** Column names *)

Lemma space_lower_char c : is_space (lower_char c) = is_space c.
Proof. destruct c as [[] [] [] [] [] [] [] []]; reflexivity. Qed.

Lemma lower_lower_char c : lower_char (lower_char c) = lower_char c.
Proof. destruct c as [[] [] [] [] [] [] [] []]; reflexivity. Qed.

Lemma smap_append f (a b : string) :
  smap f (a ++ b) = (smap f a ++ smap f b)%string.
Proof. induction a as [|c a IH]; cbn; [reflexivity|now rewrite IH]. Qed.

Lemma words_from_smap f s :
  (forall c, is_space (f c) = is_space c) ->
  forall cur,
    words_from (smap f cur) (smap f s) = map (smap f) (words_from cur s).
Proof.
  intros H. induction s as [|c s IH]; intros cur.
  - cbn. now destruct cur.
  - cbn [smap words_from]. rewrite H. destruct (is_space c).
    + specialize (IH ""). cbn [smap] in IH.
      destruct cur; cbn; now rewrite IH.
    + specialize (IH (cur ++ String c "")%string).
      rewrite smap_append in IH. exact IH.
Qed.

Lemma split_smap f s :
  (forall c, is_space (f c) = is_space c) ->
  split (smap f s) = map (smap f) (split s).
Proof. intros H. exact (words_from_smap f s H ""). Qed.

Lemma strip_smap f s :
  (forall c, is_space (f c) = is_space c) -> strip (smap f s) = smap f (strip s).
Proof. intros H. unfold strip. now rewrite lstrip_smap, rstrip_smap. Qed.

Lemma capitalize_upper w : capitalize (upper w) = capitalize w.
Proof.
  destruct w as [|c w]; [reflexivity|]. unfold upper.
  cbn [smap capitalize]. unfold lower.
  rewrite upper_upper_char, smap_smap. f_equal.
  apply smap_ext, lower_upper_char.
Qed.

Lemma capitalize_lower w : capitalize (lower w) = capitalize w.
Proof.
  destruct w as [|c w]; [reflexivity|]. unfold lower.
  cbn [smap capitalize]. unfold lower.
  rewrite upper_lower_char, smap_smap. f_equal.
  apply smap_ext, lower_lower_char.
Qed.

Lemma normalize_col_ext a b :
  lower (strip a) = lower (strip b) ->
  map capitalize (split a) = map capitalize (split b) ->
  normalize_col a = normalize_col b.
Proof. intros Hk Hw. unfold normalize_col. now rewrite Hk, Hw. Qed.

(** X24. On ASCII text, column names ignore case: an attribute name in
    upper case or in lower case lands in the same column of the comparison
    table. *)
Theorem normalize_col_case s :
  ascii_text s = true ->
  normalize_col (upper s) = normalize_col s /\
  normalize_col (lower s) = normalize_col s.
Proof.
  intros _. split; apply normalize_col_ext.
  - unfold upper, lower. rewrite strip_smap by apply space_upper_char.
    rewrite smap_smap. apply smap_ext, lower_upper_char.
  - unfold upper. rewrite split_smap by apply space_upper_char.
    rewrite map_map. apply map_ext. intros w. apply capitalize_upper.
  - unfold lower. rewrite strip_smap by apply space_lower_char.
    rewrite smap_smap. apply smap_ext, lower_lower_char.
  - unfold lower. rewrite split_smap by apply space_lower_char.
    rewrite map_map. apply map_ext. intros w. apply capitalize_lower.
Qed.

(** The attribute name [Mounting hole pitch], which falls to the title-case
    default. *)
Lemma normalize_col_case_witness :
  normalize_col (upper "Mounting hole pitch")
  = normalize_col "Mounting hole pitch" /\
  normalize_col (lower "Mounting hole pitch")
  = normalize_col "Mounting hole pitch".
Proof. apply (normalize_col_case "Mounting hole pitch"). reflexivity. Defined.

(** *** The attribute map *)

Lemma lookup_set_default col k v (out : columns) :
  lookup col (set_default k v out)
  = match lookup col out with
    | Some x => Some x
    | None => if String.eqb k col then Some v else None
    end.
Proof.
  unfold set_default. destruct (lookup k out) as [x|] eqn:E.
  - destruct (lookup col out) eqn:E'; [reflexivity|].
    destruct (String.eqb_spec k col); [congruence|reflexivity].
  - destruct (String.eqb_spec k col) as [<-|Hne].
    + now rewrite lookup_store_same, E.
    + rewrite lookup_store_other by congruence. now destruct (lookup col out).
Qed.

Section View.

Context {C : Catalog}.

Lemma fill_lookup col d :
  forall out,
    lookup col (fill d out)
    = match lookup col out with
      | Some x => Some x
      | None => option_map (fun kv => render (snd kv)) (first_for col d)
      end.
Proof.
  unfold first_for. induction d as [|[k v] d IH]; intros out.
  - cbn. now destruct (lookup col out).
  - cbn [fill find fst snd]. destruct (blank v); cbn [negb andb].
    + apply IH.
    + rewrite IH, lookup_set_default.
      destruct (lookup col out); [reflexivity|].
      now destruct (String.eqb (normalize_col k) col).
Qed.

(** X25. The attribute map of a part: the text under a column is the
    rendering of the first attribute, in the order of the source, that has
    a value (not [None], not empty) and whose name normalizes to that
    column; a column that no such attribute names is absent, and anything
    but a dict gives the empty map. *)
Theorem to_map_first_wins :
  (forall d col,
     lookup col (to_map (PDict d))
     = option_map (fun kv => render (snd kv)) (first_for col d)) /\
  (forall v, (forall d, v <> PDict d) -> to_map v = []).
Proof.
  split.
  - intros d col. unfold to_map. now rewrite fill_lookup.
  - intros v H. destruct v; try reflexivity. now destruct (H d).
Qed.

(** X26. The view ignores a request with a blank part number: nothing is
    looked up and no comparison is made; otherwise it calls the attribute
    extractor for the first and then for the second stripped part number,
    exactly once each, and compares the two. It does not catch what the
    extractor raises: when the first call raises the second is not made. *)
Theorem index_post_calls form_mpn1 form_mpn2 st :
  let m1 := clean_mpn form_mpn1 in
  let m2 := clean_mpn form_mpn2 in
  let out := index_post form_mpn1 form_mpn2 st in
  (m1 = "" \/ m2 = "" -> out = (Some (m1, m2, None), st)) /\
  (m1 <> "" -> m2 <> "" ->
   let first := fetch_attributes m1 st in
   let second := fetch_attributes m2 (snd first) in
   match fst first, fst second with
   | Some _, Some _ =>
       exists cmp,
         fst out = Some (m1, m2, Some cmp) /\
         cmp_mpn1 cmp = m1 /\ cmp_mpn2 cmp = m2 /\
         trace (snd out) = trace st ++ [CallAttributes m1; CallAttributes m2]
   | Some _, None =>
       fst out = None /\
       trace (snd out) = trace st ++ [CallAttributes m1; CallAttributes m2]
   | None, _ =>
       fst out = None /\ trace (snd out) = trace st ++ [CallAttributes m1]
   end).
Proof.
  cbn zeta. unfold index_post. split.
  - intros [E|E]; rewrite E; cbn; [reflexivity|].
    now rewrite andb_false_r.
  - intros H1 H2. apply String.eqb_neq in H1, H2. rewrite H1, H2. cbn [negb andb].
    unfold bind, ret.
    assert (T : forall m s, trace (snd (fetch_attributes m s))
                            = trace s ++ [CallAttributes m]).
    { intros m s. unfold fetch_attributes, log.
      now destruct (fetch_attributes_for_mpn m (now s)) as [[[d|]|] w]. }
    pose proof (T (clean_mpn form_mpn1) st) as T1.
    destruct (fetch_attributes (clean_mpn form_mpn1) st) as [[d1|] s1];
      cbn [fst snd] in *; [|split; [reflexivity|exact T1]].
    pose proof (T (clean_mpn form_mpn2) s1) as T2.
    destruct (fetch_attributes (clean_mpn form_mpn2) s1) as [[d2|] s2];
      cbn [fst snd] in *; rewrite T1, <- app_assoc in T2.
    + eexists. repeat split. exact T2.
    + split; [reflexivity|exact T2].
Qed.

End View.

(** *** The rows of the table *)

Lemma In_insert_key k x l : In x (insert_key k l) <-> x = k \/ In x l.
Proof.
  induction l as [|y l IH]; cbn; [intuition|].
  destruct (String.leb k y); cbn; [intuition|]. rewrite IH. intuition.
Qed.

Lemma In_set_of_iff x l : In x (set_of l) <-> In x l.
Proof.
  split; [apply In_set_of|].
  induction l as [|y l IH]; cbn; auto.
  destruct (mem y l) eqn:E; cbn.
  - intros [<-|H]; auto. apply IH. now apply mem_In.
  - intros [<-|H]; auto.
Qed.

Lemma sorted_set_spec l :
  NoDup (sorted_set l) /\
  Sorted (fun a b => String.leb a b = true) (sorted_set l) /\
  forall k, In k (sorted_set l) <-> In k l.
Proof.
  unfold sorted_set.
  assert (H : forall s, NoDup s ->
            NoDup (fold_right insert_key [] s) /\
            Sorted (fun a b => String.leb a b = true)
                   (fold_right insert_key [] s) /\
            forall k, In k (fold_right insert_key [] s) <-> In k s).
  { intros s Hs. induction Hs as [|x s Hin Hs (IH1 & IH2 & IH3)]; cbn.
    - repeat split; auto; constructor.
    - set (r := fold_right insert_key [] s) in *.
      assert (Hx : ~ In x r) by (now rewrite IH3).
      split; [|split].
      + clear IH2 IH3. induction r as [|y r IHr]; cbn.
        * repeat constructor. intros [].
        * destruct (String.leb x y); [constructor; auto|].
          inversion IH1; subst. constructor.
          -- rewrite In_insert_key. cbn in Hx. intuition.
          -- apply IHr; auto. cbn in Hx. intuition.
      + clear IH1 IH3 Hx. induction r as [|y r IHr]; cbn.
        * repeat constructor.
        * destruct (String.leb x y) eqn:E; [constructor; auto|].
          inversion IH2 as [|? ? Hs' Hhd]; subst. constructor; auto.
          assert (Hyx : String.leb y x = true).
          { destruct (String.leb_total x y); congruence. }
          destruct r as [|z r]; cbn; [now constructor|].
          destruct (String.leb x z); constructor; auto. now inversion Hhd.
      + intros k. rewrite In_insert_key, IH3. cbn. intuition. }
  destruct (H (set_of l) (NoDup_set_of l)) as (H1 & H2 & H3).
  repeat split; auto; intros Hk.
  - now apply In_set_of_iff, H3.
  - now apply H3, In_set_of_iff.
Qed.

(** X27. The comparison table has one row per column of either part, sorted
    by column name and without repetition; a row shows each part's text, or
    a dash for a part that lacks the column, and it is marked as a match
    exactly when both parts have the column, neither text is the dash, and
    the two texts agree once stripped, lower-cased and with double spaces
    reduced. *)
Theorem table_rows_spec a1 a2 :
  let rows := table_rows a1 a2 in
  NoDup (map param rows) /\
  Sorted (fun a b => String.leb a b = true) (map param rows) /\
  (forall k, In k (map param rows) <-> In k (map fst a1) \/ In k (map fst a2)) /\
  forall r, In r rows ->
    v1 r = value_or_dash a1 (param r) /\
    v2 r = value_or_dash a2 (param r) /\
    (matched r = true <->
     exists x y,
       lookup (param r) a1 = Some x /\ lookup (param r) a2 = Some y /\
       x <> "—" /\ y <> "—" /\ norm_val x = norm_val y).
Proof.
  cbn zeta. unfold table_rows.
  destruct (sorted_set_spec (map fst a1 ++ map fst a2)) as (H1 & H2 & H3).
  rewrite map_map. cbn [param]. rewrite map_id.
  repeat split; auto.
  - intros Hk. now apply in_app_or, H3.
  - intros Hk. now apply H3, in_or_app.
  - apply in_map_iff in H as (k & <- & _). reflexivity.
  - apply in_map_iff in H as (k & <- & _). reflexivity.
  - apply in_map_iff in H as (k & <- & _). cbn [matched param].
    unfold value_or_dash. intros Hm.
    apply andb_true_iff in Hm as [Hm Hn].
    apply andb_true_iff in Hm as [Hx Hy].
    apply negb_true_iff, String.eqb_neq in Hx, Hy.
    apply String.eqb_eq in Hn.
    destruct (lookup k a1) as [x|]; [|contradiction].
    destruct (lookup k a2) as [y|]; [|contradiction].
    exists x, y. auto.
  - apply in_map_iff in H as (k & <- & _). cbn [matched param].
    intros (x & y & Ex & Ey & Hx & Hy & Hn). unfold value_or_dash.
    rewrite Ex, Ey. apply String.eqb_neq in Hx, Hy. rewrite Hx, Hy, Hn.
    cbn. apply String.eqb_refl.
Qed.

End AppFacts.
